(** * Type-layout library (csvnpm.binary.types): offsets, corpus and codec

    A shallow embedding of [typeinfo.py], [member.py], [udt.py] and
    [typelib.py].  Python integers are [Z], tuples and lists are [list],
    [Optional] is [option], and a method that can raise returns a [result].
    Methods that update [self] return the updated object next to their
    value. *)

From Stdlib Require Import ZArith List String Bool Lia Permutation.
From Stdlib Require Import DecimalString.
Import ListNotations.
Open Scope string_scope.
Open Scope list_scope.
Open Scope Z_scope.
#[local] Set Warnings "-register-all".

(** ** Exceptions and the error monad *)

Inductive exn : Type :=
| ValueError
| AttributeError
| RuntimeError
| KeyError
| TypeError
| IndexError.

Inductive result (A : Type) : Type :=
| Ok (a : A)
| Raise (e : exn).

Arguments Ok {A} a.
Arguments Raise {A} e.

Definition bind {A B : Type} (c : result A) (k : A -> result B) : result B :=
  match c with
  | Ok a => k a
  | Raise e => Raise e
  end.

Declare Scope py_scope.
Notation "x <- c ;; k" := (bind c (fun x => k))
  (at level 61, c at next level, right associativity) : py_scope.
Open Scope py_scope.

(** ** Python builtins used by the sources *)

(** [range(start, stop)] *)
Definition py_range (start stop : Z) : list Z :=
  map (fun i => start + Z.of_nat i) (seq 0 (Z.to_nat (stop - start))).

(** [sum(...)] over integers *)
Definition py_sum (l : list Z) : Z := fold_left Z.add l 0.

(** [max(...)] over a generator: [ValueError] on an empty one *)
Definition py_max (l : list Z) : result Z :=
  match l with
  | [] => Raise ValueError
  | x :: rest => Ok (fold_left Z.max rest x)
  end.

(** [range(size)[::step]]: extended slice of a range, from the left end for
    a positive step, from the right end for a negative one; a zero step is a
    [ValueError]. *)
Definition py_range_step (size step : Z) : result (list Z) :=
  if step =? 0 then Raise ValueError
  else if size <=? 0 then Ok []
  else if 0 <? step then
    Ok (map (fun i => Z.of_nat i * step)
            (seq 0 (Z.to_nat ((size + step - 1) / step))))
  else
    Ok (map (fun i => size - 1 + Z.of_nat i * step)
            (seq 0 (Z.to_nat ((size - step - 1) / (- step))))).

(** [seq[-1]] *)
Definition py_last (l : list Z) : result Z :=
  match rev l with
  | [] => Raise IndexError
  | x :: _ => Ok x
  end.

(** [set(xs).issubset(ys)] *)
Definition issubset (xs ys : list Z) : bool :=
  forallb (fun x => existsb (Z.eqb x) ys) xs.

(** [==] on tuples of integers *)
Fixpoint tuple_eqb (xs ys : list Z) : bool :=
  match xs, ys with
  | [], [] => true
  | x :: xs', y :: ys' => (x =? y) && tuple_eqb xs' ys'
  | _, _ => false
  end.

(** [==] on [Optional[str]] *)
Definition name_eqb (a b : option string) : bool :=
  match a, b with
  | None, None => true
  | Some x, Some y => String.eqb x y
  | _, _ => false
  end.

(** ** The objects of the library: TypeInfo variants and Members

    One constructor per concrete class.  [TypeInfo] is the base class used
    for scalars.  [Struct] and [Union] carry the [size] attribute their
    [__init__] stores (and, for [Struct], [fix_bit] reassigns); [Field] and
    [Padding] carry theirs.  A layout is a tuple of objects, as in Python. *)

Inductive obj : Type :=
| TypeInfo (name : option string) (size : Z)
| Array (nelements element_size : Z) (element_type : string)
| Pointer (target_type_name : string)
| Void
| Disappear
| FunctionPointer (name : string)
| Padding (size : Z)
| Field (name type_name : string) (size : Z)
| Struct (name : option string) (layout : list obj) (size : Z)
| Union (name : option string) (members : list obj) (padding : option obj)
        (size : Z).

(** The [size] attribute: an instance attribute where [__init__] sets one, a
    class attribute for [Pointer] (8), [FunctionPointer] ([Pointer.size]),
    [Void] and [Disappear] (0). *)
Definition size_of (o : obj) : Z :=
  match o with
  | TypeInfo _ s => s
  | Array n es _ => es * n
  | Pointer _ => 8
  | Void => 0
  | Disappear => 0
  | FunctionPointer _ => 8
  | Padding s => s
  | Field _ _ s => s
  | Struct _ _ s => s
  | Union _ _ _ s => s
  end.

Definition isinstance_Field (o : obj) : bool :=
  match o with Field _ _ _ => true | _ => false end.

Definition isinstance_Padding (o : obj) : bool :=
  match o with Padding _ => true | _ => false end.

Definition isinstance_Struct (o : obj) : bool :=
  match o with Struct _ _ _ => true | _ => false end.

(** [isinstance(o, TypeInfo)]: every class but the two Members *)
Definition isinstance_TypeInfo (o : obj) : bool :=
  match o with Padding _ | Field _ _ _ => false | _ => true end.

(** [Struct.__init__] *)
Definition Struct_init (name : option string) (layout : list obj) : obj :=
  Struct name layout (py_sum (map size_of layout)).

(** [Union.__init__]: the size is 0 when [max] raises on no members; the
    padding size is then added. *)
Definition Union_init (name : option string) (members : list obj)
           (padding : option obj) : obj :=
  let size :=
    match py_max (map size_of members) with
    | Ok m => m
    | Raise _ => 0
    end in
  let size :=
    match padding with
    | Some p => size + size_of p
    | None => size
    end in
  Union name members padding size.

(** ** Offset algebra *)

(** [TypeInfo.accessible_offsets], inherited by every variant but the UDTs *)
Definition TypeInfo_accessible_offsets (self : obj) : list Z :=
  py_range 0 (size_of self).

Definition TypeInfo_inaccessible_offsets (self : obj) : list Z := [].

Definition TypeInfo_start_offsets (self : obj) : list Z := [0].

Definition Array_start_offsets (self : obj) (element_size : Z)
  : result (list Z) :=
  py_range_step (size_of self) element_size.

Definition Union_has_padding (padding : option obj) : bool :=
  match padding with Some _ => true | None => false end.

Definition Union_accessible_offsets (members : list obj) : result (list Z) :=
  m <- py_max (map size_of members) ;;
  Ok (py_range 0 m).

Definition Union_inaccessible_offsets (members : list obj)
           (padding : option obj) (size : Z) : result (list Z) :=
  if negb (Union_has_padding padding) then Ok []
  else
    m <- py_max (map size_of members) ;;
    Ok (py_range m size).

Definition Struct_has_padding (layout : list obj) : bool :=
  existsb isinstance_Padding layout.

(** The loop of [Struct.accessible_offsets]: [accessible] and
    [current_offset] are the loop variables. *)
Fixpoint Struct_accessible_loop (layout : list obj) (current_offset : Z)
         (accessible : list Z) : list Z :=
  match layout with
  | [] => accessible
  | m :: rest =>
      let next_offset := current_offset + size_of m in
      let accessible :=
        if isinstance_Field m
        then accessible ++ py_range current_offset next_offset
        else accessible in
      Struct_accessible_loop rest next_offset accessible
  end.

Definition Struct_accessible_offsets (layout : list obj) : list Z :=
  Struct_accessible_loop layout 0 [].

Fixpoint Struct_inaccessible_loop (layout : list obj) (current_offset : Z)
         (inaccessible : list Z) : list Z :=
  match layout with
  | [] => inaccessible
  | m :: rest =>
      let next_offset := current_offset + size_of m in
      let inaccessible :=
        if isinstance_Padding m
        then inaccessible ++ py_range current_offset next_offset
        else inaccessible in
      Struct_inaccessible_loop rest next_offset inaccessible
  end.

Definition Struct_inaccessible_offsets (layout : list obj) : list Z :=
  if negb (Struct_has_padding layout) then []
  else Struct_inaccessible_loop layout 0 [].

Fixpoint Struct_start_loop (layout : list obj) (current_offset : Z)
         (starts : list Z) : list Z :=
  match layout with
  | [] => starts
  | m :: rest =>
      let starts :=
        if isinstance_Field m then starts ++ [current_offset] else starts in
      Struct_start_loop rest (current_offset + size_of m) starts
  end.

Definition Struct_start_offsets (layout : list obj) : list Z :=
  Struct_start_loop layout 0 [].

(** Method dispatch.  A Member has none of the three methods. *)
Definition accessible_offsets (self : obj) : result (list Z) :=
  match self with
  | Padding _ | Field _ _ _ => Raise AttributeError
  | Struct _ layout _ => Ok (Struct_accessible_offsets layout)
  | Union _ members _ _ => Union_accessible_offsets members
  | _ => Ok (TypeInfo_accessible_offsets self)
  end.

Definition inaccessible_offsets (self : obj) : result (list Z) :=
  match self with
  | Padding _ | Field _ _ _ => Raise AttributeError
  | Struct _ layout _ => Ok (Struct_inaccessible_offsets layout)
  | Union _ members padding size =>
      Union_inaccessible_offsets members padding size
  | _ => Ok (TypeInfo_inaccessible_offsets self)
  end.

Definition start_offsets (self : obj) : result (list Z) :=
  match self with
  | Padding _ | Field _ _ _ => Raise AttributeError
  | Array _ element_size _ => Array_start_offsets self element_size
  | Struct _ layout _ => Ok (Struct_start_offsets layout)
  | _ => Ok (TypeInfo_start_offsets self)
  end.

(** The closure [displace] of [replacable_with] *)
Definition displace (cur_offset : Z) (offsets : list Z) : list Z :=
  map (fun off => off + cur_offset) offsets.

(** The loop of [TypeInfo.replacable_with].  [cur_offset] is set before the
    loop and the body does not assign it. *)
Fixpoint replacable_loop (others : list obj) (cur_offset : Z)
         (other_start other_accessible other_inaccessible : list Z)
  : result (list Z * list Z * list Z) :=
  match others with
  | [] => Ok (other_start, other_accessible, other_inaccessible)
  | other :: rest =>
      s <- start_offsets other ;;
      let other_start := other_start ++ displace cur_offset s in
      a <- accessible_offsets other ;;
      let other_accessible := other_accessible ++ displace cur_offset a in
      i <- inaccessible_offsets other ;;
      let other_inaccessible := other_inaccessible ++ displace cur_offset i in
      replacable_loop rest cur_offset
                      other_start other_accessible other_inaccessible
  end.

(** [TypeInfo.replacable_with]; the final [and] chain short-circuits. *)
Definition TypeInfo_replacable_with (self : obj) (others : list obj)
  : result bool :=
  if negb (size_of self =? py_sum (map size_of others)) then Ok false
  else
    let cur_offset := 0 in
    r <- replacable_loop others cur_offset [] [] [] ;;
    let '(other_start, other_accessible, other_inaccessible) := r in
    s <- start_offsets self ;;
    if negb (issubset s other_start) then Ok false
    else
      a <- accessible_offsets self ;;
      if negb (tuple_eqb a other_accessible) then Ok false
      else
        i <- inaccessible_offsets self ;;
        Ok (tuple_eqb i other_inaccessible).

Definition replacable_with (self : obj) (others : list obj) : result bool :=
  match self with
  | Padding _ | Field _ _ _ => Raise AttributeError
  | FunctionPointer _ => Ok false
  | _ => TypeInfo_replacable_with self others
  end.

(** ** Equality of objects: the [__eq__] methods

    Every class compares with its own class only.  [Field.__eq__] compares
    [name] and [type_name] and not [size]; [Struct.__eq__] compares [name]
    and [layout], [Union.__eq__] [name], [members] and [padding]; the stored
    [size] of a UDT takes no part. *)
Definition tuple_eq (eq : obj -> obj -> bool) : list obj -> list obj -> bool :=
  fix tuple_eq (xs ys : list obj) {struct xs} : bool :=
    match xs, ys with
    | [], [] => true
    | x :: xs', y :: ys' => eq x y && tuple_eq xs' ys'
    | _, _ => false
    end.

Fixpoint py_eq (a b : obj) {struct a} : bool :=
  match a, b with
  | TypeInfo n s, TypeInfo n' s' => name_eqb n n' && (s =? s')
  | Array n es et, Array n' es' et' =>
      (n =? n') && (es =? es') && String.eqb et et'
  | Pointer t, Pointer t' => String.eqb t t'
  | Void, Void => true
  | Disappear, Disappear => true
  | FunctionPointer n, FunctionPointer n' => String.eqb n n'
  | Padding s, Padding s' => s =? s'
  | Field n t _, Field n' t' _ => String.eqb n n' && String.eqb t t'
  | Struct n l _, Struct n' l' _ => name_eqb n n' && tuple_eq py_eq l l'
  | Union n m p _, Union n' m' p' _ =>
      name_eqb n n' && tuple_eq py_eq m m' &&
      match p, p' with
      | None, None => true
      | Some x, Some y => py_eq x y
      | _, _ => false
      end
  | _, _ => false
  end.

(** ** Entry: a NamedTuple [(frequency, typeinfo)] *)

Record Entry : Type := mkEntry { frequency : Z; typeinfo : obj }.

Module EntryM.

Definition eq (self other : Entry) : bool :=
  py_eq (typeinfo other) (typeinfo self).

Definition lt (self other : Entry) : bool :=
  frequency self <? frequency other.

Definition inc (self : Entry) (value : Z) : Entry :=
  mkEntry (frequency self + value) (typeinfo self).

(** [self != other]: the class defines no [__ne__], so this is the one of
    [tuple], which compares the two fields in turn with [==]. *)
Definition ne (self other : Entry) : bool :=
  negb ((frequency self =? frequency other) &&
        py_eq (typeinfo self) (typeinfo other)).

(** What an attribute of an [Entry] evaluates to *)
Inductive attr : Type :=
| AttrInt (z : Z)
| AttrObj (o : obj)
| AttrMethod (name : string).

(** [entry.<name>] for a public name: the two fields, the method [inc] of
    the class body and the two public tuple methods; any other public name
    is an [AttributeError].  Names starting with an underscore are outside
    this model. *)
Definition getattr (self : Entry) (name : string) : result attr :=
  if String.eqb name "frequency" then Ok (AttrInt (frequency self))
  else if String.eqb name "typeinfo" then Ok (AttrObj (typeinfo self))
  else if String.eqb name "inc" then Ok (AttrMethod name)
  else if String.eqb name "count" then Ok (AttrMethod name)
  else if String.eqb name "index" then Ok (AttrMethod name)
  else Raise AttributeError.

End EntryM.

(** ** ValueSortedDict (sortedcollections), keyed by TypeInfo, valued by Entry

    A dict over a sorted list of its keys (sortedcontainers' SortedKeyList),
    ordered by the values; entries compare by frequency ([Entry.__lt__]).
    The model keeps the values in iteration order; every value sits under
    the key [typeinfo] of that value up to [py_eq], which is all a lookup
    observes.  The list operations are those of a list sorted by
    frequency. *)
Module ValueSortedDict.

Definition t : Type := list Entry.

Definition get (d : t) (key : obj) : option Entry :=
  find (fun e => py_eq (typeinfo e) key) d.

Definition contains (d : t) (key : obj) : bool :=
  existsb (fun e => py_eq (typeinfo e) key) d.

(** The scan of [SortedKeyList.remove], from the bisect-left place of the
    value [old] the key has: a value that is [!=] to [old] ends the search
    with [ValueError]; otherwise the key found there is compared with the
    key to remove. *)
Fixpoint remove_scan (run : list Entry) (old : Entry) (key : obj)
  : result (list Entry) :=
  match run with
  | [] => Raise ValueError
  | e :: rest =>
      if EntryM.ne e old then Raise ValueError
      else if py_eq (typeinfo e) key then Ok rest
      else r <- remove_scan rest old key ;; Ok (e :: r)
  end.

(** [SortedKeyList.remove(key)]: bisect left to the first value that is not
    less than [old], then scan. *)
Fixpoint list_remove (d : t) (old : Entry) (key : obj) : result t :=
  match d with
  | [] => Raise ValueError
  | e :: rest =>
      if EntryM.lt e old then r <- list_remove rest old key ;; Ok (e :: r)
      else remove_scan d old key
  end.

(** [SortedKeyList.add]: bisect right, after the values that are not
    greater. *)
Fixpoint insort (d : t) (value : Entry) : t :=
  match d with
  | [] => [value]
  | e :: rest =>
      if EntryM.lt value e then value :: e :: rest
      else e :: insort rest value
  end.

(** [d[key] = value]: an existing key is first removed from the sorted list
    at the place of its present value, then the value is stored and the key
    added at its sorted place. *)
Definition setitem (d : t) (key : obj) (value : Entry) : result t :=
  if contains d key then
    match get d key with
    | Some old => d' <- list_remove d old key ;; Ok (insort d' value)
    | None => Raise KeyError
    end
  else Ok (insort d value).

(** A plain dict comprehension [{t.typeinfo: t for t in data}]: a repeated
    key keeps its first place and takes the last value. *)
Fixpoint plain_set (d : list Entry) (value : Entry) : list Entry :=
  match d with
  | [] => [value]
  | e :: rest =>
      if py_eq (typeinfo e) (typeinfo value) then value :: rest
      else e :: plain_set rest value
  end.

(** [ValueSortedDict(plain)]: the values sorted, stably, by frequency *)
Definition of_dict (plain : list Entry) : t :=
  fold_left insort plain [].

End ValueSortedDict.

(** ** EntryList *)
Module EntryList.

Record t : Type := mk { _data : ValueSortedDict.t }.

Definition _initialize_data (data : list Entry) (freq : Z)
  : ValueSortedDict.t :=
  ValueSortedDict.of_dict
    (fold_left ValueSortedDict.plain_set
               (filter (fun t => frequency t >=? freq) data) []).

(** [EntryList(data)]; [_initialize_data] is called with its default
    [freq = -1]. *)
Definition init (data : list Entry) : t := mk (_initialize_data data (-1)).

(** The property [frequency]: the total over the entries *)
Definition total_frequency (self : t) : Z :=
  py_sum (map frequency (_data self)).

(** [add_n]: the list as the call leaves it, and the returned value or the
    exception of [self._data[item] = entry] *)
Definition add_n (self : t) (item : obj) (n : Z) : t * result bool :=
  let entry :=
    EntryM.inc (match ValueSortedDict.get (_data self) item with
                | Some e => e
                | None => mkEntry 0 item
                end) n in
  match ValueSortedDict.setitem (_data self) item entry with
  | Ok d => (mk d, Ok true)
  | Raise e => (self, Raise e)
  end.

Definition add (self : t) (item : obj) : t * result bool := add_n self item 1.

Definition add_entry (self : t) (entry : Entry) : t * result bool :=
  add_n self (typeinfo entry) (frequency entry).

(** [__iter__]: the values in sorted order *)
Definition iter (self : t) : list Entry := _data self.

Fixpoint add_all_loop (self : t) (entries : list Entry) : t * result unit :=
  match entries with
  | [] => (self, Ok tt)
  | entry :: rest =>
      match add_entry self entry with
      | (self, Ok _) => add_all_loop self rest
      | (self, Raise e) => (self, Raise e)
      end
  end.

(** [add_all], for [other] another object than [self]: the loop runs over
    the values [other] holds, which the additions to [self] leave alone.
    (In [a.add_all(a)] the loop would run over the list that is being
    reordered; that call is not described here.) *)
Definition add_all (self other : t) : t * result unit :=
  add_all_loop self (iter other).

Definition get_freq (self : t) (item : obj) : result (option EntryM.attr) :=
  if ValueSortedDict.contains (_data self) item then
    match ValueSortedDict.get (_data self) item with
    | Some e => v <- EntryM.getattr e "freqency" ;; Ok (Some v)
    | None => Raise KeyError
    end
  else Ok None.

Definition len (self : t) : Z := Z.of_nat (List.length (_data self)).

Definition prune (self : t) (freq : Z) : t :=
  mk (_initialize_data (_data self) freq).

(** [__getitem__]: [self._data.peekitem(i)[1]], the value of rank [i] in the
    sorted order; a negative index counts from the end. *)
Definition getitem (self : t) (i : Z) : result Entry :=
  let idx := if i <? 0 then i + len self else i in
  if (idx <? 0) || (len self <=? idx) then Raise IndexError
  else
    match nth_error (_data self) (Z.to_nat idx) with
    | Some e => Ok e
    | None => Raise IndexError
    end.

End EntryList.

(** ** TypeLibABC: the corpus, a [defaultdict(EntryList)] from size to bucket

    The dict is kept in insertion order.  [cached_replacement_dict] is [None]
    until the attribute is set ([hasattr] is false). *)
Module TypeLibABC.

Definition shape : Type := (list Z * list Z)%type.

(** [defaultdict(set)] from shape to the set of types of that shape *)
Definition cache : Type := list (shape * list obj).

Definition replacement : Type := (list obj * list Z * list Z)%type.

Record t : Type := mk {
  _data : list (Z * EntryList.t);
  cached_replacement_dict : option cache
}.

(** [cls()] *)
Definition init : t := mk [] None.

Definition keys (self : t) : list Z := map fst (_data self).

Definition contains (self : t) (key : Z) : bool :=
  existsb (Z.eqb key) (keys self).

Fixpoint dict_set (d : list (Z * EntryList.t)) (key : Z)
         (item : EntryList.t) : list (Z * EntryList.t) :=
  match d with
  | [] => [(key, item)]
  | (k, v) :: rest =>
      if k =? key then (k, item) :: rest
      else (k, v) :: dict_set rest key item
  end.

(** [self[key].method(...)] for a method that updates the bucket and
    returns or raises; the defaultdict makes an empty [EntryList()] for a
    missing key. *)
Fixpoint dict_call {A : Type} (d : list (Z * EntryList.t)) (key : Z)
         (method : EntryList.t -> EntryList.t * result A)
  : list (Z * EntryList.t) * result A :=
  match d with
  | [] => let '(bucket, r) := method (EntryList.init []) in ([(key, bucket)], r)
  | (k, v) :: rest =>
      if k =? key then
        let '(bucket, r) := method v in ((k, bucket) :: rest, r)
      else
        let '(rest, r) := dict_call rest key method in ((k, v) :: rest, r)
  end.

Fixpoint dict_pop (d : list (Z * EntryList.t)) (key : Z)
  : list (Z * EntryList.t) :=
  match d with
  | [] => []
  | (k, v) :: rest => if k =? key then rest else (k, v) :: dict_pop rest key
  end.

(** [self[key] = item] *)
Definition setitem (self : t) (key : Z) (item : EntryList.t) : t :=
  mk (dict_set (_data self) key item) (cached_replacement_dict self).

(** [add_entry_list].  Under a new key the list object itself is stored;
    what the caller does to that object afterwards is not described. *)
Definition add_entry_list (self : t) (size : Z) (entries : EntryList.t)
  : t * result unit :=
  if contains self size then
    let '(d, r) :=
      dict_call (_data self) size
                (fun bucket => EntryList.add_all bucket entries) in
    (mk d (cached_replacement_dict self), r)
  else (setitem self size entries, Ok tt).

Definition add (self : t) (typ : obj) : t * result unit :=
  let entry := EntryList.init [] in
  match EntryList.add entry typ with
  | (entry, Ok _) => add_entry_list self (size_of typ) entry
  | (_, Raise e) => (self, Raise e)
  end.

(** [fix_bit] on an object none of whose parts occurs twice in it, as a
    function of values: the success flag and the Struct as the call leaves
    it.  [typ.layout] exists on a Struct only.  [fix_bit_layout] is the
    [for] loop, with [break] at the first Field that fails.  The
    assignments themselves, on objects that may be shared, are in [InPlace]
    below. *)
Definition fix_bit_layout (fix_bit : obj -> result (bool * obj))
  : list obj -> bool -> result (bool * list obj) :=
  fix loop (layout : list obj) (succeed : bool) {struct layout}
    : result (bool * list obj) :=
    match layout with
    | [] => Ok (succeed, [])
    | m :: rest =>
        match m with
        | Field n tn s =>
            let succeed := succeed && (s mod 8 =? 0) in
            if negb succeed then Ok (succeed, m :: rest)
            else
              r <- loop rest succeed ;;
              Ok (fst r, Field n tn (s / 8) :: snd r)
        | Struct _ _ _ =>
            r <- fix_bit m ;;
            let succeed := succeed && fst r in
            r' <- loop rest succeed ;;
            Ok (fst r', snd r :: snd r')
        | _ =>
            r <- loop rest succeed ;;
            Ok (fst r, m :: snd r)
        end
    end.

Fixpoint fix_bit (typ : obj) : result (bool * obj) :=
  match typ with
  | Struct name layout _ =>
      r <- fix_bit_layout fix_bit layout true ;;
      Ok (fst r, Struct name (snd r) (py_sum (map size_of (snd r))))
  | _ => Raise AttributeError
  end.

(** The second loop of [prune], over [self._data.items()].  The iterator
    keeps the number of keys the dict had when it was made ([di_used]);
    each step first compares it with the present number and raises
    [RuntimeError] when they differ. *)
Fixpoint prune_items_loop (di_used : nat) (pending : list (Z * EntryList.t))
         (data : list (Z * EntryList.t))
  : list (Z * EntryList.t) * result unit :=
  if negb (Nat.eqb di_used (List.length data)) then (data, Raise RuntimeError)
  else
    match pending with
    | [] => (data, Ok tt)
    | (key, entry) :: rest =>
        if EntryList.len entry =? 0
        then prune_items_loop di_used rest (dict_pop data key)
        else prune_items_loop di_used rest data
    end.

(** [prune]: the library as the call leaves it, and how the call ends *)
Definition prune (self : t) (freq : Z) : t * result unit :=
  let data :=
    map (fun kv => (fst kv, EntryList.prune (snd kv) freq)) (_data self) in
  let '(data, r) := prune_items_loop (List.length data) data data in
  (mk data (cached_replacement_dict self), r).

Definition shape_eqb (a b : shape) : bool :=
  tuple_eqb (fst a) (fst b) && tuple_eqb (snd a) (snd b).

Definition set_add (s : list obj) (x : obj) : list obj :=
  if existsb (py_eq x) s then s else s ++ [x].

(** [cache[key].add(typ)] *)
Fixpoint cache_add (c : cache) (key : shape) (typ : obj) : cache :=
  match c with
  | [] => [(key, [typ])]
  | (k, s) :: rest =>
      if shape_eqb k key then (k, set_add s typ) :: rest
      else (k, s) :: cache_add rest key typ
  end.

(** [cache[key]]: a missing key is entered with an empty set *)
Definition cache_getitem (c : cache) (key : shape) : list obj * cache :=
  match find (fun ks => shape_eqb (fst ks) key) c with
  | Some ks => (snd ks, c)
  | None => ([], c ++ [(key, [])])
  end.

Fixpoint cache_bucket (entries : list Entry) (c : cache)
  : cache * result unit :=
  match entries with
  | [] => (c, Ok tt)
  | entry :: rest =>
      match accessible_offsets (typeinfo entry) with
      | Raise e => (c, Raise e)
      | Ok a =>
          match start_offsets (typeinfo entry) with
          | Raise e => (c, Raise e)
          | Ok s => cache_bucket rest (cache_add c (a, s) (typeinfo entry))
          end
      end
  end.

Fixpoint cache_buckets (data : list (Z * EntryList.t)) (c : cache)
  : cache * result unit :=
  match data with
  | [] => (c, Ok tt)
  | (size, bucket) :: rest =>
      if size >? 1024 then cache_buckets rest c
      else
        match cache_bucket (EntryList.iter bucket) c with
        | (c, Ok _) => cache_buckets rest c
        | (c, Raise e) => (c, Raise e)
        end
  end.

Definition make_cached_replacement_dict (self : t) : t * result unit :=
  let '(c, r) := cache_buckets (_data self) [] in
  (mk (_data self) (Some c), r).

(** The loop of [get_next_replacements] over the admitted sizes *)
Fixpoint replacements_loop (sizes : list Z) (accessible start_offsets : list Z)
         (start : Z) (c : cache) (replacements : list replacement)
  : cache * list replacement :=
  match sizes with
  | [] => (c, replacements)
  | size :: rest =>
      let rest_accessible :=
        filter (fun s => s >=? size + start) accessible in
      let rest_start :=
        filter (fun s => s >=? size + start) start_offsets in
      let misaligned :=
        match rest_start, rest_accessible with
        | [], _ => false
        | _ :: _, [] => true
        | s0 :: _, a0 :: _ => negb (s0 =? a0)
        end in
      let unexplained :=
        match rest_start, rest_accessible with
        | [], _ :: _ => true
        | _, _ => false
        end in
      if misaligned then
        replacements_loop rest accessible start_offsets start c replacements
      else if unexplained then
        replacements_loop rest accessible start_offsets start c replacements
      else
        let shifted_cur_accessible :=
          map (fun s => s - start)
              (filter (fun s => s <? size + start) accessible) in
        let shifted_cur_start :=
          map (fun s => s - start)
              (filter (fun s => s <? size + start) start_offsets) in
        let '(typs, c) :=
          cache_getitem c (shifted_cur_accessible, shifted_cur_start) in
        replacements_loop rest accessible start_offsets start c
          (replacements ++ [(typs, rest_accessible, rest_start)])
  end.

Definition get_next_replacements (self : t)
           (accessible start_offsets : list Z)
  : t * result (list replacement) :=
  let '(self, built) :=
    match cached_replacement_dict self with
    | None => make_cached_replacement_dict self
    | Some _ => (self, Ok tt)
    end in
  match built, cached_replacement_dict self with
  | Raise e, _ => (self, Raise e)
  | Ok _, None => (self, Raise AttributeError)
  | Ok _, Some c =>
      match accessible, start_offsets with
      | [], _ => (self, Raise IndexError)
      | _ :: _, [] => (self, Raise IndexError)
      | start :: _, s0 :: _ =>
          if negb (start =? s0) then (self, Ok [])
          else
            match py_last accessible with
            | Raise e => (self, Raise e)
            | Ok last_accessible =>
                let length := (last_accessible - start) + 1 in
                let sizes :=
                  filter (fun s => (s <=? length) && negb (s =? 0))
                         (keys self) in
                let '(c, replacements) :=
                  replacements_loop sizes accessible start_offsets start c
                                    [] in
                (mk (_data self) (Some c), Ok replacements)
            end
      end
  end.

(** [valid_layout_for_types]: the library as the calls leave its cache, and
    the answer.  The first candidate whose set holds [typ] is taken. *)
Fixpoint valid_layout_for_types (self : t) (rest_a rest_s : list Z)
         (typs : list obj) : t * result bool :=
  match typs with
  | [] => (self, Ok true)
  | typ :: typs' =>
      match rest_a with
      | [] => (self, Ok false)
      | _ :: _ =>
          match get_next_replacements self rest_a rest_s with
          | (self, Raise e) => (self, Raise e)
          | (self, Ok ret) =>
              match find (fun r => existsb (fun x => py_eq x typ)
                                           (fst (fst r))) ret with
              | Some (_, a, s) => valid_layout_for_types self a s typs'
              | None => (self, Ok false)
              end
          end
      end
  end.

(** [accessible_of_types] *)
Fixpoint accessible_of_types_loop (types : list obj) (offset : Z)
         (accessible : list Z) : result (list Z) :=
  match types with
  | [] => Ok accessible
  | t :: rest =>
      a <- accessible_offsets t ;;
      accessible_of_types_loop rest (offset + size_of t)
        (accessible ++ map (fun a => offset + a) a)
  end.

Definition accessible_of_types (types : list obj) : result (list Z) :=
  accessible_of_types_loop types 0 [].

(** [start_offsets_of_types] *)
Fixpoint start_offsets_of_types_loop (types : list obj) (offset : Z)
         (starts : list Z) : result (list Z) :=
  match types with
  | [] => Ok starts
  | t :: rest =>
      s <- start_offsets t ;;
      start_offsets_of_types_loop rest (offset + size_of t)
        (starts ++ map (fun s => offset + s) s)
  end.

Definition start_offsets_of_types (types : list obj) : result (list Z) :=
  start_offsets_of_types_loop types 0 [].

End TypeLibABC.

(** ** Objects with identity: [fix_bit] and [fix] in place

    [fix_bit] assigns [m.size] and [typ.size] on the objects it is given,
    and [fix] puts these same objects into the library it returns.  What a
    call leaves behind depends on which places hold one and the same object.
    In this module a Field and a Struct are written with the address of the
    object in the place where the value has its size: [Field n t a] is the
    Field object at address [a], [Struct n layout a] the Struct object at
    [a], and the [size] attribute of the object at [a] is [s a] in the store
    [s].  Two occurrences of one address are one object.  The other objects
    (the scalars, Padding, Union) keep their size in the term: no code
    assigns it.  [__eq__] and [__hash__] read no size of a Field or of a
    Struct, so [py_eq] and the operations of EntryList and TypeLibABC are the
    same on such references, and a library of references is a
    [TypeLibABC.t]. *)
Module InPlace.

Definition store : Type := Z -> Z.

(** [obj.size = v], for the object at address [a] *)
Definition assign (s : store) (a v : Z) : store :=
  fun x => if x =? a then v else s x.

(** The store that holds the listed sizes, [(address, size)] *)
Definition store_of (sizes : list (Z * Z)) : store :=
  fun a => match find (fun av => fst av =? a) sizes with
           | Some av => snd av
           | None => 0
           end.

(** [m.size] *)
Definition size_in (s : store) (m : obj) : Z :=
  match m with
  | Field _ _ a | Struct _ _ a => s a
  | _ => size_of m
  end.

(** The object a reference stands for, with the sizes the store holds *)
Fixpoint value (s : store) (r : obj) : obj :=
  match r with
  | Field n t a => Field n t (s a)
  | Struct n layout a => Struct n (map (value s) layout) (s a)
  | Union n members padding size =>
      Union n (map (value s) members)
            (match padding with Some p => Some (value s p) | None => None end)
            size
  | _ => r
  end.

(** The addresses of the Field and Struct objects of a reference, one for
    each occurrence *)
Fixpoint addresses (r : obj) : list Z :=
  match r with
  | Field _ _ a => [a]
  | Struct _ layout a => a :: flat_map addresses layout
  | Union _ members padding _ =>
      flat_map addresses members ++
      match padding with Some p => addresses p | None => [] end
  | _ => []
  end.

(** [fix_bit]: the success flag and the store as the call leaves it.
    [fix_bit_layout] is the [for] loop, with [break] at the first Field that
    fails; [succeed &= cls.fix_bit(m)] calls [fix_bit] whatever [succeed]
    is. *)
Definition fix_bit_layout (fix_bit : store -> obj -> result (bool * store))
  : store -> list obj -> bool -> result (bool * store) :=
  fix loop (s : store) (layout : list obj) (succeed : bool) {struct layout}
    : result (bool * store) :=
    match layout with
    | [] => Ok (succeed, s)
    | m :: rest =>
        match m with
        | Field _ _ a =>
            let succeed := succeed && (s a mod 8 =? 0) in
            if negb succeed then Ok (succeed, s)
            else loop (assign s a (s a / 8)) rest succeed
        | Struct _ _ _ =>
            r <- fix_bit s m ;;
            loop (snd r) rest (succeed && fst r)
        | _ => loop s rest succeed
        end
    end.

Fixpoint fix_bit (s : store) (typ : obj) {struct typ}
  : result (bool * store) :=
  match typ with
  | Struct _ layout a =>
      r <- fix_bit_layout fix_bit s layout true ;;
      Ok (fst r, assign (snd r) a (py_sum (map (size_in (snd r)) layout)))
  | _ => Raise AttributeError
  end.

(** The end of the loop body of [fix]: the bucket of [nsize] is made if the
    new library has none, and the entry is added to it. *)
Definition fix_keep (new_lib : TypeLibABC.t) (nsize : Z) (entry : Entry)
  : result TypeLibABC.t :=
  match (if negb (TypeLibABC.contains new_lib nsize)
         then TypeLibABC.add_entry_list new_lib nsize (EntryList.init [])
         else (new_lib, Ok tt)) with
  | (_, Raise e) => Raise e
  | (new_lib, Ok _) =>
      match TypeLibABC.dict_call
              (TypeLibABC._data new_lib) nsize
              (fun bucket => EntryList.add_entry bucket entry) with
      | (d, Ok _) =>
          Ok (TypeLibABC.mk d (TypeLibABC.cached_replacement_dict new_lib))
      | (_, Raise e) => Raise e
      end
  end.

(** The body of the inner loop of [fix] for one entry of the bucket [size]:
    the store afterwards, and the new library or the exception that ends the
    call. *)
Definition fix_entry (s : store) (size : Z) (entry : Entry)
           (new_lib : TypeLibABC.t) : store * result TypeLibABC.t :=
  match (if isinstance_Struct (typeinfo entry) then
           r <- fix_bit s (typeinfo entry) ;;
           Ok (fst r, snd r, size_in (snd r) (typeinfo entry))
         else Ok (true, s, size)) with
  | Raise e => (s, Raise e)
  | Ok (succeed, s, nsize) =>
      if succeed then (s, fix_keep new_lib nsize entry)
      else (s, Ok new_lib)
  end.

Fixpoint fix_bucket (s : store) (size : Z) (entries : list Entry)
         (new_lib : TypeLibABC.t) : store * result TypeLibABC.t :=
  match entries with
  | [] => (s, Ok new_lib)
  | entry :: rest =>
      match fix_entry s size entry new_lib with
      | (s, Ok new_lib) => fix_bucket s size rest new_lib
      | (s, Raise e) => (s, Raise e)
      end
  end.

Fixpoint fix_buckets (s : store) (data : list (Z * EntryList.t))
         (new_lib : TypeLibABC.t) : store * result TypeLibABC.t :=
  match data with
  | [] => (s, Ok new_lib)
  | (size, bucket) :: rest =>
      match fix_bucket s size (EntryList.iter bucket) new_lib with
      | (s, Ok new_lib) => fix_buckets s rest new_lib
      | (s, Raise e) => (s, Raise e)
      end
  end.

(** [fix] (the name is reserved here, hence [fix_]): the store as the call
    leaves it, and the library it returns.  The receiver holds the
    references it held; what they stand for is read in the store. *)
Definition fix_ (s : store) (self : TypeLibABC.t)
  : store * result TypeLibABC.t :=
  fix_buckets s (TypeLibABC._data self) TypeLibABC.init.

End InPlace.

(** ** TypeLibCodec

    [dumps] writes a JSON text and [loads] parses one; the model works on the
    tree of that text.  The trees are those the encoder can emit: null,
    integers, strings, arrays and objects. *)
Module TypeLibCodec.

Inductive json : Type :=
| JNull
| JInt (z : Z)
| JStr (s : string)
| JList (items : list json)
| JObj (members : list (string * json)).

Inductive CodecTypes : Type :=
| CTypeLib (lib : TypeLibABC.t)
| CEntryList (entries : EntryList.t)
| CObj (o : obj).

Definition json_of_name (name : option string) : json :=
  match name with
  | None => JNull
  | Some s => JStr s
  end.

(** The [_to_json] method of each TypeInfo and Member class, with the
    objects it leaves inside its dict encoded in turn by
    [_Encoder.default]. *)
Fixpoint obj_to_json (o : obj) : json :=
  match o with
  | TypeInfo name size =>
      JObj [("T", JInt 1); ("n", json_of_name name); ("s", JInt size)]
  | Array nelements element_size element_type =>
      JObj [("T", JInt 2); ("n", JInt nelements); ("s", JInt element_size);
            ("t", JStr element_type)]
  | Pointer target_type_name =>
      JObj [("T", JInt 3); ("t", JStr target_type_name)]
  | Void => JObj [("T", JInt 8)]
  | Disappear => JObj [("T", JInt 10)]
  | FunctionPointer name => JObj [("T", JInt 9); ("n", JStr name)]
  | Padding size => JObj [("T", JInt 5); ("s", JInt size)]
  | Field name type_name size =>
      JObj [("T", JInt 4); ("n", JStr name); ("t", JStr type_name);
            ("s", JInt size)]
  | Struct name layout _ =>
      JObj [("T", JInt 6); ("n", json_of_name name);
            ("l", JList (map obj_to_json layout))]
  | Union name members padding _ =>
      JObj [("T", JInt 8); ("n", json_of_name name);
            ("m", JList (map obj_to_json members));
            ("p", match padding with
                  | None => JNull
                  | Some p => obj_to_json p
                  end)]
  end.

(** [EntryList._to_json] returns the ValueSortedDict itself, a dict whose
    keys are TypeInfo objects; the JSON encoder writes an empty dict as an
    empty object and raises [TypeError] on a key that is not a string or a
    number. *)
Definition EntryList_to_json (self : EntryList.t) : result json :=
  match EntryList._data self with
  | [] => Ok (JObj [])
  | _ :: _ => Raise TypeError
  end.

(** [str(key)] for an integer key *)
Definition str (z : Z) : string :=
  DecimalString.NilZero.string_of_int (Z.to_int z).

(** [int(key)] on a string of ASCII characters: white space around the
    number is dropped, one sign may come first, and the decimal digits may
    be grouped by single underscores; any other string is a [ValueError]. *)
Definition code (c : Ascii.ascii) : Z := Z.of_N (Ascii.N_of_ascii c).

Definition is_space (c : Ascii.ascii) : bool :=
  ((9 <=? code c) && (code c <=? 13)) || ((28 <=? code c) && (code c <=? 32)).

Definition digit_of (c : Ascii.ascii) : option Z :=
  if (48 <=? code c) && (code c <=? 57) then Some (code c - 48) else None.

Fixpoint lstrip (s : string) : string :=
  match s with
  | String c rest => if is_space c then lstrip rest else s
  | EmptyString => s
  end.

Fixpoint rstrip (s : string) : string :=
  match s with
  | String c rest =>
      match rstrip rest with
      | EmptyString => if is_space c then EmptyString
                       else String c EmptyString
      | r => String c r
      end
  | EmptyString => s
  end.

(** The digits after the sign: [after_digit] tells that the character
    before was a digit, which an underscore (code 95) and the end both
    need. *)
Fixpoint digits (s : string) (acc : Z) (after_digit : bool) : option Z :=
  match s with
  | EmptyString => if after_digit then Some acc else None
  | String c rest =>
      match digit_of c with
      | Some d => digits rest (10 * acc + d) true
      | None =>
          if (code c =? 95) && after_digit then digits rest acc false
          else None
      end
  end.

(** The sign is [-] (code 45) or [+] (code 43). *)
Definition int (s : string) : result Z :=
  let parsed :=
    match lstrip (rstrip s) with
    | String c rest =>
        if code c =? 45 then option_map Z.opp (digits rest 0 false)
        else if code c =? 43 then digits rest 0 false
        else digits (String c rest) 0 false
    | EmptyString => None
    end in
  match parsed with
  | Some z => Ok z
  | None => Raise ValueError
  end.

Fixpoint TypeLib_buckets_to_json (data : list (Z * EntryList.t))
  : result (list (string * json)) :=
  match data with
  | [] => Ok []
  | (key, val) :: rest =>
      j <- EntryList_to_json val ;;
      js <- TypeLib_buckets_to_json rest ;;
      Ok ((str key, j) :: js)
  end.

(** [TypeLibABC._to_json], its buckets then encoded in turn *)
Definition TypeLib_to_json (self : TypeLibABC.t) : result json :=
  encoded <- TypeLib_buckets_to_json (TypeLibABC._data self) ;;
  Ok (JObj (encoded ++ [("T", JInt 0)])).

Definition encode (o : CodecTypes) : result json :=
  match o with
  | CTypeLib lib => TypeLib_to_json lib
  | CEntryList entries => EntryList_to_json entries
  | CObj x => Ok (obj_to_json x)
  end.

(** Python values a decoded document is made of *)
Inductive pyval : Type :=
| PNone
| PInt (z : Z)
| PStr (s : string)
| PList (items : list pyval)
| PObj (o : obj)
| PLib (lib : TypeLibABC.t).

Definition pydict : Type := list (string * pyval).

Fixpoint pydict_set (d : pydict) (key : string) (v : pyval) : pydict :=
  match d with
  | [] => [(key, v)]
  | (k, x) :: rest =>
      if String.eqb k key then (k, v) :: rest
      else (k, x) :: pydict_set rest key v
  end.

(** [d[key]] *)
Definition getitem (d : pydict) (key : string) : result pyval :=
  match find (fun kv => String.eqb (fst kv) key) d with
  | Some kv => Ok (snd kv)
  | None => Raise KeyError
  end.

(** The embedding is typed: a decoded value of another Python type than
    the constructor's parameter is reported as [TypeError]. *)
Definition as_name (v : pyval) : result (option string) :=
  match v with
  | PNone => Ok None
  | PStr s => Ok (Some s)
  | _ => Raise TypeError
  end.

Definition as_str (v : pyval) : result string :=
  match v with
  | PStr s => Ok s
  | _ => Raise TypeError
  end.

Definition as_int (v : pyval) : result Z :=
  match v with
  | PInt z => Ok z
  | _ => Raise TypeError
  end.

Fixpoint as_objs_list (items : list pyval) : result (list obj) :=
  match items with
  | [] => Ok []
  | PObj o :: rest => os <- as_objs_list rest ;; Ok (o :: os)
  | _ :: _ => Raise TypeError
  end.

Definition as_objs (v : pyval) : result (list obj) :=
  match v with
  | PList items => as_objs_list items
  | _ => Raise TypeError
  end.

Definition as_optional_obj (v : pyval) : result (option obj) :=
  match v with
  | PNone => Ok None
  | PObj o => Ok (Some o)
  | _ => Raise TypeError
  end.

(** [[Entry(frequency=f, typeinfo=ti) for (f, ti) in lib_entry]], then
    [EntryList(entry_list)].

    [iterate] is the iteration over [lib_entry]: a list gives its items, a
    string its characters, a library its keys; another value is not iterable
    ([TypeError]).  [unpack] is [(f, ti) = item]: it needs an iterable of
    exactly two items ([ValueError] otherwise).  All the items are unpacked
    before [EntryList] reads the first. *)
Definition characters (s : string) : list pyval :=
  map (fun c => PStr (String c EmptyString)) (list_ascii_of_string s).

Definition iterate (v : pyval) : result (list pyval) :=
  match v with
  | PList items => Ok items
  | PStr s => Ok (characters s)
  | PLib l => Ok (map PInt (TypeLibABC.keys l))
  | _ => Raise TypeError
  end.

Definition unpack (item : pyval) : result (pyval * pyval) :=
  items <- iterate item ;;
  match items with
  | [f; ti] => Ok (f, ti)
  | _ => Raise ValueError
  end.

Fixpoint unpack_all (items : list pyval) : result (list (pyval * pyval)) :=
  match items with
  | [] => Ok []
  | item :: rest =>
      p <- unpack item ;;
      ps <- unpack_all rest ;;
      Ok (p :: ps)
  end.

(** [EntryList(entry_list)] reads [t.frequency >= -1] of each entry, a
    [TypeError] for a frequency that is no number, and makes the type of
    the entries it keeps a dict key.  An Entry of the embedding holds a type
    object; a kept entry whose decoded type is none is reported as
    [TypeError]: the embedding is typed. *)
Fixpoint entries_of_pairs (pairs : list (pyval * pyval))
  : result (list Entry) :=
  match pairs with
  | [] => Ok []
  | (PInt f, ti) :: rest =>
      if f >=? -1 then
        match ti with
        | PObj o => es <- entries_of_pairs rest ;; Ok (mkEntry f o :: es)
        | _ => Raise TypeError
        end
      else entries_of_pairs rest
  | _ :: _ => Raise TypeError
  end.

Definition as_entries (v : pyval) : result (list Entry) :=
  items <- iterate v ;;
  pairs <- unpack_all items ;;
  entries_of_pairs pairs.

(** The classes of the registry *)
Inductive class : Type :=
| cEntryList
| cTypelessTypeLib
| cTypeInfo
| cArray
| cPointer
| cField
| cPadding
| cStruct
| cUnion
| cVoid
| cFunctionPointer
| cDisappear.

Inductive key : Type :=
| KStr (s : string)
| KInt (z : Z).

Definition key_eqb (a b : key) : bool :=
  match a, b with
  | KStr x, KStr y => String.eqb x y
  | KInt x, KInt y => x =? y
  | _, _ => false
  end.

Definition _typelib_key : Z := 0.

Definition _classes : list (key * class) :=
  [ (KStr "E", cEntryList);
    (KInt _typelib_key, cTypelessTypeLib);
    (KInt 1, cTypeInfo);
    (KInt 2, cArray);
    (KInt 3, cPointer);
    (KInt 4, cField);
    (KInt 5, cPadding);
    (KInt 6, cStruct);
    (KInt 7, cUnion);
    (KInt 8, cVoid);
    (KInt 9, cFunctionPointer);
    (KInt 10, cDisappear) ].

(** [_classes[tag]]: a list is unhashable, another value is a missing key *)
Definition classes_getitem (tag : pyval) : result class :=
  match tag with
  | PList _ => Raise TypeError
  | PInt z =>
      match find (fun kc => key_eqb (fst kc) (KInt z)) _classes with
      | Some kc => Ok (snd kc)
      | None => Raise KeyError
      end
  | PStr s =>
      match find (fun kc => key_eqb (fst kc) (KStr s)) _classes with
      | Some kc => Ok (snd kc)
      | None => Raise KeyError
      end
  | _ => Raise KeyError
  end.

(** The loop of [TypeLibABC._from_json] *)
Fixpoint TypeLib_from_items (items : pydict) (data : list (Z * EntryList.t))
  : result (list (Z * EntryList.t)) :=
  match items with
  | [] => Ok data
  | (k, lib_entry) :: rest =>
      if String.eqb k "T" then TypeLib_from_items rest data
      else
        entry_list <- as_entries lib_entry ;;
        size <- int k ;;
        TypeLib_from_items rest
          (TypeLibABC.dict_set data size (EntryList.init entry_list))
  end.

(** The [_from_json] class method of each class; [EntryList] has none. *)
Definition from_json (c : class) (d : pydict) : result pyval :=
  match c with
  | cEntryList => Raise AttributeError
  | cTypelessTypeLib =>
      data <- TypeLib_from_items d [] ;;
      Ok (PLib (TypeLibABC.mk data None))
  | cTypeInfo =>
      n <- getitem d "n" ;; s <- getitem d "s" ;;
      name <- as_name n ;; size <- as_int s ;;
      Ok (PObj (TypeInfo name size))
  | cArray =>
      n <- getitem d "n" ;; s <- getitem d "s" ;; t <- getitem d "t" ;;
      nelements <- as_int n ;; element_size <- as_int s ;;
      element_type <- as_str t ;;
      Ok (PObj (Array nelements element_size element_type))
  | cPointer =>
      t <- getitem d "t" ;; target <- as_str t ;;
      Ok (PObj (Pointer target))
  | cField =>
      n <- getitem d "n" ;; t <- getitem d "t" ;; s <- getitem d "s" ;;
      name <- as_str n ;; type_name <- as_str t ;; size <- as_int s ;;
      Ok (PObj (Field name type_name size))
  | cPadding =>
      s <- getitem d "s" ;; size <- as_int s ;;
      Ok (PObj (Padding size))
  | cStruct =>
      n <- getitem d "n" ;; l <- getitem d "l" ;;
      name <- as_name n ;; layout <- as_objs l ;;
      Ok (PObj (Struct_init name layout))
  | cUnion =>
      n <- getitem d "n" ;; m <- getitem d "m" ;; p <- getitem d "p" ;;
      name <- as_name n ;; members <- as_objs m ;;
      padding <- as_optional_obj p ;;
      Ok (PObj (Union_init name members padding))
  | cVoid => Ok (PObj Void)
  | cFunctionPointer =>
      n <- getitem d "n" ;; name <- as_str n ;;
      Ok (PObj (FunctionPointer name))
  | cDisappear => Ok (PObj Disappear)
  end.

(** [read_metadata], the object hook *)
Definition read_metadata (d : pydict) : result pyval :=
  tag <- getitem d "T" ;;
  c <- classes_getitem tag ;;
  from_json c d.

(** [decode]: [loads] with [read_metadata] applied to every JSON object
    once its members are decoded. *)
Definition decode_items (decode : json -> result pyval)
  : list json -> result (list pyval) :=
  fix decode_items (items : list json) : result (list pyval) :=
    match items with
    | [] => Ok []
    | x :: rest =>
        v <- decode x ;;
        vs <- decode_items rest ;;
        Ok (v :: vs)
    end.

Definition decode_members (decode : json -> result pyval)
  : list (string * json) -> pydict -> result pydict :=
  fix decode_members (members : list (string * json)) (d : pydict)
    : result pydict :=
    match members with
    | [] => Ok d
    | (k, x) :: rest =>
        v <- decode x ;;
        decode_members rest (pydict_set d k v)
    end.

Fixpoint decode (encoded : json) : result pyval :=
  match encoded with
  | JNull => Ok PNone
  | JInt z => Ok (PInt z)
  | JStr s => Ok (PStr s)
  | JList items =>
      vs <- decode_items decode items ;;
      Ok (PList vs)
  | JObj members =>
      d <- decode_members decode members [] ;;
      read_metadata d
  end.

(** [==] between a decoded value and the value that was encoded.  A
    TypeLib and an EntryList define no [__eq__]; for them the comparison
    is taken bucket by bucket and entry by entry, with [py_eq] on the types
    and equal frequencies. *)
Definition entries_eqb (a b : list Entry) : bool :=
  (Nat.eqb (List.length a) (List.length b)) &&
  forallb (fun p => (frequency (fst p) =? frequency (snd p)) &&
                    py_eq (typeinfo (fst p)) (typeinfo (snd p)))
          (combine a b).

Definition structurally_equal (v : pyval) (x : CodecTypes) : bool :=
  match v, x with
  | PObj o, CObj o' => py_eq o o'
  | PLib l, CTypeLib l' =>
      (Nat.eqb (List.length (TypeLibABC._data l))
               (List.length (TypeLibABC._data l'))) &&
      forallb (fun p => (fst (fst p) =? fst (snd p)) &&
                        entries_eqb (EntryList._data (snd (fst p)))
                                    (EntryList._data (snd (snd p))))
              (combine (TypeLibABC._data l) (TypeLibABC._data l'))
  | _, _ => false
  end.

(** [decode(encode(x)) == x] *)
Definition round_trips (x : CodecTypes) : bool :=
  match encode x with
  | Ok j =>
      match decode j with
      | Ok v => structurally_equal v x
      | Raise _ => false
      end
  | Raise _ => false
  end.

End TypeLibCodec.

(** ** Statements the properties are phrased with *)

(** The accessible and the inaccessible offsets of [t] together are exactly
    the offsets [0 .. size-1], and no offset is in both. *)
Definition offsets_partition (t : obj) : Prop :=
  exists acc inacc,
    accessible_offsets t = Ok acc /\
    inaccessible_offsets t = Ok inacc /\
    Permutation (acc ++ inacc) (py_range 0 (size_of t)) /\
    (forall x, In x acc -> ~ In x inacc).

(** A layout element that the offset methods of [Struct] classify: a Field
    or a Padding, of a size that is not negative. *)
Definition member_ok (m : obj) : bool :=
  (isinstance_Field m || isinstance_Padding m) && (0 <=? size_of m).

(** The TypeInfo values built by the constructors whose layout is flat: any
    variant that is not a UDT; a Struct of Fields and Paddings; a Union with
    at least one member (sizes not negative). *)
Definition flat_layout (t : obj) : bool :=
  match t with
  | Padding _ | Field _ _ _ => false
  | Struct _ layout size =>
      (size =? py_sum (map size_of layout)) && forallb member_ok layout
  | Union name members padding size =>
      match members with [] => false | _ :: _ => true end &&
      forallb (fun m => 0 <=? size_of m) members &&
      match padding with Some p => 0 <=? size_of p | None => true end &&
      (size =? size_of (Union_init name members padding))
  | _ => true
  end.

(** What [fix] leaves of an entry of the receiver: a Struct as [fix_bit]
    leaves it, any other type as it was. *)
Definition fixed_entry (e : Entry) : Entry :=
  mkEntry (frequency e)
          (match TypeLibABC.fix_bit (typeinfo e) with
           | Ok r => snd r
           | Raise _ => typeinfo e
           end).

(** The flag [succeed] of [fix] for an entry *)
Definition fix_succeeds (e : Entry) : bool :=
  match TypeLibABC.fix_bit (typeinfo e) with
  | Ok r => fst r
  | Raise _ => true
  end.

(** The member sizes and the total size a type stores *)
Definition stored_sizes (t : obj) : list Z * Z :=
  match t with
  | Struct _ layout size => (map size_of layout, size)
  | Union _ members _ size => (map size_of members, size)
  | _ => ([], size_of t)
  end.

(** The keys of a ValueSortedDict are distinct: no value has the type of a
    later one, up to [py_eq]. *)
Fixpoint unique_keys (d : list Entry) : bool :=
  match d with
  | [] => true
  | e :: rest =>
      negb (existsb (fun x => py_eq (typeinfo e) (typeinfo x)) rest) &&
      unique_keys rest
  end.

(** The entries of all the buckets, in iteration order *)
Definition library_entries (data : list (Z * EntryList.t)) : list Entry :=
  flat_map (fun kb => EntryList._data (snd kb)) data.

(** No type is stored twice in the library, in one bucket or in two. *)
Definition distinct_types (lib : TypeLibABC.t) : bool :=
  unique_keys (library_entries (TypeLibABC._data lib)).

(** A bucket of [data] is empty once pruned at [freq]. *)
Definition some_bucket_empties (data : list (Z * EntryList.t)) (freq : Z)
  : bool :=
  existsb (fun kv => EntryList.len (EntryList.prune (snd kv) freq) =? 0) data.

(** What [py_eq] compares: the object with the sizes that the [__eq__]
    methods do not read set to 0. *)
Fixpoint erase (o : obj) : obj :=
  match o with
  | Field n t _ => Field n t 0
  | Struct n layout _ => Struct n (map erase layout) 0
  | Union n members padding _ =>
      Union n (map erase members)
            (match padding with Some p => Some (erase p) | None => None end) 0
  | _ => o
  end.

(** The conversion [fix] is described to make: every Field size of a Struct
    divided by 8, the same in the Structs nested in its layout, and the
    size of each Struct recomputed as the sum of its members' sizes. *)
Fixpoint to_bytes (o : obj) : obj :=
  match o with
  | Field n t s => Field n t (s / 8)
  | Struct n layout _ =>
      Struct n (map to_bytes layout)
             (py_sum (map size_of (map to_bytes layout)))
  | _ => o
  end.

(** No Union in the object, at any depth *)
Fixpoint union_free (o : obj) : bool :=
  match o with
  | Union _ _ _ _ => false
  | Struct _ layout _ => forallb union_free layout
  | _ => true
  end.

(** ** Strings and tokens of the types ([__str__], [tokenize],
    [detokenize], [parse_subtype]) *)
Module Tokens.

(** What ends a call of [tokenize] other than its list: [Union.tokenize]
    raises [NotImplementedError]; a Member has no such method. *)
Inductive tokenize_error : Type :=
| NotImplementedError
| NoSuchMethod.

(** [f"{name}"] for an [Optional[str]] *)
Definition format_name (name : option string) : string :=
  match name with
  | Some s => s
  | None => "None"
  end.

(** [__str__] of each class *)
Fixpoint to_str (o : obj) : string :=
  match o with
  | TypeInfo name _ => format_name name
  | Array nelements _ element_type =>
      if nelements =? 0 then (element_type ++ "[]")%string
      else (element_type ++ "[" ++ TypeLibCodec.str nelements ++ "]")%string
  | Pointer target_type_name => (target_type_name ++ " *")%string
  | Void => "void"
  | Disappear => "disappear"
  | FunctionPointer name => name
  | Padding size => ("PADDING (" ++ TypeLibCodec.str size ++ ")")%string
  | Field name type_name _ => (type_name ++ " " ++ name)%string
  | Struct name layout _ =>
      let ret :=
        match name with
        | None => "struct {{ "
        | Some n => ("struct " ++ n ++ " { ")%string
        end in
      (fold_left (fun ret lay => (ret ++ (to_str lay ++ "; "))%string)
                 layout ret ++ "}")%string
  | Union name members padding _ =>
      let ret :=
        match name with
        | None => "union {{ "
        | Some n => ("union " ++ n ++ " { ")%string
        end in
      let ret :=
        fold_left (fun ret m => (ret ++ (to_str m ++ "; "))%string)
                  members ret in
      let ret :=
        match padding with
        | Some p => (ret ++ (to_str p ++ "; "))%string
        | None => ret
        end in
      (ret ++ "}")%string
  end.

(** [tokenize] of each class *)
Definition tokenize (o : obj) : list string + tokenize_error :=
  match o with
  | Padding _ | Field _ _ _ => inr NoSuchMethod
  | Union _ _ _ _ => inr NotImplementedError
  | Array nelements _ element_type =>
      inl ["<array>"; element_type;
           ("[" ++ TypeLibCodec.str nelements ++ "]")%string; "<eot>"]
  | Pointer target_type_name => inl ["<ptr>"; target_type_name; "<eot>"]
  | Struct name layout _ =>
      inl (["<struct>"; match name with Some n => n | None => "" end]
             ++ map to_str layout ++ ["<eot>"])
  | _ => inl [to_str o; "<eot>"]
  end.

(** [parse_subtype] *)
Definition parse_subtype (subtypes : list string) : string :=
  match subtypes with
  | [] => ""
  | first :: others =>
      if String.eqb first "<struct>" then
        match others with
        | [] => "struct"
        | name :: fields =>
            (fold_left (fun ret subtype => (ret ++ (subtype ++ "; "))%string)
                       fields ("struct" ++ (" " ++ name ++ " { "))
               ++ "}")%string
        end
      else if String.eqb first "<ptr>" then
        match others with
        | [] => " *"
        | target :: _ => (target ++ " *")%string
        end
      else if String.eqb first "<array>" then
        match others with
        | element :: count :: _ => (element ++ count)%string
        | _ => "[]"
        end
      else first
  end.

(** The loop of [detokenize]: [ret] and [current] are the loop variables. *)
Fixpoint detokenize_loop (subtypes : list string) (ret current : list string)
  : list string :=
  match subtypes with
  | [] => ret
  | subtype :: rest =>
      if String.eqb subtype "<eot>"
      then detokenize_loop rest (ret ++ [parse_subtype current]) []
      else detokenize_loop rest ret (current ++ [subtype])
  end.

Definition detokenize (subtypes : list string) : list string :=
  detokenize_loop subtypes [] [].

End Tokens.

(** The entries are in ascending order of frequency. *)
Fixpoint sorted_by_frequency (d : list Entry) : bool :=
  match d with
  | [] => true
  | e :: rest =>
      forallb (fun x => frequency e <=? frequency x) rest &&
      sorted_by_frequency rest
  end.

(** Every type of every bucket has the size the bucket is keyed by. *)
Definition sizes_match_keys (data : list (Z * EntryList.t)) : bool :=
  forallb (fun kb => forallb (fun e => size_of (typeinfo e) =? fst kb)
                             (EntryList._data (snd kb)))
          data.


(** A TypeInfo that is not a UDT, of a size that is not negative: all its
    bytes are accessible. *)
Definition plain_type (t : obj) : bool :=
  match t with
  | TypeInfo _ _ | Array _ _ _ | Pointer _ | Void | Disappear
  | FunctionPointer _ => 0 <=? size_of t
  | _ => false
  end.

(** Every Field of the layout has a positive size. *)
Definition fields_positive (layout : list obj) : bool :=
  forallb (fun m => negb (isinstance_Field m) || (0 <? size_of m)) layout.

(** [typ in cache[key]], for a key the cache has *)
Definition cache_holds (c : TypeLibABC.cache) (key : TypeLibABC.shape)
           (typ : obj) : bool :=
  match find (fun ks => TypeLibABC.shape_eqb (fst ks) key) c with
  | Some ks => existsb (fun x => py_eq x typ) (snd ks)
  | None => false
  end.

(** No address occurs twice in the list. *)
Fixpoint distinct (l : list Z) : bool :=
  match l with
  | [] => true
  | a :: rest => negb (existsb (Z.eqb a) rest) && distinct rest
  end.

(** No Field object and no Struct object occurs in two places of the
    library: not twice in one type, and not in two entries. *)
Definition unshared (lib : TypeLibABC.t) : bool :=
  distinct (flat_map (fun e => InPlace.addresses (typeinfo e))
                     (library_entries (TypeLibABC._data lib))).

(** An entry with what its type stands for in the store *)
Definition value_entry (s : InPlace.store) (e : Entry) : Entry :=
  mkEntry (frequency e) (InPlace.value s (typeinfo e)).

(** The key [fix] files an entry of the bucket [k] under: the size of a
    Struct after its conversion, the key of its bucket for another type. *)
Definition new_size (s : InPlace.store) (k : Z) (e : Entry) : Z :=
  if isinstance_Struct (typeinfo e)
  then size_of (typeinfo (fixed_entry (value_entry s e)))
  else k.

(** [fix] returns, and every type held by the receiver has afterwards the
    member sizes and the total size it had before. *)
Definition fix_leaves_source (s : InPlace.store) (lib : TypeLibABC.t) : Prop :=
  exists s' new_lib,
    InPlace.fix_ s lib = (s', Ok new_lib) /\
    forall e,
      In e (library_entries (TypeLibABC._data lib)) ->
      stored_sizes (InPlace.value s' (typeinfo e)) =
      stored_sizes (InPlace.value s (typeinfo e)).


(** The entries [fix] keeps, each with the key it files it under, in the
    order of the loops *)
Definition kept (s : InPlace.store) (data : list (Z * EntryList.t))
  : list (Z * Entry) :=
  flat_map (fun kb =>
              flat_map (fun e => if fix_succeeds (value_entry s e)
                                 then [(new_size s (fst kb) e, e)]
                                 else [])
                       (EntryList.iter (snd kb)))
           data.

(** [fix_keep] for each of the listed entries in turn *)
Fixpoint keep_all (new_lib : TypeLibABC.t) (l : list (Z * Entry))
  : result TypeLibABC.t :=
  match l with
  | [] => Ok new_lib
  | (nsize, e) :: rest =>
      new_lib <- InPlace.fix_keep new_lib nsize e ;;
      keep_all new_lib rest
  end.

(** Every bucket of the library holds an entry. *)
Definition buckets_nonempty (data : list (Z * EntryList.t)) : bool :=
  forallb (fun kb => negb (EntryList.len (snd kb) =? 0)) data.

(** A library of references and its store: the Struct [S] at address 0,
    with a Field of 32 bits at 1 and a Field of 8 bits at 2; the Struct [T]
    at 3, with a Field of 33 bits at 4; and a scalar of 4 bytes. *)
Definition sample_store : InPlace.store :=
  InPlace.store_of [(0, 40); (1, 32); (2, 8); (3, 33); (4, 33)].

Definition sample_references : TypeLibABC.t :=
  TypeLibABC.mk
    [(40, EntryList.mk
            [mkEntry 1 (Struct (Some "S")
                               [Field "a" "int" 1; Field "b" "char" 2] 0)]);
     (33, EntryList.mk
            [mkEntry 2 (Struct (Some "T") [Field "c" "long" 4] 3)]);
     (4, EntryList.mk [mkEntry 1 (TypeInfo (Some "int") 4)])]
    None.



(** A library built through [add]: a Struct with Fields of 32 and 8 bits and
    a scalar of 4 bytes. *)
Definition sample_library : TypeLibABC.t :=
  fst (TypeLibABC.add
         (fst (TypeLibABC.add TypeLibABC.init
                 (Struct_init (Some "S")
                              [Field "a" "int" 32; Field "b" "char" 8])))
         (TypeInfo (Some "int") 4)).

(** * Properties *)

(** ** Arithmetic of the builtins *)

Lemma fold_left_add_acc (l : list Z) (a : Z) :
  fold_left Z.add l a = a + fold_left Z.add l 0.
Proof.
  revert a. induction l as [|x l IH]; intros a; simpl.
  - lia.
  - rewrite (IH (a + x)), (IH x). lia.
Qed.

Lemma py_sum_cons (x : Z) (l : list Z) : py_sum (x :: l) = x + py_sum l.
Proof. unfold py_sum. simpl. apply fold_left_add_acc. Qed.

Lemma py_range_nil (a b : Z) : b <= a -> py_range a b = [].
Proof.
  intros H. unfold py_range.
  replace (Z.to_nat (b - a)) with 0%nat by lia. reflexivity.
Qed.

Lemma In_py_range (x a b : Z) : In x (py_range a b) <-> a <= x < b.
Proof.
  unfold py_range. rewrite in_map_iff. split.
  - intros [i [<- Hi]]. apply in_seq in Hi. lia.
  - intros H. exists (Z.to_nat (x - a)). split; [lia|].
    apply in_seq. lia.
Qed.

Lemma map_seq_shift (a : Z) (n1 n k : nat) :
  map (fun i => a + Z.of_nat i) (seq (n1 + k) n) =
  map (fun i => a + Z.of_nat n1 + Z.of_nat i) (seq k n).
Proof.
  revert k. induction n as [|n IH]; intros k; simpl.
  - reflexivity.
  - f_equal; [lia|]. rewrite <- Nat.add_succ_r. apply IH.
Qed.

Lemma py_range_split (a b c : Z) :
  a <= b -> b <= c -> py_range a c = py_range a b ++ py_range b c.
Proof.
  intros Hab Hbc. unfold py_range.
  replace (Z.to_nat (c - a)) with (Z.to_nat (b - a) + Z.to_nat (c - b))%nat
    by lia.
  rewrite seq_app, map_app. f_equal.
  rewrite Nat.add_0_l, <- (Nat.add_0_r (Z.to_nat (b - a))).
  rewrite map_seq_shift.
  replace (a + Z.of_nat (Z.to_nat (b - a))) with b by lia.
  reflexivity.
Qed.

Lemma NoDup_py_range (a b : Z) : NoDup (py_range a b).
Proof.
  unfold py_range. generalize (Z.to_nat (b - a)) as n. intros n.
  generalize 0%nat as k. induction n as [|n IH]; intros k; simpl.
  - constructor.
  - constructor; [|apply IH].
    rewrite in_map_iff. intros [i [Heq Hi]]. apply in_seq in Hi. lia.
Qed.

Lemma fold_left_max_ge (l : list Z) (x : Z) : x <= fold_left Z.max l x.
Proof.
  revert x. induction l as [|y l IH]; intros x; simpl.
  - lia.
  - specialize (IH (Z.max x y)). lia.
Qed.

(** ** Offsets of a Struct and of a Union *)

Lemma Struct_accessible_loop_acc (l : list obj) (off : Z) (acc : list Z) :
  Struct_accessible_loop l off acc = acc ++ Struct_accessible_loop l off [].
Proof.
  revert off acc. induction l as [|m l IH]; intros off acc; simpl.
  - now rewrite app_nil_r.
  - destruct (isinstance_Field m).
    + rewrite (IH _ (acc ++ _)), (IH _ (py_range _ _)). now rewrite app_assoc.
    + apply IH.
Qed.

Lemma Struct_inaccessible_loop_acc (l : list obj) (off : Z) (acc : list Z) :
  Struct_inaccessible_loop l off acc =
  acc ++ Struct_inaccessible_loop l off [].
Proof.
  revert off acc. induction l as [|m l IH]; intros off acc; simpl.
  - now rewrite app_nil_r.
  - destruct (isinstance_Padding m).
    + rewrite (IH _ (acc ++ _)), (IH _ (py_range _ _)). now rewrite app_assoc.
    + apply IH.
Qed.

Lemma Struct_inaccessible_loop_no_padding (l : list obj) (off : Z) :
  Struct_has_padding l = false -> Struct_inaccessible_loop l off [] = [].
Proof.
  unfold Struct_has_padding. revert off.
  induction l as [|m l IH]; intros off H; simpl in *.
  - reflexivity.
  - apply orb_false_iff in H as [Hm Hl]. rewrite Hm. now apply IH.
Qed.

Lemma member_ok_sum_nonneg (l : list obj) :
  forallb member_ok l = true -> 0 <= py_sum (map size_of l).
Proof.
  induction l as [|m l IH]; simpl; intros H.
  - unfold py_sum. simpl. lia.
  - apply andb_true_iff in H as [Hm Hl]. rewrite py_sum_cons.
    unfold member_ok in Hm. apply andb_true_iff in Hm as [_ Hm].
    specialize (IH Hl). lia.
Qed.

Lemma Struct_loops_partition (l : list obj) :
  forallb member_ok l = true ->
  forall off,
    Permutation
      (Struct_accessible_loop l off [] ++ Struct_inaccessible_loop l off [])
      (py_range off (off + py_sum (map size_of l))).
Proof.
  induction l as [|m l IH]; intros H off.
  - simpl. rewrite py_range_nil; [constructor | unfold py_sum; simpl; lia].
  - simpl in H. apply andb_true_iff in H as [Hm Hl].
    pose proof (member_ok_sum_nonneg l Hl) as Hsum.
    specialize (IH Hl (off + size_of m)).
    unfold member_ok in Hm. apply andb_true_iff in Hm as [Hkind Hsize].
    apply Z.leb_le in Hsize.
    cbn [map]. rewrite py_sum_cons.
    rewrite (py_range_split off (off + size_of m)) by lia.
    replace (off + (size_of m + py_sum (map size_of l)))
      with (off + size_of m + py_sum (map size_of l)) by lia.
    destruct m; simpl in Hkind; try discriminate; simpl.
    + rewrite Struct_inaccessible_loop_acc.
      rewrite Permutation_app_swap_app.
      now apply Permutation_app_head.
    + rewrite Struct_accessible_loop_acc, <- app_assoc.
      now apply Permutation_app_head.
Qed.

Lemma partition_disjoint (acc inacc : list Z) (a b : Z) :
  Permutation (acc ++ inacc) (py_range a b) ->
  forall x, In x acc -> ~ In x inacc.
Proof.
  intros HP.
  assert (HN : NoDup (acc ++ inacc)).
  { apply (Permutation_NoDup (Permutation_sym HP)), NoDup_py_range. }
  clear HP. induction acc as [|y acc IH]; simpl in *.
  - intros x [].
  - inversion HN as [|? ? Hy HN']; subst.
    intros x [-> | Hx] Hin.
    + apply Hy, in_or_app. now right.
    + now apply (IH HN' x).
Qed.

Lemma py_max_members (m : obj) (members : list obj) :
  forallb (fun m => 0 <=? size_of m) (m :: members) = true ->
  exists top, py_max (map size_of (m :: members)) = Ok top /\ 0 <= top.
Proof.
  simpl. intros H. apply andb_true_iff in H as [Hm _].
  apply Z.leb_le in Hm. eexists. split; [reflexivity|].
  pose proof (fold_left_max_ge (map size_of members) (size_of m)). lia.
Qed.

(** C1: for a Struct of two consecutive 4-byte fields, [replacable_with] a
    pair of 4-byte scalars evaluates to false: the loop displaces every
    [other] by the initial [cur_offset], 0, so the second scalar's offsets
    are 0..3 again and not 4..7. *)
Theorem replacable_with_pair_of_int32_is_false
        (sname n1 n2 : option string) (a ta b tb : string) :
  replacable_with (Struct_init sname [Field a ta 4; Field b tb 4])
                  [TypeInfo n1 4; TypeInfo n2 4] = Ok false.
Proof. reflexivity. Qed.

(** The other half of the example of C1 holds: a single 8-byte scalar does
    not replace the Struct. *)
Lemma replacable_with_int64_is_false
      (sname n : option string) (a ta b tb : string) :
  replacable_with (Struct_init sname [Field a ta 4; Field b tb 4])
                  [TypeInfo n 8] = Ok false.
Proof. reflexivity. Qed.

(** The running offset stays 0 through the loop: the concatenated offsets
    are those of each [other] taken from its own origin. *)
Lemma replacable_loop_undisplaced (others : list obj) (s a i : list Z)
      (s' a' i' : list Z) :
  replacable_loop others 0 s a i = Ok (s', a', i') ->
  forall o, In o others ->
    exists so ao io,
      start_offsets o = Ok so /\ accessible_offsets o = Ok ao /\
      inaccessible_offsets o = Ok io /\
      incl so s' /\ incl ao a' /\ incl io i'.
Proof.
  revert s a i. induction others as [|other rest IH]; intros s a i H o Hin.
  - destruct Hin.
  - simpl in H.
    destruct (start_offsets other) as [so|] eqn:Es; [|discriminate].
    destruct (accessible_offsets other) as [ao|] eqn:Ea; [|discriminate].
    destruct (inaccessible_offsets other) as [io|] eqn:Ei; [|discriminate].
    simpl in H.
    assert (Hd : forall l, displace 0 l = l).
    { intros l. unfold displace. rewrite <- (map_id l) at 2.
      apply map_ext. intros x. lia. }
    rewrite !Hd in H.
    assert (Hmono : forall rest s a i s' a' i',
               replacable_loop rest 0 s a i = Ok (s', a', i') ->
               incl s s' /\ incl a a' /\ incl i i').
    { clear. induction rest as [|o rest IH]; intros s a i s' a' i' H.
      - simpl in H. inversion H; subst. repeat split; apply incl_refl.
      - simpl in H.
        destruct (start_offsets o); [|discriminate].
        destruct (accessible_offsets o); [|discriminate].
        destruct (inaccessible_offsets o); [|discriminate].
        simpl in H. apply IH in H as (Hs & Ha & Hi).
        repeat split; eapply incl_tran; try eassumption;
          apply incl_appl, incl_refl. }
    destruct Hin as [<- | Hin].
    + apply Hmono in H as (Hs & Ha & Hi).
      exists so, ao, io. repeat split; try assumption.
      * eapply incl_tran; [|exact Hs]. apply incl_appr, incl_refl.
      * eapply incl_tran; [|exact Ha]. apply incl_appr, incl_refl.
      * eapply incl_tran; [|exact Hi]. apply incl_appr, incl_refl.
    + eapply IH; eassumption.
Qed.

(** C10: a Union with no members is constructed, with size 0 plus the size
    of its padding; on it [accessible_offsets] raises [ValueError] (the
    maximum of an empty sequence), and so does [inaccessible_offsets] when a
    padding is present. *)
Theorem memberless_Union_offsets_raise
        (name : option string) (padding : option obj) :
  Union_init name [] padding =
    Union name [] padding
          (match padding with Some p => 0 + size_of p | None => 0 end) /\
  accessible_offsets (Union_init name [] padding) = Raise ValueError /\
  inaccessible_offsets (Union_init name [] padding) =
    match padding with
    | Some _ => Raise ValueError
    | None => Ok []
    end.
Proof. destruct padding; repeat split; reflexivity. Qed.

(** C3, as stated, fails: the bytes of a Struct nested in a layout count in
    the size of the outer Struct and are in neither sequence. *)
Lemma nested_Struct_offsets_do_not_partition :
  ~ offsets_partition
      (Struct_init None [Struct_init None [Field "a" "int" 4]]).
Proof.
  intros (acc & inacc & Ha & Hi & HP & _).
  cbv in Ha, Hi. inversion Ha; inversion Hi; subst.
  apply Permutation_length in HP. discriminate HP.
Qed.

(** C3, amended: for every TypeInfo value with a flat layout (any variant
    that is not a UDT, a Struct built of Fields and Paddings, a Union with at
    least one member; sizes not negative), the accessible and inaccessible
    offsets together are exactly [0 .. size-1] and they are disjoint. *)
Theorem flat_offsets_partition (t : obj) :
  flat_layout t = true -> offsets_partition t.
Proof.
  intros Hflat. unfold offsets_partition.
  assert (Hplain : forall t',
             accessible_offsets t' = Ok (py_range 0 (size_of t')) ->
             inaccessible_offsets t' = Ok [] ->
             exists acc inacc,
               accessible_offsets t' = Ok acc /\
               inaccessible_offsets t' = Ok inacc /\
               Permutation (acc ++ inacc) (py_range 0 (size_of t')) /\
               (forall x, In x acc -> ~ In x inacc)).
  { intros t' Ha Hi. exists (py_range 0 (size_of t')), [].
    split; [exact Ha|]. split; [exact Hi|].
    split.
    - rewrite app_nil_r. apply Permutation_refl.
    - intros x _ []. }
  destruct t as [n s|n es et|tn| | |n|s|n tn s|n layout s|n members padding s];
    try (apply Hplain; reflexivity); try discriminate Hflat.
  - (* Struct *)
    simpl in Hflat. apply andb_true_iff in Hflat as [Hsize Hmembers].
    apply Z.eqb_eq in Hsize. subst s.
    pose proof (Struct_loops_partition layout Hmembers 0) as HP.
    rewrite Z.add_0_l in HP.
    assert (HI : Struct_inaccessible_offsets layout =
                 Struct_inaccessible_loop layout 0 []).
    { unfold Struct_inaccessible_offsets.
      destruct (Struct_has_padding layout) eqn:Hpad; simpl.
      - reflexivity.
      - symmetry. now apply Struct_inaccessible_loop_no_padding. }
    exists (Struct_accessible_loop layout 0 []),
           (Struct_inaccessible_loop layout 0 []).
    split; [reflexivity|].
    split; [simpl; now rewrite HI|].
    split; [exact HP|].
    eapply partition_disjoint; exact HP.
  - (* Union *)
    simpl in Hflat.
    apply andb_true_iff in Hflat as [Hflat Hsize].
    apply andb_true_iff in Hflat as [Hflat Hpad].
    apply andb_true_iff in Hflat as [Hne Hmem].
    destruct members as [|m members]; [discriminate|].
    destruct (py_max_members m members Hmem) as (top & Htop & Hpos).
    apply Z.eqb_eq in Hsize.
    unfold Union_init in Hsize. rewrite Htop in Hsize.
    unfold accessible_offsets, inaccessible_offsets,
      Union_accessible_offsets, Union_inaccessible_offsets.
    rewrite Htop. simpl bind.
    destruct padding as [p|]; simpl in Hsize, Hpad |- *; subst s.
    + apply Z.leb_le in Hpad.
      exists (py_range 0 top), (py_range top (top + size_of p)).
      assert (HP : Permutation
                     (py_range 0 top ++ py_range top (top + size_of p))
                     (py_range 0 (top + size_of p))).
      { rewrite <- py_range_split by lia. apply Permutation_refl. }
      split; [reflexivity|]. split; [reflexivity|].
      split; [exact HP|].
      eapply partition_disjoint; exact HP.
    + exists (py_range 0 top), [].
      split; [reflexivity|]. split; [reflexivity|].
      split.
      * rewrite app_nil_r. apply Permutation_refl.
      * intros x _ [].
Qed.

Lemma flat_offsets_partition_witness :
  flat_layout (Struct_init (Some "S")
                 [Field "a" "int" 4; Padding 4; Field "b" "long" 8]) = true /\
  offsets_partition (Struct_init (Some "S")
                       [Field "a" "int" 4; Padding 4; Field "b" "long" 8]).
Proof.
  split; [reflexivity|].
  apply (flat_offsets_partition
           (Struct_init (Some "S")
              [Field "a" "int" 4; Padding 4; Field "b" "long" 8])).
  reflexivity.
Defined.

(** ** The replacement search on a one-type corpus *)

(** A library holding one type, a scalar of 4 bytes, is what [add] builds
    from the empty library. *)
Lemma add_scalar_to_empty (name : option string) :
  TypeLibABC.add TypeLibABC.init (TypeInfo name 4) =
  (TypeLibABC.mk [(4, EntryList.mk [mkEntry 1 (TypeInfo name 4)])] None,
   Ok tt).
Proof. reflexivity. Qed.

(** C4: over a corpus whose only type is a 4-byte scalar (whatever its name
    and frequency), [get_next_replacements((0,1,2,3), (0,))] returns exactly
    one candidate: the type set holds that scalar alone and both remainders
    are empty. *)
Theorem get_next_replacements_one_scalar (name : option string) (f : Z) :
  snd (TypeLibABC.get_next_replacements
         (TypeLibABC.mk [(4, EntryList.mk [mkEntry f (TypeInfo name 4)])] None)
         [0; 1; 2; 3] [0])
  = Ok [([TypeInfo name 4], [], [])].
Proof. reflexivity. Qed.

(** The same answer comes from a cache that was built before the call. *)
Lemma one_scalar_with_built_cache (name : option string) (f : Z) :
  let lib :=
    fst (TypeLibABC.make_cached_replacement_dict
           (TypeLibABC.mk [(4, EntryList.mk [mkEntry f (TypeInfo name 4)])]
                          None)) in
  snd (TypeLibABC.get_next_replacements lib [0; 1; 2; 3] [0])
  = Ok [([TypeInfo name 4], [], [])].
Proof. reflexivity. Qed.

(** ** EntryList *)

(** C8: the value [add_n] returns is [True] whether or not the item was
    present; in particular it is [True] on the empty list, where the item is
    absent. *)
Theorem add_n_returns_true_when_absent (item : obj) (n : Z) :
  ValueSortedDict.contains (EntryList._data (EntryList.init [])) item = false /\
  snd (EntryList.add_n (EntryList.init []) item n) = Ok true.
Proof. split; reflexivity. Qed.

(** Whenever [add_n] returns, it returns [True]. *)
Lemma add_n_returns_only_true (self : EntryList.t) (item : obj) (n : Z)
      (b : bool) :
  snd (EntryList.add_n self item n) = Ok b -> b = true.
Proof.
  unfold EntryList.add_n.
  destruct (ValueSortedDict.setitem _ _ _); simpl; intros H;
    [now injection H as <- | discriminate H].
Qed.

Lemma contains_get (d : ValueSortedDict.t) (item : obj) :
  ValueSortedDict.contains d item = true ->
  exists e, ValueSortedDict.get d item = Some e /\
            In e d /\ py_eq (typeinfo e) item = true.
Proof.
  unfold ValueSortedDict.contains, ValueSortedDict.get.
  induction d as [|e d IH]; simpl; intros H.
  - discriminate.
  - destruct (py_eq (typeinfo e) item) eqn:E.
    + exists e. auto.
    + destruct (IH H) as (e' & Hg & Hin & He). exists e'. auto.
Qed.

(** C9: on an item that is present [get_freq] raises [AttributeError]: it
    reads the attribute [freqency], which an Entry does not have. *)
Theorem get_freq_present_raises (self : EntryList.t) (item : obj) :
  ValueSortedDict.contains (EntryList._data self) item = true ->
  EntryList.get_freq self item = Raise AttributeError.
Proof.
  intros H. unfold EntryList.get_freq. rewrite H.
  destruct (contains_get _ _ H) as (e & -> & _). reflexivity.
Qed.

Lemma get_freq_present_raises_witness :
  ValueSortedDict.contains
    (EntryList._data (EntryList.init [mkEntry 3 (TypeInfo (Some "int") 4)]))
    (TypeInfo (Some "int") 4) = true /\
  EntryList.get_freq
    (EntryList.init [mkEntry 3 (TypeInfo (Some "int") 4)])
    (TypeInfo (Some "int") 4) = Raise AttributeError.
Proof.
  split; [reflexivity|].
  apply (get_freq_present_raises
           (EntryList.init [mkEntry 3 (TypeInfo (Some "int") 4)])
           (TypeInfo (Some "int") 4)).
  reflexivity.
Defined.

(** The other half of C9 holds: an absent item gives [None]. *)
Lemma get_freq_absent (self : EntryList.t) (item : obj) :
  ValueSortedDict.contains (EntryList._data self) item = false ->
  EntryList.get_freq self item = Ok None.
Proof. intros H. unfold EntryList.get_freq. now rewrite H. Qed.

(** ** Pruning the library *)

(** C7: pruning a library whose only bucket is left empty does not return
    normally: the loop that removes empty buckets pops the key while it
    iterates over the dict, and the iterator raises [RuntimeError]. *)
Theorem prune_emptied_bucket_raises :
  TypeLibABC.prune
    (fst (TypeLibABC.add TypeLibABC.init (TypeInfo (Some "int") 4))) 2
  = (TypeLibABC.mk [] None, Raise RuntimeError).
Proof. reflexivity. Qed.

(** With a second bucket that also empties, the call ends at the first one:
    the second empty bucket stays in the library. *)
Lemma prune_leaves_later_empty_buckets :
  TypeLibABC.prune
    (fst (TypeLibABC.add
            (fst (TypeLibABC.add TypeLibABC.init (TypeInfo (Some "int") 4)))
            (TypeInfo (Some "long") 8))) 2
  = (TypeLibABC.mk [(8, EntryList.mk [])] None, Raise RuntimeError).
Proof. reflexivity. Qed.

(** ** The codec *)

(** C2: a Union does not survive the round trip.  [Union._to_json] writes
    the tag 8, which the registry maps to [Void] (the registry has [Union]
    under 7), so the document decodes to [Void()]. *)
Theorem Union_round_trip_decodes_Void
        (name : option string) (fname ftype : string) (fsize : Z) :
  let u := Union_init name [Field fname ftype fsize] None in
  bind (TypeLibCodec.encode (TypeLibCodec.CObj u)) TypeLibCodec.decode
    = Ok (TypeLibCodec.PObj Void) /\
  py_eq Void u = false /\
  TypeLibCodec.round_trips (TypeLibCodec.CObj u) = false.
Proof. destruct name; repeat split; reflexivity. Qed.

(** An EntryList that is not empty is not even encoded: its [_to_json]
    hands the encoder a dict keyed by TypeInfo objects. *)
Lemma EntryList_encode_raises (e : Entry) (rest : list Entry) :
  TypeLibCodec.encode (TypeLibCodec.CEntryList (EntryList.mk (e :: rest)))
  = Raise TypeError.
Proof. reflexivity. Qed.

(** The variants that are not UDTs do survive the round trip. *)
Lemma scalar_variants_round_trip (t : obj) :
  match t with
  | TypeInfo _ _ | Array _ _ _ | Pointer _ | Void | Disappear
  | FunctionPointer _ =>
      TypeLibCodec.decode (TypeLibCodec.obj_to_json t) = Ok (TypeLibCodec.PObj t)
  | _ => True
  end.
Proof. destruct t as [[n|] s| | | | | | | | |]; try exact I; reflexivity. Qed.

(** ** Induction on objects, through layouts and members *)

Section obj_nested_ind.

Variable P : obj -> Prop.

Hypothesis H_TypeInfo : forall n s, P (TypeInfo n s).
Hypothesis H_Array : forall n es et, P (Array n es et).
Hypothesis H_Pointer : forall t, P (Pointer t).
Hypothesis H_Void : P Void.
Hypothesis H_Disappear : P Disappear.
Hypothesis H_FunctionPointer : forall n, P (FunctionPointer n).
Hypothesis H_Padding : forall s, P (Padding s).
Hypothesis H_Field : forall n t s, P (Field n t s).
Hypothesis H_Struct :
  forall n layout s, Forall P layout -> P (Struct n layout s).
Hypothesis H_Union :
  forall n members padding s,
    Forall P members -> (forall p, padding = Some p -> P p) ->
    P (Union n members padding s).

Lemma obj_nested_ind : forall o, P o.
Proof.
  fix IH 1.
  intros [n s|n es et|t| | |n|s|n t s|n layout s|n members padding s].
  - apply H_TypeInfo.
  - apply H_Array.
  - apply H_Pointer.
  - apply H_Void.
  - apply H_Disappear.
  - apply H_FunctionPointer.
  - apply H_Padding.
  - apply H_Field.
  - apply H_Struct.
    induction layout as [|m layout IHl]; constructor; [apply IH | exact IHl].
  - apply H_Union.
    + induction members as [|m members IHl]; constructor;
        [apply IH | exact IHl].
    + destruct padding as [p|]; intros q Hq.
      * injection Hq as <-. apply IH.
      * discriminate Hq.
Qed.

End obj_nested_ind.

(** ** [fix_bit] returns on every Struct *)

Lemma fix_bit_not_Struct (t : obj) :
  isinstance_Struct t = false -> TypeLibABC.fix_bit t = Raise AttributeError.
Proof. destruct t; simpl; intros H; try reflexivity; discriminate H. Qed.

Lemma fix_bit_layout_total (layout : list obj) :
  Forall (fun m => isinstance_Struct m = true ->
                   exists r, TypeLibABC.fix_bit m = Ok r) layout ->
  forall succeed,
    exists r, TypeLibABC.fix_bit_layout TypeLibABC.fix_bit layout succeed = Ok r.
Proof.
  induction 1 as [|m layout Hm _ IH]; intros succeed.
  - eexists. reflexivity.
  - destruct m;
      try (cbn [TypeLibABC.fix_bit_layout];
           destruct (IH succeed) as [r ->]; eexists; reflexivity).
    + cbn [TypeLibABC.fix_bit_layout].
      destruct (negb (succeed && (size mod 8 =? 0))).
      * eexists. reflexivity.
      * destruct (IH (succeed && (size mod 8 =? 0))) as [r ->].
        eexists. reflexivity.
    + destruct (Hm eq_refl) as [r Hr].
      cbn [TypeLibABC.fix_bit_layout]. rewrite Hr. cbn [bind].
      destruct (IH (succeed && fst r)) as [r' ->]. eexists. reflexivity.
Qed.

Lemma fix_bit_total (t : obj) :
  isinstance_Struct t = true -> exists r, TypeLibABC.fix_bit t = Ok r.
Proof.
  induction t using obj_nested_ind; intros Hs; try discriminate Hs.
  destruct (fix_bit_layout_total layout H true) as [r Hr].
  cbn [TypeLibABC.fix_bit]. rewrite Hr. eexists. reflexivity.
Qed.

(** A Struct with a Field whose size is not a multiple of 8 fails. *)
Lemma fix_bit_layout_unaligned (layout : list obj) (n tn : string) (s : Z) :
  In (Field n tn s) layout -> s mod 8 <> 0 ->
  forall succeed r,
    TypeLibABC.fix_bit_layout TypeLibABC.fix_bit layout succeed = Ok r ->
    fst r = false.
Proof.
  intros Hin Hs. induction layout as [|m layout IH]; [destruct Hin|].
  intros succeed r Hr.
  destruct m; cbn [TypeLibABC.fix_bit_layout] in Hr;
    try (destruct Hin as [Heq | Hin]; [discriminate Heq|];
         destruct (TypeLibABC.fix_bit_layout TypeLibABC.fix_bit layout succeed)
           as [r0|] eqn:E; [|discriminate Hr];
         cbn [bind] in Hr; injection Hr as <-; cbn [fst];
         now apply (IH Hin succeed)).
  - (* Field *)
    destruct (succeed && (size mod 8 =? 0)) eqn:Eok; cbn [negb] in Hr.
    + destruct Hin as [Heq | Hin].
      * injection Heq as -> -> ->.
        apply andb_true_iff in Eok as [_ Eok]. apply Z.eqb_eq in Eok.
        contradiction.
      * destruct (TypeLibABC.fix_bit_layout TypeLibABC.fix_bit layout true)
          as [r0|] eqn:E; [|discriminate Hr].
        cbn [bind] in Hr. injection Hr as <-. cbn [fst].
        now apply (IH Hin true).
    + injection Hr as <-. reflexivity.
  - (* Struct *)
    destruct Hin as [Heq | Hin]; [discriminate Heq|].
    destruct (TypeLibABC.fix_bit (Struct name layout0 size)) as [r1|];
      [|discriminate Hr].
    cbn [bind] in Hr.
    destruct (TypeLibABC.fix_bit_layout TypeLibABC.fix_bit layout
                                        (succeed && fst r1))
      as [r0|] eqn:E; [|discriminate Hr].
    cbn [bind] in Hr. injection Hr as <-. cbn [fst].
    now apply (IH Hin (succeed && fst r1)).
Qed.

(** X19: [fix_bit] returns [False] on a Struct that has, in its own layout,
    a Field whose size is not a multiple of 8. *)
Lemma fix_bit_unaligned_field_fails
      (name : option string) (layout : list obj) (size : Z)
      (n tn : string) (s : Z) :
  In (Field n tn s) layout -> s mod 8 <> 0 ->
  exists typ,
    TypeLibABC.fix_bit (Struct name layout size) = Ok (false, typ).
Proof.
  intros Hin Hs.
  destruct (fix_bit_total (Struct name layout size) eq_refl) as [[ok typ] Hr].
  exists typ. rewrite Hr. f_equal. f_equal.
  cbn [TypeLibABC.fix_bit] in Hr.
  destruct (TypeLibABC.fix_bit_layout TypeLibABC.fix_bit layout true)
    as [r0|] eqn:E; [|discriminate Hr].
  cbn [bind] in Hr. injection Hr as <- _.
  eapply fix_bit_layout_unaligned; eassumption.
Qed.

(** ** What [prune] keeps, and when it returns *)

Lemma In_insort (d : ValueSortedDict.t) (v e : Entry) :
  In e (ValueSortedDict.insort d v) -> e = v \/ In e d.
Proof.
  induction d as [|x d IH]; simpl.
  - intros [<- | []]. now left.
  - destruct (EntryM.lt v x); simpl.
    + intros [<- | H]; auto.
    + intros [<- | H]; auto. destruct (IH H); auto.
Qed.

Lemma In_insort_iff (d : ValueSortedDict.t) (v e : Entry) :
  In e (ValueSortedDict.insort d v) <-> e = v \/ In e d.
Proof.
  split; [apply In_insort|].
  induction d as [|x d IH]; simpl.
  - intros [-> | []]. now left.
  - destruct (EntryM.lt v x); simpl.
    + intros [-> | [-> | H]]; auto.
    + intros [-> | [-> | H]]; auto.
Qed.

Lemma In_of_dict (plain : list Entry) (e : Entry) :
  In e (ValueSortedDict.of_dict plain) <-> In e plain.
Proof.
  unfold ValueSortedDict.of_dict.
  assert (H : forall acc,
             In e (fold_left ValueSortedDict.insort plain acc) <->
             In e acc \/ In e plain).
  { induction plain as [|x plain IH]; intros acc; simpl.
    - tauto.
    - rewrite IH, In_insort_iff. intuition congruence. }
  rewrite H. simpl. tauto.
Qed.

Lemma unique_keys_fresh (acc : list Entry) (x : Entry) (l : list Entry) :
  unique_keys (acc ++ x :: l) = true ->
  forall e, In e acc -> py_eq (typeinfo e) (typeinfo x) = false.
Proof.
  induction acc as [|a acc IH]; simpl; intros H e Hin; [destruct Hin|].
  apply andb_true_iff in H as [Ha Hu]. destruct Hin as [<- | Hin].
  - apply negb_true_iff in Ha. rewrite existsb_app in Ha.
    apply orb_false_iff in Ha as [_ Ha]. simpl in Ha.
    now apply orb_false_iff in Ha as [Ha _].
  - now apply IH.
Qed.

Lemma plain_set_fresh (acc : list Entry) (x : Entry) :
  (forall e, In e acc -> py_eq (typeinfo e) (typeinfo x) = false) ->
  ValueSortedDict.plain_set acc x = acc ++ [x].
Proof.
  induction acc as [|a acc IH]; simpl; intros H; [reflexivity|].
  rewrite (H a) by now left. f_equal. apply IH. intros e He. apply H.
  now right.
Qed.

Lemma fold_plain_set_unique (l acc : list Entry) :
  unique_keys (acc ++ l) = true ->
  fold_left ValueSortedDict.plain_set l acc = acc ++ l.
Proof.
  revert acc. induction l as [|x l IH]; intros acc H; simpl.
  - now rewrite app_nil_r.
  - rewrite plain_set_fresh by (eapply unique_keys_fresh; eassumption).
    rewrite IH; rewrite <- app_assoc; [reflexivity | exact H].
Qed.

Lemma unique_keys_filter (f : Entry -> bool) (d : list Entry) :
  unique_keys d = true -> unique_keys (filter f d) = true.
Proof.
  induction d as [|e d IH]; simpl; intros H; [reflexivity|].
  apply andb_true_iff in H as [He Hd].
  destruct (f e); simpl; [|now apply IH].
  rewrite (IH Hd), andb_true_r.
  apply negb_true_iff in He. apply negb_true_iff.
  apply not_true_is_false. intros Hex.
  apply existsb_exists in Hex as (x & Hx & Hpx).
  apply filter_In in Hx as [Hx _].
  assert (existsb (fun x => py_eq (typeinfo e) (typeinfo x)) d = true)
    by (apply existsb_exists; eauto).
  congruence.
Qed.

(** X14: [EntryList.prune] removes exactly the entries below the
    threshold: an entry is in the pruned list iff it was in the list with a
    frequency of at least [freq]. *)
Lemma EntryList_prune_keeps (self : EntryList.t) (freq : Z) (e : Entry) :
  unique_keys (EntryList._data self) = true ->
  (In e (EntryList._data (EntryList.prune self freq)) <->
   In e (EntryList._data self) /\ freq <= frequency e).
Proof.
  intros Hu. unfold EntryList.prune, EntryList._initialize_data.
  cbn [EntryList._data]. rewrite In_of_dict.
  rewrite fold_plain_set_unique by (now apply unique_keys_filter).
  simpl. rewrite filter_In. rewrite Z.geb_le. reflexivity.
Qed.

Lemma dict_pop_length (data : list (Z * EntryList.t)) (key : Z)
      (entry : EntryList.t) :
  In (key, entry) data ->
  List.length (TypeLibABC.dict_pop data key) <> List.length data.
Proof.
  induction data as [|[k v] data IH]; simpl; intros H; [destruct H|].
  destruct (k =? key) eqn:E.
  - lia.
  - destruct H as [Heq | H].
    + injection Heq as -> _. rewrite Z.eqb_refl in E. discriminate E.
    + simpl. specialize (IH H). lia.
Qed.

Lemma prune_items_loop_stale (di_used : nat)
      (pending data : list (Z * EntryList.t)) :
  di_used <> List.length data ->
  TypeLibABC.prune_items_loop di_used pending data = (data, Raise RuntimeError).
Proof.
  intros H. apply Nat.eqb_neq in H.
  destruct pending; simpl; now rewrite H.
Qed.

Lemma prune_items_loop_raises (pending data : list (Z * EntryList.t)) :
  incl pending data ->
  existsb (fun kv => EntryList.len (snd kv) =? 0) pending = true ->
  snd (TypeLibABC.prune_items_loop (List.length data) pending data)
  = Raise RuntimeError.
Proof.
  induction pending as [|[key entry] pending IH]; simpl; intros Hincl Hex.
  - discriminate Hex.
  - rewrite Nat.eqb_refl. simpl.
    destruct (EntryList.len entry =? 0) eqn:E.
    + rewrite prune_items_loop_stale; [reflexivity|].
      apply not_eq_sym. eapply dict_pop_length. apply Hincl. now left.
    + simpl in Hex. apply IH; [|exact Hex].
      intros x Hx. apply Hincl. now right.
Qed.

Lemma prune_items_loop_returns (pending data : list (Z * EntryList.t)) :
  existsb (fun kv => EntryList.len (snd kv) =? 0) pending = false ->
  TypeLibABC.prune_items_loop (List.length data) pending data = (data, Ok tt).
Proof.
  induction pending as [|[key entry] pending IH]; simpl; intros Hex;
    rewrite Nat.eqb_refl; simpl; [reflexivity|].
  apply orb_false_iff in Hex as [E Hex]. rewrite E. now apply IH.
Qed.

Lemma existsb_map_compose {A B : Type} (f : B -> bool) (g : A -> B)
      (l : list A) :
  existsb f (map g l) = existsb (fun x => f (g x)) l.
Proof. induction l as [|x l IH]; simpl; [reflexivity | now rewrite IH]. Qed.

(** X15: [TypeLibABC.prune] raises [RuntimeError] as soon as one bucket is
    left empty: the bucket is popped from the dict that is being iterated. *)
Lemma prune_raises_when_a_bucket_empties (lib : TypeLibABC.t) (freq : Z) :
  some_bucket_empties (TypeLibABC._data lib) freq = true ->
  snd (TypeLibABC.prune lib freq) = Raise RuntimeError.
Proof.
  intros H. unfold TypeLibABC.prune.
  set (data := map _ (TypeLibABC._data lib)).
  pose proof (prune_items_loop_raises data data (incl_refl data)) as Hr.
  destruct (TypeLibABC.prune_items_loop _ data data) as [d r].
  simpl in *. apply Hr. subst data.
  unfold some_bucket_empties in H. rewrite existsb_map_compose. exact H.
Qed.

(** X18: when no bucket is left empty, [TypeLibABC.prune] returns with
    every bucket pruned, the keys and the cache as they were. *)
Lemma prune_returns_when_no_bucket_empties (lib : TypeLibABC.t) (freq : Z) :
  some_bucket_empties (TypeLibABC._data lib) freq = false ->
  TypeLibABC.prune lib freq =
  (TypeLibABC.mk
     (map (fun kv => (fst kv, EntryList.prune (snd kv) freq))
          (TypeLibABC._data lib))
     (TypeLibABC.cached_replacement_dict lib),
   Ok tt).
Proof.
  intros H. unfold TypeLibABC.prune.
  rewrite prune_items_loop_returns; [reflexivity|].
  unfold some_bucket_empties in H. rewrite existsb_map_compose. exact H.
Qed.

(** ** [py_eq] is equality up to the sizes it does not read *)

Lemma name_eqb_eq (a b : option string) : name_eqb a b = true <-> a = b.
Proof.
  destruct a as [x|], b as [y|]; simpl;
    try (split; intros H; [discriminate H | discriminate H || reflexivity]).
  - rewrite String.eqb_eq. split; [now intros -> | now intros [= ->]].
  - split; reflexivity.
Qed.

Lemma tuple_eq_erase (l : list obj) :
  Forall (fun a => forall b, py_eq a b = true <-> erase a = erase b) l ->
  forall l', tuple_eq py_eq l l' = true <-> map erase l = map erase l'.
Proof.
  induction 1 as [|a l Ha _ IH]; intros [|b l']; simpl;
    try (split; [reflexivity || discriminate | reflexivity || discriminate]).
  rewrite andb_true_iff, Ha, IH.
  split; [now intros [-> ->] | now intros [= -> ->]].
Qed.

Lemma py_eq_erase (a : obj) :
  forall b, py_eq a b = true <-> erase a = erase b.
Proof.
  induction a as [n s|n es et|t| | |n|s|n t s|n layout s Hl
                 |n members padding s Hm Hp] using obj_nested_ind;
    intros b; destruct b; simpl;
    try (split; intros H; discriminate H);
    try (split; reflexivity).
  - rewrite andb_true_iff, name_eqb_eq, Z.eqb_eq.
    split; [now intros [-> ->] | now intros [= -> ->]].
  - rewrite !andb_true_iff, !Z.eqb_eq, String.eqb_eq.
    split; [now intros [[-> ->] ->] | now intros [= -> -> ->]].
  - rewrite String.eqb_eq. split; [now intros -> | now intros [= ->]].
  - rewrite String.eqb_eq. split; [now intros -> | now intros [= ->]].
  - rewrite Z.eqb_eq. split; [now intros -> | now intros [= ->]].
  - rewrite andb_true_iff, !String.eqb_eq.
    split; [now intros [-> ->] | now intros [= -> ->]].
  - rewrite andb_true_iff, name_eqb_eq, (tuple_eq_erase layout Hl).
    split; [now intros [-> ->] | now intros [= -> ->]].
  - rewrite !andb_true_iff, name_eqb_eq, (tuple_eq_erase members Hm).
    destruct padding as [p|], padding0 as [q|].
    + rewrite (Hp p eq_refl q).
      split; [now intros [[-> ->] ->] | now intros [= -> -> ->]].
    + split; [now intros [_ H] | intros H; discriminate H].
    + split; [now intros [_ H] | intros H; discriminate H].
    + split; [now intros [[-> ->] _] | now intros [= -> ->]].
Qed.

Lemma py_eq_refl (a : obj) : py_eq a a = true.
Proof. now apply py_eq_erase. Qed.

Lemma py_eq_sym (a b : obj) : py_eq a b = py_eq b a.
Proof.
  destruct (py_eq a b) eqn:E1, (py_eq b a) eqn:E2; try reflexivity.
  - apply py_eq_erase in E1. symmetry in E1. apply py_eq_erase in E1.
    congruence.
  - apply py_eq_erase in E2. symmetry in E2. apply py_eq_erase in E2.
    congruence.
Qed.

Lemma py_eq_trans (a b c : obj) :
  py_eq a b = true -> py_eq b c = true -> py_eq a c = true.
Proof.
  rewrite !py_eq_erase. congruence.
Qed.

(** ** [fix_bit], when it succeeds, is the conversion to bytes *)

Lemma fix_bit_layout_success (layout : list obj) :
  Forall (fun m => forall m', TypeLibABC.fix_bit m = Ok (true, m') ->
                              m' = to_bytes m) layout ->
  forall succeed r,
    TypeLibABC.fix_bit_layout TypeLibABC.fix_bit layout succeed = Ok r ->
    fst r = true ->
    succeed = true /\ snd r = map to_bytes layout.
Proof.
  induction 1 as [|m layout Hm _ IH]; intros succeed r Hr Hok.
  - simpl in Hr. injection Hr as <-. simpl in Hok. auto.
  - destruct m; cbn [TypeLibABC.fix_bit_layout] in Hr;
      try (destruct (TypeLibABC.fix_bit_layout TypeLibABC.fix_bit layout
                                               succeed)
             as [r0|] eqn:E; [|discriminate Hr];
           cbn [bind] in Hr; injection Hr as <-; cbn [fst snd] in *;
           destruct (IH _ _ E Hok) as [-> ->]; split; reflexivity).
    + (* Field *)
      destruct (succeed && (size mod 8 =? 0)) eqn:Es; cbn [negb] in Hr.
      * destruct (TypeLibABC.fix_bit_layout TypeLibABC.fix_bit layout true)
          as [r0|] eqn:E; [|discriminate Hr].
        cbn [bind] in Hr. injection Hr as <-. cbn [fst snd] in *.
        destruct (IH _ _ E Hok) as [_ ->].
        apply andb_true_iff in Es as [-> _]. split; reflexivity.
      * injection Hr as <-. discriminate Hok.
    + (* Struct *)
      destruct (TypeLibABC.fix_bit (Struct name layout0 size)) as [r1|] eqn:E1;
        [|discriminate Hr].
      cbn [bind] in Hr.
      destruct (TypeLibABC.fix_bit_layout TypeLibABC.fix_bit layout
                                          (succeed && fst r1))
        as [r0|] eqn:E; [|discriminate Hr].
      cbn [bind] in Hr. injection Hr as <-. cbn [fst snd] in *.
      destruct (IH _ _ E Hok) as [Hs ->].
      apply andb_true_iff in Hs as [-> Hr1].
      destruct r1 as [ok1 m1]. simpl in Hr1. subst ok1.
      rewrite (Hm m1 eq_refl). split; reflexivity.
Qed.

(** On values: when the conversion succeeds, every Field size, at every
    depth of nested Structs, is divided by 8 and every Struct size is the
    sum of its members' sizes. *)
Lemma fix_bit_success (t t' : obj) :
  TypeLibABC.fix_bit t = Ok (true, t') -> t' = to_bytes t.
Proof.
  revert t'.
  induction t as [n s|n es et|tn| | |n|s|n tn s|n layout s Hl
                 |n members padding s Hm Hp] using obj_nested_ind;
    intros t' H; try discriminate H.
  cbn [TypeLibABC.fix_bit] in H.
  destruct (TypeLibABC.fix_bit_layout TypeLibABC.fix_bit layout true)
    as [r|] eqn:E; [|discriminate H].
  cbn [bind] in H. injection H as Hok <-.
  destruct (fix_bit_layout_success layout Hl _ _ E Hok) as [_ ->].
  reflexivity.
Qed.

(** ** Which objects survive the round trip *)

Lemma as_objs_list_map (l : list obj) :
  TypeLibCodec.as_objs_list (map TypeLibCodec.PObj l) = Ok l.
Proof. induction l as [|x l IH]; simpl; [reflexivity | now rewrite IH]. Qed.

Lemma decode_items_layout (l : list obj) :
  Forall (fun a => union_free a = true ->
                   exists a',
                     TypeLibCodec.decode (TypeLibCodec.obj_to_json a)
                       = Ok (TypeLibCodec.PObj a') /\
                     py_eq a' a = true) l ->
  forallb union_free l = true ->
  exists l',
    TypeLibCodec.decode_items TypeLibCodec.decode
                              (map TypeLibCodec.obj_to_json l)
      = Ok (map TypeLibCodec.PObj l') /\
    tuple_eq py_eq l' l = true.
Proof.
  induction 1 as [|a l Ha _ IH]; simpl; intros Hu.
  - exists []. split; reflexivity.
  - apply andb_true_iff in Hu as [Hua Hul].
    destruct (Ha Hua) as (a' & -> & Hea).
    destruct (IH Hul) as (l' & -> & Hel).
    exists (a' :: l'). simpl. rewrite Hea, Hel. split; reflexivity.
Qed.

(** Every object without a Union in it decodes to an equal object. *)
Lemma union_free_decodes_equal (t : obj) :
  union_free t = true ->
  exists t',
    TypeLibCodec.decode (TypeLibCodec.obj_to_json t) = Ok (TypeLibCodec.PObj t')
    /\ py_eq t' t = true.
Proof.
  induction t as [n s|n es et|tn| | |n|s|n tn s|n layout s Hl
                 |n members padding s Hm Hp] using obj_nested_ind;
    intros Hu; try discriminate Hu;
    try (eexists; split; [reflexivity | apply py_eq_refl]).
  - destruct n; eexists; (split; [reflexivity | apply py_eq_refl]).
  - simpl in Hu.
    destruct (decode_items_layout layout Hl Hu) as (l' & Hd & He).
    exists (Struct_init n l'). split.
    + cbn [TypeLibCodec.obj_to_json TypeLibCodec.decode
           TypeLibCodec.decode_members].
      rewrite Hd.
      destruct n; cbn; rewrite as_objs_list_map; reflexivity.
    + simpl. rewrite He.
      destruct n; simpl; [rewrite String.eqb_refl|]; reflexivity.
Qed.

(** X23: every object with no Union in it survives the round trip:
    [decode(encode(t)) == t]. *)
Lemma union_free_round_trips (t : obj) :
  union_free t = true ->
  TypeLibCodec.round_trips (TypeLibCodec.CObj t) = true.
Proof.
  intros Hu. destruct (union_free_decodes_equal t Hu) as (t' & Hd & He).
  unfold TypeLibCodec.round_trips. cbn [TypeLibCodec.encode].
  rewrite Hd. exact He.
Qed.

(** X24: every Union whose members and padding hold no Union is read back
    as [Void], whatever its name, members and padding. *)
Lemma Union_decodes_Void (n : option string) (members : list obj)
      (padding : option obj) (s : Z) :
  forallb union_free members = true ->
  match padding with Some p => union_free p | None => true end = true ->
  TypeLibCodec.decode (TypeLibCodec.obj_to_json (Union n members padding s))
  = Ok (TypeLibCodec.PObj Void).
Proof.
  intros Hm Hp.
  assert (Hall : Forall (fun a => union_free a = true ->
                   exists a',
                     TypeLibCodec.decode (TypeLibCodec.obj_to_json a)
                       = Ok (TypeLibCodec.PObj a') /\
                     py_eq a' a = true) members).
  { apply Forall_forall. intros a _. apply union_free_decodes_equal. }
  destruct (decode_items_layout members Hall Hm) as (l' & Hd & _).
  cbn [TypeLibCodec.obj_to_json TypeLibCodec.decode
       TypeLibCodec.decode_members].
  rewrite Hd.
  destruct padding as [p|].
  - destruct (union_free_decodes_equal p Hp) as (p' & -> & _).
    destruct n; reflexivity.
  - destruct n; reflexivity.
Qed.

(** ** The stored frequency after [add_n] *)

Lemma py_eq_erase_l (a a' b : obj) :
  erase a = erase a' -> py_eq a b = py_eq a' b.
Proof.
  intros H. destruct (py_eq a b) eqn:E1, (py_eq a' b) eqn:E2; try reflexivity.
  - apply py_eq_erase in E1. rewrite H in E1. apply py_eq_erase in E1.
    congruence.
  - apply py_eq_erase in E2. rewrite <- H in E2. apply py_eq_erase in E2.
    congruence.
Qed.

Lemma py_eq_erase_r (a b b' : obj) :
  erase b = erase b' -> py_eq a b = py_eq a b'.
Proof. intros H. rewrite !(py_eq_sym a). now apply py_eq_erase_l. Qed.

Lemma contains_false (d : ValueSortedDict.t) (item : obj) :
  ValueSortedDict.contains d item = false <->
  forall e, In e d -> py_eq (typeinfo e) item = false.
Proof.
  unfold ValueSortedDict.contains. split.
  - intros H e He. destruct (py_eq (typeinfo e) item) eqn:E; [|reflexivity].
    assert (existsb (fun e => py_eq (typeinfo e) item) d = true)
      by (apply existsb_exists; eauto).
    congruence.
  - intros H. apply not_true_is_false. intros Hex.
    apply existsb_exists in Hex as (e & He & Hpe).
    rewrite (H e He) in Hpe. discriminate Hpe.
Qed.

Lemma get_None (d : ValueSortedDict.t) (item : obj) :
  ValueSortedDict.contains d item = false ->
  ValueSortedDict.get d item = None.
Proof.
  intros H. unfold ValueSortedDict.get.
  destruct (find _ d) as [e|] eqn:E; [|reflexivity].
  apply find_some in E as [Hin He].
  rewrite (proj1 (contains_false d item) H e Hin) in He. discriminate He.
Qed.

(** An absent item is inserted with the frequency [n]. *)
Lemma add_n_absent (self : EntryList.t) (item : obj) (n : Z) :
  ValueSortedDict.contains (EntryList._data self) item = false ->
  EntryList.add_n self item n =
  (EntryList.mk
     (ValueSortedDict.insort (EntryList._data self) (mkEntry (0 + n) item)),
   Ok true).
Proof.
  intros H. unfold EntryList.add_n, ValueSortedDict.setitem.
  rewrite H, (get_None _ _ H). reflexivity.
Qed.

Lemma get_insort_fresh (d : ValueSortedDict.t) (v : Entry) (item : obj) :
  (forall e, In e d -> py_eq (typeinfo e) item = false) ->
  py_eq (typeinfo v) item = true ->
  ValueSortedDict.get (ValueSortedDict.insort d v) item = Some v.
Proof.
  unfold ValueSortedDict.get.
  induction d as [|x d IH]; simpl; intros Hd Hv.
  - now rewrite Hv.
  - destruct (EntryM.lt v x); simpl.
    + now rewrite Hv.
    + rewrite (Hd x) by now left. apply IH; [|exact Hv].
      intros e He. apply Hd. now right.
Qed.

(** What [SortedKeyList.remove] takes out, when it returns *)
Lemma remove_scan_splits (run : list Entry) (old : Entry) (key : obj)
      (d' : list Entry) :
  ValueSortedDict.remove_scan run old key = Ok d' ->
  exists l1 e l2,
    run = l1 ++ e :: l2 /\ d' = l1 ++ l2 /\ py_eq (typeinfo e) key = true.
Proof.
  revert d'. induction run as [|x run IH]; simpl; intros d' H.
  - discriminate H.
  - destruct (EntryM.ne x old); [discriminate H|].
    destruct (py_eq (typeinfo x) key) eqn:E.
    + injection H as <-. exists [], x, run. auto.
    + destruct (ValueSortedDict.remove_scan run old key) as [r|];
        [|discriminate H].
      simpl in H. injection H as <-.
      destruct (IH r eq_refl) as (l1 & e & l2 & -> & -> & He).
      exists (x :: l1), e, l2. auto.
Qed.

Lemma list_remove_splits (d : ValueSortedDict.t) (old : Entry) (key : obj)
      (d' : list Entry) :
  ValueSortedDict.list_remove d old key = Ok d' ->
  exists l1 e l2,
    d = l1 ++ e :: l2 /\ d' = l1 ++ l2 /\ py_eq (typeinfo e) key = true.
Proof.
  revert d'. induction d as [|x d IH]; intros d' H.
  - discriminate H.
  - cbn [ValueSortedDict.list_remove] in H. destruct (EntryM.lt x old).
    + destruct (ValueSortedDict.list_remove d old key) as [r|];
        [|discriminate H].
      simpl in H. injection H as <-.
      destruct (IH r eq_refl) as (l1 & e & l2 & -> & -> & He).
      exists (x :: l1), e, l2. auto.
    + now apply remove_scan_splits in H.
Qed.

Lemma unique_keys_others (l1 l2 : list Entry) (e : Entry) (item : obj) :
  unique_keys (l1 ++ e :: l2) = true ->
  py_eq (typeinfo e) item = true ->
  forall x, In x (l1 ++ l2) -> py_eq (typeinfo x) item = false.
Proof.
  intros Hu He x Hx.
  destruct (py_eq (typeinfo x) item) eqn:Ex; [|reflexivity].
  assert (Hxe : py_eq (typeinfo x) (typeinfo e) = true).
  { eapply py_eq_trans; [exact Ex|]. now rewrite py_eq_sym. }
  apply in_app_or in Hx as [Hx | Hx].
  - rewrite (unique_keys_fresh l1 e l2 Hu x Hx) in Hxe. discriminate Hxe.
  - clear -Hu Hx Hxe. induction l1 as [|a l1 IH]; simpl in Hu.
    + apply andb_true_iff in Hu as [Hu _]. apply negb_true_iff in Hu.
      assert (existsb (fun y => py_eq (typeinfo e) (typeinfo y)) l2 = true).
      { apply existsb_exists. exists x. split; [exact Hx|].
        now rewrite py_eq_sym. }
      congruence.
    + apply andb_true_iff in Hu as [_ Hu]. now apply IH.
Qed.

(** X9: whenever [add_n] returns on a list with one entry for each type,
    the frequency stored for [item] is then the one it had plus [n] when it
    was present, and [n] (that is, [0 + n]) otherwise. *)
Lemma add_n_stored_frequency (self self' : EntryList.t) (item : obj) (n : Z)
      (b : bool) :
  unique_keys (EntryList._data self) = true ->
  EntryList.add_n self item n = (self', Ok b) ->
  ValueSortedDict.get (EntryList._data self') item
  = Some (match ValueSortedDict.get (EntryList._data self) item with
          | Some e => mkEntry (frequency e + n) (typeinfo e)
          | None => mkEntry (0 + n) item
          end).
Proof.
  intros Hu. unfold EntryList.add_n, ValueSortedDict.setitem.
  destruct (ValueSortedDict.contains (EntryList._data self) item) eqn:Ec.
  - destruct (contains_get _ _ Ec) as (e & -> & _ & He).
    destruct (ValueSortedDict.list_remove _ e item) as [d'|] eqn:Er;
      simpl; intros H; [|discriminate H].
    injection H as <- _. cbn [EntryList._data].
    apply list_remove_splits in Er as (l1 & x & l2 & Hd & -> & Hx).
    apply get_insort_fresh; [|exact He].
    rewrite Hd in Hu. now apply (unique_keys_others l1 l2 x).
  - rewrite (get_None _ _ Ec). intros H. injection H as <- _.
    cbn [EntryList._data].
    apply get_insort_fresh; [now apply contains_false | apply py_eq_refl].
Qed.

(** It does not always return: when another type of the same frequency
    comes first in the sorted list, removing the key of the item from the
    list raises [ValueError]. *)
Lemma add_n_raises_behind_a_tie :
  let el := EntryList.init [mkEntry 1 (TypeInfo (Some "int") 4);
                            mkEntry 1 (TypeInfo (Some "uint") 4)] in
  EntryList.add_n el (TypeInfo (Some "uint") 4) 1 = (el, Raise ValueError).
Proof. reflexivity. Qed.

(** ** What [fix] does to its receiver and what it returns *)

Lemma fix_bit_layout_erase (layout : list obj) :
  Forall (fun m => forall r, TypeLibABC.fix_bit m = Ok r ->
                             erase (snd r) = erase m) layout ->
  forall succeed r,
    TypeLibABC.fix_bit_layout TypeLibABC.fix_bit layout succeed = Ok r ->
    map erase (snd r) = map erase layout.
Proof.
  induction 1 as [|m layout Hm _ IH]; intros succeed r Hr.
  - simpl in Hr. now injection Hr as <-.
  - destruct m; cbn [TypeLibABC.fix_bit_layout] in Hr;
      try (destruct (TypeLibABC.fix_bit_layout TypeLibABC.fix_bit layout
                                               succeed)
             as [r0|] eqn:E; [|discriminate Hr];
           cbn [bind] in Hr; injection Hr as <-; cbn [snd map];
           now rewrite (IH _ _ E)).
    + destruct (negb (succeed && (size mod 8 =? 0))).
      * now injection Hr as <-.
      * destruct (TypeLibABC.fix_bit_layout TypeLibABC.fix_bit layout
                                            (succeed && (size mod 8 =? 0)))
          as [r0|] eqn:E; [|discriminate Hr].
        cbn [bind] in Hr. injection Hr as <-. cbn [snd map erase].
        now rewrite (IH _ _ E).
    + destruct (TypeLibABC.fix_bit (Struct name layout0 size)) as [r1|] eqn:E1;
        [|discriminate Hr].
      cbn [bind] in Hr.
      destruct (TypeLibABC.fix_bit_layout TypeLibABC.fix_bit layout
                                          (succeed && fst r1))
        as [r0|] eqn:E; [|discriminate Hr].
      cbn [bind] in Hr. injection Hr as <-. cbn [snd map].
      now rewrite (IH _ _ E), (Hm r1 eq_refl).
Qed.

(** [fix_bit] changes sizes only: the object stays equal to itself. *)
Lemma fix_bit_erase (t : obj) :
  forall r, TypeLibABC.fix_bit t = Ok r -> erase (snd r) = erase t.
Proof.
  induction t as [n s|n es et|tn| | |n|s|n tn s|n layout s Hl
                 |n members padding s Hm Hp] using obj_nested_ind;
    intros r H; try discriminate H.
  cbn [TypeLibABC.fix_bit] in H.
  destruct (TypeLibABC.fix_bit_layout TypeLibABC.fix_bit layout true)
    as [r0|] eqn:E; [|discriminate H].
  cbn [bind] in H. injection H as <-. cbn [snd erase].
  now rewrite (fix_bit_layout_erase layout Hl _ _ E).
Qed.

Lemma fixed_entry_erase (e : Entry) :
  erase (typeinfo (fixed_entry e)) = erase (typeinfo e).
Proof.
  unfold fixed_entry. cbn [typeinfo].
  destruct (TypeLibABC.fix_bit (typeinfo e)) as [r|] eqn:E; [|reflexivity].
  now apply fix_bit_erase.
Qed.

Lemma library_entries_dict_set_empty (d : list (Z * EntryList.t)) (key : Z)
      (x : Entry) :
  In x (library_entries (TypeLibABC.dict_set d key (EntryList.init []))) ->
  In x (library_entries d).
Proof.
  induction d as [|[k v] d IH]; simpl.
  - intros [].
  - destruct (k =? key); simpl; intros H.
    + apply in_or_app. now right.
    + apply in_app_or in H as [H | H]; apply in_or_app; auto.
Qed.

(** Adding an entry whose type the library does not hold is an insertion. *)
Lemma dict_call_add_entry (d : list (Z * EntryList.t)) (key : Z)
      (entry : Entry) :
  (forall x, In x (library_entries d) ->
             py_eq (typeinfo x) (typeinfo entry) = false) ->
  exists d',
    TypeLibABC.dict_call d key (fun bucket => EntryList.add_entry bucket entry)
      = (d', Ok true) /\
    forall x, In x (library_entries d') ->
              typeinfo x = typeinfo entry \/ In x (library_entries d).
Proof.
  induction d as [|[k v] d IH]; intros Hfresh.
  - eexists. split; [reflexivity|].
    simpl. intros x [<- | []]. now left.
  - cbn [TypeLibABC.dict_call]. destruct (k =? key).
    + unfold EntryList.add_entry. rewrite add_n_absent.
      * eexists. split; [reflexivity|].
        simpl. intros x Hx. apply in_app_or in Hx as [Hx | Hx].
        -- apply In_insort in Hx as [-> | Hx]; [now left|].
           right. apply in_or_app. now left.
        -- right. apply in_or_app. now right.
      * apply contains_false. intros e He. apply Hfresh.
        simpl. apply in_or_app. now left.
    + destruct IH as (d' & -> & Hd').
      * intros x Hx. apply Hfresh. simpl. apply in_or_app. now right.
      * eexists. split; [reflexivity|].
        simpl. intros x Hx. apply in_app_or in Hx as [Hx | Hx].
        -- right. apply in_or_app. now left.
        -- destruct (Hd' x Hx) as [Ht | Hin]; [now left|].
           right. apply in_or_app. now right.
Qed.

(** * Further properties of the offset algebra *)

Lemma displace_zero (l : list Z) : displace 0 l = l.
Proof.
  unfold displace. rewrite <- (map_id l) at 2.
  apply map_ext. intros x. lia.
Qed.

Lemma issubset_refl (l : list Z) : issubset l l = true.
Proof.
  unfold issubset. apply forallb_forall. intros x Hx.
  apply existsb_exists. exists x. split; [exact Hx | apply Z.eqb_refl].
Qed.

Lemma tuple_eqb_refl (l : list Z) : tuple_eqb l l = true.
Proof.
  induction l as [|x l IH]; simpl; [reflexivity|].
  now rewrite Z.eqb_refl, IH.
Qed.

(** X1: a type whose offset methods return is replaceable by the sequence
    made of itself alone, unless it is a FunctionPointer, which nothing
    replaces. *)
Theorem replacable_with_itself (t : obj) (s a i : list Z) :
  start_offsets t = Ok s ->
  accessible_offsets t = Ok a ->
  inaccessible_offsets t = Ok i ->
  replacable_with t [t] =
  Ok (match t with FunctionPointer _ => false | _ => true end).
Proof.
  intros Hs Ha Hi.
  assert (Hgen : TypeInfo_replacable_with t [t] = Ok true).
  { unfold TypeInfo_replacable_with.
    replace (py_sum (map size_of [t])) with (size_of t)
      by (unfold py_sum; simpl; lia).
    rewrite Z.eqb_refl. cbn [negb replacable_loop].
    rewrite Hs, Ha, Hi. cbn [bind app].
    rewrite !displace_zero, issubset_refl, !tuple_eqb_refl. reflexivity. }
  destruct t; try exact Hgen; try discriminate Hs. reflexivity.
Qed.

Lemma replacable_with_itself_witness :
  start_offsets (Struct_init None [Field "a" "int" 4; Padding 4]) = Ok [0] /\
  accessible_offsets (Struct_init None [Field "a" "int" 4; Padding 4])
    = Ok [0; 1; 2; 3] /\
  inaccessible_offsets (Struct_init None [Field "a" "int" 4; Padding 4])
    = Ok [4; 5; 6; 7] /\
  replacable_with (Struct_init None [Field "a" "int" 4; Padding 4])
                  [Struct_init None [Field "a" "int" 4; Padding 4]]
    = Ok true.
Proof.
  repeat (split; [reflexivity|]).
  apply (replacable_with_itself
           (Struct_init None [Field "a" "int" 4; Padding 4])
           [0] [0; 1; 2; 3] [4; 5; 6; 7]); reflexivity.
Defined.

(** X2: the start offsets of an Array of [nelements] elements of a positive
    [element_size] are the multiples [0, element_size, ...,
    (nelements - 1) * element_size]. *)
Theorem Array_start_offsets_multiples (nelements element_size : Z)
        (element_type : string) :
  0 < element_size -> 0 <= nelements ->
  start_offsets (Array nelements element_size element_type) =
  Ok (map (fun i => Z.of_nat i * element_size)
          (seq 0 (Z.to_nat nelements))).
Proof.
  intros Hes Hn.
  unfold start_offsets, Array_start_offsets, py_range_step. cbn [size_of].
  destruct (Z.eqb_spec element_size 0) as [E|_]; [lia|].
  destruct (Z.leb_spec (element_size * nelements) 0) as [Hle|Hgt].
  - assert (nelements = 0) by nia. subst nelements. reflexivity.
  - destruct (Z.ltb_spec 0 element_size) as [_|E]; [|lia].
    do 3 f_equal.
    replace (element_size * nelements + element_size - 1)
      with (nelements * element_size + (element_size - 1)) by lia.
    rewrite Z.div_add_l by lia.
    rewrite (Z.div_small (element_size - 1) element_size) by lia. lia.
Qed.

Lemma Array_start_offsets_multiples_witness :
  0 < 4 /\ 0 <= 3 /\
  start_offsets (Array 3 4 "int") =
  Ok (map (fun i => Z.of_nat i * 4) (seq 0 (Z.to_nat 3))).
Proof.
  split; [lia|]. split; [lia|].
  apply (Array_start_offsets_multiples 3 4 "int"); lia.
Defined.

Lemma Struct_start_loop_acc (l : list obj) (off : Z) (acc : list Z) :
  Struct_start_loop l off acc = acc ++ Struct_start_loop l off [].
Proof.
  revert off acc. induction l as [|m l IH]; intros off acc; simpl.
  - now rewrite app_nil_r.
  - destruct (isinstance_Field m).
    + rewrite (IH _ (acc ++ _)), (IH _ [off]). now rewrite app_assoc.
    + apply IH.
Qed.

Lemma py_range_cons (a b : Z) :
  a < b -> py_range a b = a :: py_range (a + 1) b.
Proof.
  intros H. rewrite (py_range_split a (a + 1) b) by lia.
  unfold py_range at 1. replace (Z.to_nat (a + 1 - a)) with 1%nat by lia.
  simpl. f_equal. lia.
Qed.

Lemma Struct_starts_in_accessible (l : list obj) (off : Z) :
  fields_positive l = true ->
  incl (Struct_start_loop l off []) (Struct_accessible_loop l off []) /\
  hd_error (Struct_start_loop l off []) =
  hd_error (Struct_accessible_loop l off []).
Proof.
  unfold fields_positive. revert off.
  induction l as [|m l IH]; intros off H; simpl in *.
  - split; [apply incl_refl | reflexivity].
  - apply andb_true_iff in H as [Hm Hl].
    destruct (IH (off + size_of m) Hl) as [Hincl Hhd].
    destruct (isinstance_Field m); simpl in Hm.
    + apply Z.ltb_lt in Hm.
      rewrite Struct_start_loop_acc, Struct_accessible_loop_acc.
      rewrite (py_range_cons off (off + size_of m)) by lia.
      split; [|reflexivity].
      intros x [<- | Hx]; [now left|].
      right. apply in_or_app. right. now apply Hincl.
    + split; assumption.
Qed.

(** X3: in a Struct whose Fields all have a positive size, every start
    offset is an accessible offset, and the first start offset is the first
    accessible offset. *)
Theorem Struct_start_offsets_accessible (name : option string)
        (layout : list obj) (size : Z) :
  fields_positive layout = true ->
  exists s a,
    start_offsets (Struct name layout size) = Ok s /\
    accessible_offsets (Struct name layout size) = Ok a /\
    incl s a /\ hd_error s = hd_error a.
Proof.
  intros H.
  destruct (Struct_starts_in_accessible layout 0 H) as [Hincl Hhd].
  exists (Struct_start_offsets layout), (Struct_accessible_offsets layout).
  repeat split; assumption.
Qed.

Lemma Struct_start_offsets_accessible_witness :
  fields_positive [Padding 4; Field "a" "int" 4; Field "b" "char" 1] = true /\
  exists s a,
    start_offsets (Struct None [Padding 4; Field "a" "int" 4;
                                Field "b" "char" 1] 9) = Ok s /\
    accessible_offsets (Struct None [Padding 4; Field "a" "int" 4;
                                     Field "b" "char" 1] 9) = Ok a /\
    incl s a /\ hd_error s = hd_error a.
Proof.
  split; [reflexivity|].
  apply (Struct_start_offsets_accessible
           None [Padding 4; Field "a" "int" 4; Field "b" "char" 1] 9).
  reflexivity.
Defined.

(** * Laying types out one after the other *)

Lemma map_add_py_range (off size : Z) :
  map (fun a => off + a) (py_range 0 size) = py_range off (off + size).
Proof.
  unfold py_range. rewrite map_map.
  replace (Z.to_nat (off + size - off)) with (Z.to_nat (size - 0)) by lia.
  apply map_ext. intros i. lia.
Qed.

Lemma plain_type_accessible (t : obj) :
  plain_type t = true ->
  accessible_offsets t = Ok (py_range 0 (size_of t)) /\ 0 <= size_of t.
Proof.
  destruct t; simpl; intros H; try discriminate H;
    (split; [reflexivity | lia]).
Qed.

Lemma accessible_of_plain_types_loop (types : list obj) :
  forallb plain_type types = true ->
  forall offset accessible,
    TypeLibABC.accessible_of_types_loop types offset accessible =
    Ok (accessible ++
        py_range offset (offset + py_sum (map size_of types))).
Proof.
  induction types as [|t types IH]; intros H offset accessible.
  - simpl. rewrite py_range_nil by (unfold py_sum; simpl; lia).
    now rewrite app_nil_r.
  - simpl in H. apply andb_true_iff in H as [Ht Hts].
    destruct (plain_type_accessible t Ht) as [Ha Hsz].
    cbn [TypeLibABC.accessible_of_types_loop map]. rewrite Ha. cbn [bind].
    rewrite (IH Hts), map_add_py_range, <- app_assoc, py_sum_cons.
    assert (0 <= py_sum (map size_of types)).
    { clear -Hts. induction types as [|x l IHl]; simpl in *.
      - unfold py_sum. simpl. lia.
      - apply andb_true_iff in Hts as [Hx Hl]. rewrite py_sum_cons.
        destruct (plain_type_accessible x Hx). specialize (IHl Hl). lia. }
    rewrite (py_range_split offset (offset + size_of t)
                            (offset + (size_of t + py_sum (map size_of types))))
      by lia.
    replace (offset + size_of t + py_sum (map size_of types))
      with (offset + (size_of t + py_sum (map size_of types))) by lia.
    reflexivity.
Qed.

(** X4: for scalars, arrays and pointers laid out one after the other,
    [accessible_of_types] is the whole range [0 .. total size - 1]. *)
Theorem accessible_of_plain_types (types : list obj) :
  forallb plain_type types = true ->
  TypeLibABC.accessible_of_types types =
  Ok (py_range 0 (py_sum (map size_of types))).
Proof.
  intros H. unfold TypeLibABC.accessible_of_types.
  now rewrite (accessible_of_plain_types_loop types H).
Qed.

Lemma accessible_of_plain_types_witness :
  forallb plain_type [TypeInfo (Some "int") 4; Pointer "char";
                      Array 2 2 "short"] = true /\
  TypeLibABC.accessible_of_types [TypeInfo (Some "int") 4; Pointer "char";
                                  Array 2 2 "short"] =
  Ok (py_range 0 (py_sum (map size_of [TypeInfo (Some "int") 4;
                                       Pointer "char"; Array 2 2 "short"]))).
Proof.
  split; [reflexivity|].
  apply (accessible_of_plain_types
           [TypeInfo (Some "int") 4; Pointer "char"; Array 2 2 "short"]).
  reflexivity.
Defined.

Lemma accessible_of_types_loop_shift (types : list obj) :
  forall offset accessible,
    TypeLibABC.accessible_of_types_loop types offset accessible =
    r <- TypeLibABC.accessible_of_types_loop types 0 [] ;;
    Ok (accessible ++ map (fun a => offset + a) r).
Proof.
  induction types as [|t types IH]; intros offset accessible.
  - simpl. now rewrite app_nil_r.
  - cbn [TypeLibABC.accessible_of_types_loop].
    destruct (accessible_offsets t) as [a|e]; [|reflexivity]. cbn [bind].
    rewrite (IH (offset + size_of t)), (IH (0 + size_of t)).
    destruct (TypeLibABC.accessible_of_types_loop types 0 []) as [r|e];
      [|reflexivity].
    cbn [bind app]. rewrite map_app, !map_map, <- app_assoc.
    do 2 f_equal. f_equal; apply map_ext; intros x; lia.
Qed.

Lemma accessible_of_types_loop_app (ts1 ts2 : list obj) :
  forall offset accessible,
    TypeLibABC.accessible_of_types_loop (ts1 ++ ts2) offset accessible =
    r <- TypeLibABC.accessible_of_types_loop ts1 offset accessible ;;
    TypeLibABC.accessible_of_types_loop
      ts2 (offset + py_sum (map size_of ts1)) r.
Proof.
  induction ts1 as [|t ts1 IH]; intros offset accessible.
  - simpl. replace (offset + py_sum []) with offset
      by (unfold py_sum; simpl; lia). reflexivity.
  - cbn [app TypeLibABC.accessible_of_types_loop map].
    destruct (accessible_offsets t) as [a|e]; [|reflexivity]. cbn [bind].
    rewrite IH, py_sum_cons.
    replace (offset + size_of t + py_sum (map size_of ts1))
      with (offset + (size_of t + py_sum (map size_of ts1))) by lia.
    reflexivity.
Qed.

(** X5: the accessible offsets of two sequences of types laid out one after
    the other are those of the first, followed by those of the second moved
    up by the total size of the first. *)
Theorem accessible_of_types_app (ts1 ts2 : list obj) (a1 a2 : list Z) :
  TypeLibABC.accessible_of_types ts1 = Ok a1 ->
  TypeLibABC.accessible_of_types ts2 = Ok a2 ->
  TypeLibABC.accessible_of_types (ts1 ++ ts2) =
  Ok (a1 ++ map (fun a => py_sum (map size_of ts1) + a) a2).
Proof.
  unfold TypeLibABC.accessible_of_types. intros H1 H2.
  rewrite accessible_of_types_loop_app, H1. cbn [bind].
  rewrite accessible_of_types_loop_shift, H2. cbn [bind].
  now rewrite Z.add_0_l.
Qed.

Lemma accessible_of_types_app_witness :
  TypeLibABC.accessible_of_types
    [Struct_init None [Field "a" "char" 1; Padding 1]] = Ok [0] /\
  TypeLibABC.accessible_of_types [TypeInfo (Some "short") 2] = Ok [0; 1] /\
  TypeLibABC.accessible_of_types
    ([Struct_init None [Field "a" "char" 1; Padding 1]]
       ++ [TypeInfo (Some "short") 2]) =
  Ok ([0] ++ map (fun a => py_sum (map size_of
                     [Struct_init None [Field "a" "char" 1; Padding 1]]) + a)
                 [0; 1]).
Proof.
  split; [reflexivity|]. split; [reflexivity|].
  apply (accessible_of_types_app
           [Struct_init None [Field "a" "char" 1; Padding 1]]
           [TypeInfo (Some "short") 2] [0] [0; 1]); reflexivity.
Defined.

Lemma start_offsets_of_types_loop_shift (types : list obj) :
  forall offset starts,
    TypeLibABC.start_offsets_of_types_loop types offset starts =
    r <- TypeLibABC.start_offsets_of_types_loop types 0 [] ;;
    Ok (starts ++ map (fun a => offset + a) r).
Proof.
  induction types as [|t types IH]; intros offset starts.
  - simpl. now rewrite app_nil_r.
  - cbn [TypeLibABC.start_offsets_of_types_loop].
    destruct (start_offsets t) as [a|e]; [|reflexivity]. cbn [bind].
    rewrite (IH (offset + size_of t)), (IH (0 + size_of t)).
    destruct (TypeLibABC.start_offsets_of_types_loop types 0 []) as [r|e];
      [|reflexivity].
    cbn [bind app]. rewrite map_app, !map_map, <- app_assoc.
    do 2 f_equal. f_equal; apply map_ext; intros x; lia.
Qed.

Lemma start_offsets_of_types_loop_app (ts1 ts2 : list obj) :
  forall offset starts,
    TypeLibABC.start_offsets_of_types_loop (ts1 ++ ts2) offset starts =
    r <- TypeLibABC.start_offsets_of_types_loop ts1 offset starts ;;
    TypeLibABC.start_offsets_of_types_loop
      ts2 (offset + py_sum (map size_of ts1)) r.
Proof.
  induction ts1 as [|t ts1 IH]; intros offset starts.
  - simpl. replace (offset + py_sum []) with offset
      by (unfold py_sum; simpl; lia). reflexivity.
  - cbn [app TypeLibABC.start_offsets_of_types_loop map].
    destruct (start_offsets t) as [a|e]; [|reflexivity]. cbn [bind].
    rewrite IH, py_sum_cons.
    replace (offset + size_of t + py_sum (map size_of ts1))
      with (offset + (size_of t + py_sum (map size_of ts1))) by lia.
    reflexivity.
Qed.

(** X6: the same for the start offsets: those of the first sequence, then
    those of the second moved up by the total size of the first. *)
Theorem start_offsets_of_types_app (ts1 ts2 : list obj) (s1 s2 : list Z) :
  TypeLibABC.start_offsets_of_types ts1 = Ok s1 ->
  TypeLibABC.start_offsets_of_types ts2 = Ok s2 ->
  TypeLibABC.start_offsets_of_types (ts1 ++ ts2) =
  Ok (s1 ++ map (fun a => py_sum (map size_of ts1) + a) s2).
Proof.
  unfold TypeLibABC.start_offsets_of_types. intros H1 H2.
  rewrite start_offsets_of_types_loop_app, H1. cbn [bind].
  rewrite start_offsets_of_types_loop_shift, H2. cbn [bind].
  now rewrite Z.add_0_l.
Qed.

Lemma start_offsets_of_types_app_witness :
  TypeLibABC.start_offsets_of_types [Array 2 4 "int"] = Ok [0; 4] /\
  TypeLibABC.start_offsets_of_types [TypeInfo (Some "short") 2] = Ok [0] /\
  TypeLibABC.start_offsets_of_types
    ([Array 2 4 "int"] ++ [TypeInfo (Some "short") 2]) =
  Ok ([0; 4] ++ map (fun a => py_sum (map size_of [Array 2 4 "int"]) + a)
                    [0]).
Proof.
  split; [reflexivity|]. split; [reflexivity|].
  apply (start_offsets_of_types_app
           [Array 2 4 "int"] [TypeInfo (Some "short") 2] [0; 4] [0]);
    reflexivity.
Defined.

(** * The invariants of an EntryList: sorted, one entry per type *)

Lemma sorted_insort (d : ValueSortedDict.t) (v : Entry) :
  sorted_by_frequency d = true ->
  sorted_by_frequency (ValueSortedDict.insort d v) = true.
Proof.
  induction d as [|e d IH]; simpl; intros H; [reflexivity|].
  apply andb_true_iff in H as [He Hd].
  unfold EntryM.lt. destruct (Z.ltb_spec (frequency v) (frequency e)).
  - cbn [sorted_by_frequency forallb]. rewrite He, Hd, !andb_true_r.
    apply andb_true_iff. split; [apply Z.leb_le; lia|].
    apply forallb_forall. intros x Hx.
    rewrite forallb_forall in He. specialize (He x Hx).
    apply Z.leb_le in He. apply Z.leb_le. lia.
  - cbn [sorted_by_frequency]. rewrite (IH Hd), andb_true_r.
    apply forallb_forall. intros x Hx.
    apply In_insort in Hx as [-> | Hx]; [apply Z.leb_le; lia|].
    rewrite forallb_forall in He. now apply He.
Qed.

Lemma sorted_of_dict (plain : list Entry) :
  sorted_by_frequency (ValueSortedDict.of_dict plain) = true.
Proof.
  unfold ValueSortedDict.of_dict.
  assert (H : forall acc, sorted_by_frequency acc = true ->
                          sorted_by_frequency
                            (fold_left ValueSortedDict.insort plain acc)
                          = true).
  { induction plain as [|x plain IH]; intros acc Hacc; simpl; [exact Hacc|].
    apply IH. now apply sorted_insort. }
  now apply H.
Qed.

Lemma unique_keys_cons (e : Entry) (d : list Entry) :
  unique_keys (e :: d) = true <->
  (forall x, In x d -> py_eq (typeinfo e) (typeinfo x) = false) /\
  unique_keys d = true.
Proof.
  simpl. rewrite andb_true_iff, negb_true_iff. split; intros [H1 H2].
  - split; [|exact H2]. intros x Hx.
    destruct (py_eq (typeinfo e) (typeinfo x)) eqn:E; [|reflexivity].
    assert (existsb (fun x => py_eq (typeinfo e) (typeinfo x)) d = true)
      by (apply existsb_exists; eauto).
    congruence.
  - split; [|exact H2]. apply not_true_is_false. intros Hex.
    apply existsb_exists in Hex as (x & Hx & Hpx).
    rewrite (H1 x Hx) in Hpx. discriminate Hpx.
Qed.

Lemma unique_insort (d : ValueSortedDict.t) (v : Entry) :
  unique_keys d = true ->
  (forall e, In e d -> py_eq (typeinfo e) (typeinfo v) = false) ->
  unique_keys (ValueSortedDict.insort d v) = true.
Proof.
  induction d as [|e d IH]; intros Hu Hv.
  - reflexivity.
  - cbn [ValueSortedDict.insort]. apply unique_keys_cons in Hu as [He Hd].
    destruct (EntryM.lt v e).
    + apply unique_keys_cons. split.
      * intros x Hx. rewrite py_eq_sym. now apply Hv.
      * apply unique_keys_cons. auto.
    + apply unique_keys_cons. split.
      * intros x Hx. apply In_insort in Hx as [-> | Hx].
        -- apply Hv. now left.
        -- now apply He.
      * apply IH; [exact Hd|]. intros x Hx. apply Hv. now right.
Qed.

Lemma unique_of_dict (plain : list Entry) :
  unique_keys plain = true ->
  unique_keys (ValueSortedDict.of_dict plain) = true.
Proof.
  unfold ValueSortedDict.of_dict.
  assert (H : forall acc,
             unique_keys acc = true -> unique_keys plain = true ->
             (forall a x, In a acc -> In x plain ->
                          py_eq (typeinfo a) (typeinfo x) = false) ->
             unique_keys (fold_left ValueSortedDict.insort plain acc) = true).
  { induction plain as [|x plain IH]; intros acc Hacc Hp Hcross; simpl;
      [exact Hacc|].
    apply unique_keys_cons in Hp as [Hx Hp].
    apply IH; [|exact Hp|].
    - apply unique_insort; [exact Hacc|].
      intros e He. apply Hcross; [exact He | now left].
    - intros a y Ha Hy. apply In_insort in Ha as [-> | Ha].
      + now apply Hx.
      + apply Hcross; [exact Ha | now right]. }
  intros Hp. apply H; [reflexivity | exact Hp | intros a x []].
Qed.

Lemma In_plain_set (d : list Entry) (v x : Entry) :
  In x (ValueSortedDict.plain_set d v) -> x = v \/ In x d.
Proof.
  induction d as [|e d IH]; simpl.
  - intros [<- | []]. now left.
  - destruct (py_eq (typeinfo e) (typeinfo v)); simpl.
    + intros [<- | H]; auto.
    + intros [<- | H]; auto. destruct (IH H); auto.
Qed.

Lemma unique_plain_set (d : list Entry) (v : Entry) :
  unique_keys d = true ->
  unique_keys (ValueSortedDict.plain_set d v) = true.
Proof.
  induction d as [|e d IH]; intros Hu; [reflexivity|].
  cbn [ValueSortedDict.plain_set].
  apply unique_keys_cons in Hu as [He Hd].
  destruct (py_eq (typeinfo e) (typeinfo v)) eqn:E.
  - apply unique_keys_cons. split; [|exact Hd].
    intros x Hx.
    rewrite (py_eq_erase_l _ (typeinfo e)); [now apply He|].
    symmetry. now apply py_eq_erase.
  - apply unique_keys_cons. split; [|now apply IH].
    intros x Hx. apply In_plain_set in Hx as [-> | Hx]; [exact E|].
    now apply He.
Qed.

Lemma unique_fold_plain_set (data acc : list Entry) :
  unique_keys acc = true ->
  unique_keys (fold_left ValueSortedDict.plain_set data acc) = true.
Proof.
  revert acc. induction data as [|x data IH]; intros acc H; simpl;
    [exact H|].
  apply IH. now apply unique_plain_set.
Qed.

(** X7: whatever entries it is built from, an EntryList is sorted by
    frequency and holds each type once; so is a list after [prune]. *)
Theorem EntryList_built_sorted_unique (data : list Entry)
        (self : EntryList.t) (freq : Z) :
  sorted_by_frequency (EntryList._data (EntryList.init data)) = true /\
  unique_keys (EntryList._data (EntryList.init data)) = true /\
  sorted_by_frequency (EntryList._data (EntryList.prune self freq)) = true /\
  unique_keys (EntryList._data (EntryList.prune self freq)) = true.
Proof.
  unfold EntryList.init, EntryList.prune, EntryList._initialize_data.
  cbn [EntryList._data].
  repeat split;
    try apply sorted_of_dict;
    apply unique_of_dict, unique_fold_plain_set; reflexivity.
Qed.

Lemma sorted_remove_middle (l1 l2 : list Entry) (e : Entry) :
  sorted_by_frequency (l1 ++ e :: l2) = true ->
  sorted_by_frequency (l1 ++ l2) = true.
Proof.
  induction l1 as [|x l1 IH]; simpl; intros H.
  - now apply andb_true_iff in H as [_ H].
  - apply andb_true_iff in H as [Hx Hl]. rewrite (IH Hl), andb_true_r.
    rewrite forallb_app in *. apply andb_true_iff in Hx as [H1 H2].
    simpl in H2. apply andb_true_iff in H2 as [_ H2]. now rewrite H1, H2.
Qed.

Lemma unique_remove_middle (l1 l2 : list Entry) (e : Entry) :
  unique_keys (l1 ++ e :: l2) = true -> unique_keys (l1 ++ l2) = true.
Proof.
  induction l1 as [|x l1 IH]; intros H.
  - now apply unique_keys_cons in H as [_ H].
  - cbn [app] in *. apply unique_keys_cons in H as [Hx Hl].
    apply unique_keys_cons. split; [|now apply IH].
    intros y Hy. apply Hx. apply in_app_or in Hy as [Hy | Hy];
      apply in_or_app; [now left | right; now right].
Qed.

(** X8: [add_n] keeps an EntryList sorted by frequency and with one entry
    per type, whether it returns or raises. *)
Theorem add_n_keeps_sorted_unique (self : EntryList.t) (item : obj) (n : Z) :
  sorted_by_frequency (EntryList._data self) = true ->
  unique_keys (EntryList._data self) = true ->
  sorted_by_frequency
    (EntryList._data (fst (EntryList.add_n self item n))) = true /\
  unique_keys (EntryList._data (fst (EntryList.add_n self item n))) = true.
Proof.
  intros Hs Hu. unfold EntryList.add_n, ValueSortedDict.setitem.
  destruct (ValueSortedDict.contains (EntryList._data self) item) eqn:Ec.
  - destruct (contains_get _ _ Ec) as (old & -> & _ & Hold).
    destruct (ValueSortedDict.list_remove _ old item) as [d'|] eqn:Er;
      cbn [bind fst EntryList._data]; [|auto].
    apply list_remove_splits in Er as (l1 & x & l2 & Hd & -> & Hx).
    rewrite Hd in Hs, Hu. split.
    + apply sorted_insort. eapply sorted_remove_middle; eassumption.
    + apply unique_insort; [eapply unique_remove_middle; eassumption|].
      intros e He. cbn [EntryM.inc typeinfo].
      rewrite (py_eq_erase_r _ _ item) by now apply py_eq_erase.
      now apply (unique_keys_others l1 l2 x).
  - rewrite (get_None _ _ Ec). cbn [fst EntryList._data]. split.
    + now apply sorted_insort.
    + apply unique_insort; [exact Hu|]. now apply contains_false.
Qed.

Lemma add_n_keeps_sorted_unique_witness :
  sorted_by_frequency
    (EntryList._data (EntryList.init [mkEntry 2 (Pointer "char");
                                      mkEntry 1 Void])) = true /\
  unique_keys
    (EntryList._data (EntryList.init [mkEntry 2 (Pointer "char");
                                      mkEntry 1 Void])) = true /\
  sorted_by_frequency
    (EntryList._data
       (fst (EntryList.add_n (EntryList.init [mkEntry 2 (Pointer "char");
                                              mkEntry 1 Void]) Void 5)))
    = true /\
  unique_keys
    (EntryList._data
       (fst (EntryList.add_n (EntryList.init [mkEntry 2 (Pointer "char");
                                              mkEntry 1 Void]) Void 5)))
    = true.
Proof.
  split; [reflexivity|]. split; [reflexivity|].
  apply (add_n_keeps_sorted_unique
           (EntryList.init [mkEntry 2 (Pointer "char"); mkEntry 1 Void])
           Void 5); reflexivity.
Defined.

Lemma add_n_stored_frequency_witness :
  unique_keys
    (EntryList._data (EntryList.init [mkEntry 2 (Pointer "char");
                                      mkEntry 1 Void])) = true /\
  EntryList.add_n (EntryList.init [mkEntry 2 (Pointer "char");
                                   mkEntry 1 Void]) Void 5 =
  (EntryList.mk [mkEntry 2 (Pointer "char"); mkEntry 6 Void], Ok true) /\
  ValueSortedDict.get [mkEntry 2 (Pointer "char"); mkEntry 6 Void] Void
  = Some (mkEntry 6 Void).
Proof.
  split; [reflexivity|]. split; [reflexivity|].
  apply (add_n_stored_frequency
           (EntryList.init [mkEntry 2 (Pointer "char"); mkEntry 1 Void])
           (EntryList.mk [mkEntry 2 (Pointer "char"); mkEntry 6 Void])
           Void 5 true); reflexivity.
Defined.

Lemma EntryList_prune_keeps_witness :
  unique_keys
    (EntryList._data (EntryList.init [mkEntry 2 (Pointer "char");
                                      mkEntry 1 Void])) = true /\
  (In (mkEntry 2 (Pointer "char"))
      (EntryList._data
         (EntryList.prune (EntryList.init [mkEntry 2 (Pointer "char");
                                           mkEntry 1 Void]) 2)) <->
   In (mkEntry 2 (Pointer "char"))
      (EntryList._data (EntryList.init [mkEntry 2 (Pointer "char");
                                        mkEntry 1 Void])) /\
   2 <= frequency (mkEntry 2 (Pointer "char"))).
Proof.
  split; [reflexivity|].
  apply (EntryList_prune_keeps
           (EntryList.init [mkEntry 2 (Pointer "char"); mkEntry 1 Void])
           2 (mkEntry 2 (Pointer "char"))).
  reflexivity.
Defined.

Lemma get_contains (d : ValueSortedDict.t) (item : obj) (e : Entry) :
  ValueSortedDict.get d item = Some e ->
  ValueSortedDict.contains d item = true.
Proof.
  unfold ValueSortedDict.get, ValueSortedDict.contains. intros H.
  apply find_some in H as [Hin He]. apply existsb_exists. eauto.
Qed.

Lemma list_remove_behind_tie (l1 l2 : list Entry) (x old : Entry)
      (key : obj) :
  (forall e, In e l1 -> frequency e < frequency old) ->
  frequency x = frequency old ->
  py_eq (typeinfo x) (typeinfo old) = false ->
  ValueSortedDict.list_remove (l1 ++ x :: l2) old key = Raise ValueError.
Proof.
  intros Hl1 Hx Hne. induction l1 as [|e l1 IH].
  - cbn [app ValueSortedDict.list_remove]. unfold EntryM.lt.
    destruct (Z.ltb_spec (frequency x) (frequency old)); [lia|].
    cbn [ValueSortedDict.remove_scan]. unfold EntryM.ne.
    now rewrite Hne, andb_false_r.
  - cbn [app ValueSortedDict.list_remove]. unfold EntryM.lt.
    destruct (Z.ltb_spec (frequency e) (frequency old)) as [_|Hge].
    + rewrite IH; [reflexivity|]. intros y Hy. apply Hl1. now right.
    + specialize (Hl1 e (or_introl eq_refl)). lia.
Qed.

(** X10: [add_n] of an item that is present raises [ValueError], and
    leaves the list as it was, when the first entry of the item's frequency
    in the sorted list is an entry of another type. *)
Theorem add_n_raises_behind_tie (self : EntryList.t) (item : obj) (n : Z)
        (old x : Entry) (l1 l2 : list Entry) :
  ValueSortedDict.get (EntryList._data self) item = Some old ->
  EntryList._data self = l1 ++ x :: l2 ->
  (forall e, In e l1 -> frequency e < frequency old) ->
  frequency x = frequency old ->
  py_eq (typeinfo x) (typeinfo old) = false ->
  EntryList.add_n self item n = (self, Raise ValueError).
Proof.
  intros Hget Hd Hl1 Hx Hne.
  unfold EntryList.add_n, ValueSortedDict.setitem.
  rewrite (get_contains _ _ _ Hget), Hget, Hd.
  now rewrite (list_remove_behind_tie l1 l2 x old item Hl1 Hx Hne).
Qed.

Lemma add_n_raises_behind_tie_witness :
  ValueSortedDict.get
    (EntryList._data (EntryList.mk [mkEntry 1 Void; mkEntry 2 Disappear;
                                    mkEntry 2 (Pointer "char")]))
    (Pointer "char") = Some (mkEntry 2 (Pointer "char")) /\
  EntryList._data (EntryList.mk [mkEntry 1 Void; mkEntry 2 Disappear;
                                 mkEntry 2 (Pointer "char")])
  = [mkEntry 1 Void] ++ mkEntry 2 Disappear :: [mkEntry 2 (Pointer "char")] /\
  EntryList.add_n (EntryList.mk [mkEntry 1 Void; mkEntry 2 Disappear;
                                 mkEntry 2 (Pointer "char")])
                  (Pointer "char") 1
  = (EntryList.mk [mkEntry 1 Void; mkEntry 2 Disappear;
                   mkEntry 2 (Pointer "char")], Raise ValueError).
Proof.
  split; [reflexivity|]. split; [reflexivity|].
  apply (add_n_raises_behind_tie
           (EntryList.mk [mkEntry 1 Void; mkEntry 2 Disappear;
                          mkEntry 2 (Pointer "char")])
           (Pointer "char") 1 (mkEntry 2 (Pointer "char"))
           (mkEntry 2 Disappear) [mkEntry 1 Void]
           [mkEntry 2 (Pointer "char")]);
    try reflexivity.
  intros e [<- | []]. simpl. lia.
Defined.

(** ** Access by rank *)

Lemma sorted_nth_le (d : list Entry) :
  sorted_by_frequency d = true ->
  forall i j ei ej,
    (i <= j)%nat -> nth_error d i = Some ei -> nth_error d j = Some ej ->
    frequency ei <= frequency ej.
Proof.
  induction d as [|e d IH]; intros Hs i j ei ej Hij Hi Hj.
  - destruct i; discriminate Hi.
  - simpl in Hs. apply andb_true_iff in Hs as [He Hd].
    destruct i as [|i], j as [|j]; simpl in Hi, Hj.
    + injection Hi as <-. injection Hj as <-. lia.
    + injection Hi as <-. apply nth_error_In in Hj.
      rewrite forallb_forall in He. apply Z.leb_le. now apply He.
    + lia.
    + apply (IH Hd i j); [lia | assumption | assumption].
Qed.

Lemma getitem_at (self : EntryList.t) (k : Z) (e : Entry) :
  0 <= k ->
  nth_error (EntryList._data self) (Z.to_nat k) = Some e ->
  EntryList.getitem self k = Ok e.
Proof.
  intros Hk He. unfold EntryList.getitem, EntryList.len. cbv zeta.
  assert (Z.to_nat k < List.length (EntryList._data self))%nat
    by (apply nth_error_Some; congruence).
  destruct (Z.ltb_spec k 0); [lia|].
  destruct (Z.ltb_spec k 0); [lia|].
  destruct (Z.leb_spec (Z.of_nat (List.length (EntryList._data self))) k);
    [lia|].
  cbn [orb]. now rewrite He.
Qed.

Lemma getitem_from_end (self : EntryList.t) (k : Z) (e : Entry) :
  k < 0 -> 0 <= k + EntryList.len self ->
  nth_error (EntryList._data self) (Z.to_nat (k + EntryList.len self))
    = Some e ->
  EntryList.getitem self k = Ok e.
Proof.
  intros Hk Hk' He. unfold EntryList.getitem, EntryList.len in *. cbv zeta.
  assert (Z.to_nat (k + Z.of_nat (List.length (EntryList._data self)))
          < List.length (EntryList._data self))%nat
    by (apply nth_error_Some; congruence).
  destruct (Z.ltb_spec k 0); [|lia].
  destruct (Z.ltb_spec (k + Z.of_nat (List.length (EntryList._data self))) 0);
    [lia|].
  destruct (Z.leb_spec (Z.of_nat (List.length (EntryList._data self)))
                       (k + Z.of_nat (List.length (EntryList._data self))));
    [lia|].
  cbn [orb]. now rewrite He.
Qed.

(** X11: in a sorted EntryList, [self[i]] for a rank [i] within the length
    returns, and a lower rank never has a higher frequency: [self[0]] is a
    least frequent entry and [self[-1]] a most frequent one. *)
Theorem getitem_ordered (self : EntryList.t) (i j : Z) :
  sorted_by_frequency (EntryList._data self) = true ->
  0 <= i -> i <= j -> j < EntryList.len self ->
  exists ei ej elast,
    EntryList.getitem self i = Ok ei /\
    EntryList.getitem self j = Ok ej /\
    EntryList.getitem self (-1) = Ok elast /\
    frequency ei <= frequency ej /\ frequency ej <= frequency elast.
Proof.
  intros Hs Hi Hij Hj.
  assert (Hlen : EntryList.len self =
                 Z.of_nat (List.length (EntryList._data self)))
    by reflexivity.
  assert (Hnth : forall k, 0 <= k < EntryList.len self ->
                           exists e, nth_error (EntryList._data self)
                                               (Z.to_nat k) = Some e).
  { intros k Hk.
    destruct (nth_error (EntryList._data self) (Z.to_nat k)) as [e|] eqn:E;
      [eauto|]. apply nth_error_None in E. lia. }
  destruct (Hnth i) as [ei Hei]; [lia|].
  destruct (Hnth j) as [ej Hej]; [lia|].
  destruct (Hnth (-1 + EntryList.len self)) as [el Hel]; [lia|].
  exists ei, ej, el.
  split; [apply getitem_at; [lia | exact Hei]|].
  split; [apply getitem_at; [lia | exact Hej]|].
  split; [apply getitem_from_end; [lia | lia | exact Hel]|].
  split.
  - apply (sorted_nth_le _ Hs (Z.to_nat i) (Z.to_nat j)); [lia | | ];
      assumption.
  - apply (sorted_nth_le _ Hs (Z.to_nat j)
                         (Z.to_nat (-1 + EntryList.len self)));
      [lia | | ]; assumption.
Qed.

Lemma getitem_ordered_witness :
  sorted_by_frequency
    (EntryList._data (EntryList.init [mkEntry 2 (Pointer "char");
                                      mkEntry 1 Void])) = true /\
  0 <= 0 /\ 0 <= 1 /\
  1 < EntryList.len (EntryList.init [mkEntry 2 (Pointer "char");
                                     mkEntry 1 Void]) /\
  exists ei ej elast,
    EntryList.getitem (EntryList.init [mkEntry 2 (Pointer "char");
                                       mkEntry 1 Void]) 0 = Ok ei /\
    EntryList.getitem (EntryList.init [mkEntry 2 (Pointer "char");
                                       mkEntry 1 Void]) 1 = Ok ej /\
    EntryList.getitem (EntryList.init [mkEntry 2 (Pointer "char");
                                       mkEntry 1 Void]) (-1) = Ok elast /\
    frequency ei <= frequency ej /\ frequency ej <= frequency elast.
Proof.
  split; [reflexivity|]. split; [lia|]. split; [lia|].
  split; [reflexivity|].
  apply (getitem_ordered
           (EntryList.init [mkEntry 2 (Pointer "char"); mkEntry 1 Void])
           0 1); [reflexivity | lia | lia | reflexivity].
Defined.

(** X12: an index outside the list, from either end, is an [IndexError]. *)
Theorem getitem_out_of_range (self : EntryList.t) (i : Z) :
  EntryList.len self <= i \/ i < - EntryList.len self ->
  EntryList.getitem self i = Raise IndexError.
Proof.
  intros H. unfold EntryList.getitem.
  assert (0 <= EntryList.len self) by (unfold EntryList.len; lia).
  destruct (Z.ltb_spec i 0).
  - destruct (Z.ltb_spec (i + EntryList.len self) 0); [reflexivity|lia].
  - destruct (Z.ltb_spec i 0); [lia|].
    destruct (Z.leb_spec (EntryList.len self) i); [reflexivity|lia].
Qed.

Lemma getitem_out_of_range_witness :
  (EntryList.len (EntryList.init []) <= 0 \/
   0 < - EntryList.len (EntryList.init [])) /\
  EntryList.getitem (EntryList.init []) 0 = Raise IndexError.
Proof.
  split; [left; reflexivity|].
  apply (getitem_out_of_range (EntryList.init []) 0). left. reflexivity.
Defined.

(** ** Merging adds the frequencies up *)

Lemma total_insort (d : ValueSortedDict.t) (v : Entry) :
  py_sum (map frequency (ValueSortedDict.insort d v)) =
  py_sum (map frequency d) + frequency v.
Proof.
  induction d as [|e d IH]; cbn [ValueSortedDict.insort map].
  - rewrite py_sum_cons. unfold py_sum. simpl. lia.
  - destruct (EntryM.lt v e); cbn [map]; rewrite !py_sum_cons.
    + lia.
    + rewrite IH. lia.
Qed.

Lemma remove_scan_total (run : list Entry) (old : Entry) (key : obj)
      (d' : list Entry) :
  ValueSortedDict.remove_scan run old key = Ok d' ->
  py_sum (map frequency run) = py_sum (map frequency d') + frequency old.
Proof.
  revert d'. induction run as [|x run IH]; simpl; intros d' H.
  - discriminate H.
  - unfold EntryM.ne in H.
    destruct ((frequency x =? frequency old) &&
              py_eq (typeinfo x) (typeinfo old)) eqn:E;
      cbn [negb] in H; [|discriminate H].
    apply andb_true_iff in E as [E _]. apply Z.eqb_eq in E.
    destruct (py_eq (typeinfo x) key).
    + injection H as <-. rewrite py_sum_cons. lia.
    + destruct (ValueSortedDict.remove_scan run old key) as [r|];
        [|discriminate H].
      simpl in H. injection H as <-. cbn [map]. rewrite !py_sum_cons.
      rewrite (IH r eq_refl). lia.
Qed.

Lemma list_remove_total (d : ValueSortedDict.t) (old : Entry) (key : obj)
      (d' : list Entry) :
  ValueSortedDict.list_remove d old key = Ok d' ->
  py_sum (map frequency d) = py_sum (map frequency d') + frequency old.
Proof.
  revert d'. induction d as [|x d IH]; intros d' H.
  - discriminate H.
  - cbn [ValueSortedDict.list_remove] in H. destruct (EntryM.lt x old).
    + destruct (ValueSortedDict.list_remove d old key) as [r|];
        [|discriminate H].
      simpl in H. injection H as <-. cbn [map]. rewrite !py_sum_cons.
      rewrite (IH r eq_refl). lia.
    + now apply remove_scan_total in H.
Qed.

Lemma add_n_total (self self' : EntryList.t) (item : obj) (n : Z) (b : bool) :
  EntryList.add_n self item n = (self', Ok b) ->
  EntryList.total_frequency self' = EntryList.total_frequency self + n.
Proof.
  unfold EntryList.add_n, ValueSortedDict.setitem, EntryList.total_frequency.
  destruct (ValueSortedDict.contains (EntryList._data self) item) eqn:Ec.
  - destruct (contains_get _ _ Ec) as (old & -> & _ & _).
    destruct (ValueSortedDict.list_remove _ old item) as [d'|] eqn:Er;
      simpl; intros H; [|discriminate H].
    injection H as <- _. cbn [EntryList._data].
    rewrite total_insort, (list_remove_total _ _ _ _ Er). simpl. lia.
  - rewrite (get_None _ _ Ec). intros H. injection H as <- _.
    cbn [EntryList._data]. rewrite total_insort. simpl. lia.
Qed.

Lemma add_all_loop_total (entries : list Entry) :
  forall self self',
    EntryList.add_all_loop self entries = (self', Ok tt) ->
    EntryList.total_frequency self' =
    EntryList.total_frequency self + py_sum (map frequency entries).
Proof.
  induction entries as [|e entries IH]; intros self self' H.
  - simpl in H. injection H as <-. unfold py_sum. simpl. lia.
  - cbn [EntryList.add_all_loop] in H.
    destruct (EntryList.add_entry self e) as [s1 [b|x]] eqn:E;
      [|discriminate H].
    apply add_n_total in E. apply IH in H.
    cbn [map]. rewrite py_sum_cons. lia.
Qed.

(** X13: when [self.add_all(other)] returns, for [other] a list of other
    contents than [self] (so that it is another object), the total frequency
    of [self] is the sum of the totals of the two lists: merging loses and
    invents no observation. *)
Theorem add_all_total_frequency (self other self' : EntryList.t) :
  self <> other ->
  EntryList.add_all self other = (self', Ok tt) ->
  EntryList.total_frequency self' =
  EntryList.total_frequency self + EntryList.total_frequency other.
Proof.
  unfold EntryList.add_all, EntryList.iter. intros _ H.
  now apply add_all_loop_total in H.
Qed.

Lemma add_all_total_frequency_witness :
  EntryList.init [mkEntry 2 (Pointer "char"); mkEntry 1 Void] <>
  EntryList.init [mkEntry 3 Void; mkEntry 4 Disappear] /\
  EntryList.add_all
    (EntryList.init [mkEntry 2 (Pointer "char"); mkEntry 1 Void])
    (EntryList.init [mkEntry 3 Void; mkEntry 4 Disappear])
  = (EntryList.mk [mkEntry 2 (Pointer "char"); mkEntry 4 Void;
                   mkEntry 4 Disappear], Ok tt) /\
  EntryList.total_frequency
    (EntryList.mk [mkEntry 2 (Pointer "char"); mkEntry 4 Void;
                   mkEntry 4 Disappear]) =
  EntryList.total_frequency
    (EntryList.init [mkEntry 2 (Pointer "char"); mkEntry 1 Void]) +
  EntryList.total_frequency
    (EntryList.init [mkEntry 3 Void; mkEntry 4 Disappear]).
Proof.
  split; [discriminate|]. split; [reflexivity|].
  apply (add_all_total_frequency
           (EntryList.init [mkEntry 2 (Pointer "char"); mkEntry 1 Void])
           (EntryList.init [mkEntry 3 Void; mkEntry 4 Disappear])
           (EntryList.mk [mkEntry 2 (Pointer "char"); mkEntry 4 Void;
                          mkEntry 4 Disappear])).
  - discriminate.
  - reflexivity.
Defined.

(** * The buckets of a library *)

Lemma prune_raises_witness :
  some_bucket_empties (TypeLibABC._data sample_library) 2 = true /\
  snd (TypeLibABC.prune sample_library 2) = Raise RuntimeError.
Proof.
  split; [reflexivity|].
  apply (prune_raises_when_a_bucket_empties sample_library 2). reflexivity.
Defined.

Lemma prune_returns_witness :
  some_bucket_empties (TypeLibABC._data sample_library) 1 = false /\
  TypeLibABC.prune sample_library 1 =
  (TypeLibABC.mk
     (map (fun kv => (fst kv, EntryList.prune (snd kv) 1))
          (TypeLibABC._data sample_library))
     (TypeLibABC.cached_replacement_dict sample_library),
   Ok tt).
Proof.
  split; [reflexivity|].
  apply (prune_returns_when_no_bucket_empties sample_library 1). reflexivity.
Defined.

Lemma add_entry_types (self : EntryList.t) (entry e : Entry) :
  In e (EntryList._data (fst (EntryList.add_entry self entry))) ->
  typeinfo e = typeinfo entry \/
  exists e', In e' (EntryList._data self) /\ typeinfo e = typeinfo e'.
Proof.
  unfold EntryList.add_entry, EntryList.add_n, ValueSortedDict.setitem.
  destruct (ValueSortedDict.contains (EntryList._data self) (typeinfo entry))
    eqn:Ec.
  - destruct (contains_get _ _ Ec) as (old & -> & Hold & _).
    destruct (ValueSortedDict.list_remove _ old _) as [d'|] eqn:Er;
      cbn [bind fst EntryList._data]; intros H.
    + apply In_insort in H as [-> | H].
      * right. exists old. auto.
      * apply list_remove_splits in Er as (l1 & x & l2 & Hd & -> & _).
        right. exists e. split; [|reflexivity]. rewrite Hd.
        apply in_app_or in H as [H | H]; apply in_or_app;
          [now left | right; now right].
    + right. exists e. auto.
  - rewrite (get_None _ _ Ec). cbn [fst EntryList._data]. intros H.
    apply In_insort in H as [-> | H]; [now left|].
    right. exists e. auto.
Qed.

Lemma add_all_loop_types (entries : list Entry) :
  forall self e,
    In e (EntryList._data (fst (EntryList.add_all_loop self entries))) ->
    (exists x, In x entries /\ typeinfo e = typeinfo x) \/
    exists e', In e' (EntryList._data self) /\ typeinfo e = typeinfo e'.
Proof.
  induction entries as [|x entries IH]; intros self e H.
  - right. exists e. auto.
  - cbn [EntryList.add_all_loop] in H.
    pose proof (add_entry_types self x) as Hx.
    destruct (EntryList.add_entry self x) as [s1 [b|err]]; cbn [fst] in *.
    + apply IH in H as [(y & Hy & Ht) | (e' & He' & Ht)].
      * left. exists y. split; [now right | exact Ht].
      * destruct (Hx e' He') as [Hq | (e'' & He'' & Hq)].
        -- left. exists x. split; [now left | congruence].
        -- right. exists e''. split; [exact He'' | congruence].
    + destruct (Hx e H) as [Hq | (e'' & He'' & Hq)].
      * left. exists x. split; [now left | exact Hq].
      * right. exists e''. auto.
Qed.

Lemma sizes_match_keys_spec (data : list (Z * EntryList.t)) :
  sizes_match_keys data = true <->
  forall k b e, In (k, b) data -> In e (EntryList._data b) ->
                size_of (typeinfo e) = k.
Proof.
  unfold sizes_match_keys. rewrite forallb_forall. split.
  - intros H k b e Hkb He. specialize (H (k, b) Hkb). cbn [fst snd] in H.
    rewrite forallb_forall in H. apply Z.eqb_eq. now apply H.
  - intros H [k b] Hkb. cbn [fst snd]. apply forallb_forall. intros e He.
    apply Z.eqb_eq. now apply (H k b e).
Qed.

Lemma dict_call_buckets {A : Type} (d : list (Z * EntryList.t)) (key : Z)
      (f : EntryList.t -> EntryList.t * result A) (k : Z) (b : EntryList.t) :
  In (k, b) (fst (TypeLibABC.dict_call d key f)) ->
  In (k, b) d \/
  k = key /\ exists b0, b = fst (f b0) /\
                        (In (key, b0) d \/ b0 = EntryList.init []).
Proof.
  induction d as [|[k0 v] d IH]; cbn [TypeLibABC.dict_call].
  - destruct (f (EntryList.init [])) as [b1 r] eqn:E. cbn [fst].
    intros [H | []]. injection H as <- <-. right. split; [reflexivity|].
    exists (EntryList.init []). rewrite E. auto.
  - destruct (Z.eqb_spec k0 key) as [->|Hne].
    + destruct (f v) as [b1 r] eqn:E. cbn [fst].
      intros [H | H]; [|left; now right].
      injection H as <- <-. right. split; [reflexivity|].
      exists v. rewrite E. split; [reflexivity|]. left. now left.
    + destruct (TypeLibABC.dict_call d key f) as [d' r] eqn:E.
      cbn [fst] in *. intros [H | H].
      * left. now left.
      * destruct (IH H) as [Hin | (-> & b0 & -> & [Hb0 | ->])].
        -- left. now right.
        -- right. split; [reflexivity|]. exists b0.
           split; [reflexivity|]. left. now right.
        -- right. split; [reflexivity|]. exists (EntryList.init []).
           split; [reflexivity|]. now right.
Qed.

Lemma add_as_add_entry_list (lib : TypeLibABC.t) (typ : obj) :
  TypeLibABC.add lib typ =
  TypeLibABC.add_entry_list lib (size_of typ) (EntryList.mk [mkEntry 1 typ]).
Proof. reflexivity. Qed.

Lemma dict_set_buckets (d : list (Z * EntryList.t)) (key : Z)
      (item : EntryList.t) (k : Z) (b : EntryList.t) :
  In (k, b) (TypeLibABC.dict_set d key item) ->
  In (k, b) d \/ (k = key /\ b = item).
Proof.
  induction d as [|[k0 v] d IH]; simpl.
  - intros [H | []]. injection H as <- <-. now right.
  - destruct (Z.eqb_spec k0 key) as [->|Hne].
    + intros [H | H]; [|left; now right].
      injection H as <- <-. now right.
    + intros [H | H]; [left; now left|].
      destruct (IH H); [left; now right | now right].
Qed.

Lemma add_n_contains (self : EntryList.t) (item : obj) (n : Z) :
  ValueSortedDict.contains
    (EntryList._data (fst (EntryList.add_n self item n))) item = true.
Proof.
  unfold EntryList.add_n, ValueSortedDict.setitem.
  destruct (ValueSortedDict.contains (EntryList._data self) item) eqn:Ec.
  - destruct (contains_get _ _ Ec) as (old & -> & _ & Hold).
    destruct (ValueSortedDict.list_remove _ old item) as [d'|];
      cbn [bind fst EntryList._data]; [|exact Ec].
    apply existsb_exists. exists (EntryM.inc old n).
    split; [apply In_insort_iff; now left | exact Hold].
  - rewrite (get_None _ _ Ec). cbn [fst EntryList._data].
    apply existsb_exists. exists (EntryM.inc (mkEntry 0 item) n).
    split; [apply In_insort_iff; now left | apply py_eq_refl].
Qed.

Lemma contains_nonempty (b : EntryList.t) (t : obj) :
  ValueSortedDict.contains (EntryList._data b) t = true ->
  negb (EntryList.len b =? 0) = true.
Proof.
  unfold ValueSortedDict.contains, EntryList.len.
  destruct (EntryList._data b) as [|e l]; [discriminate|]. intros _.
  apply negb_true_iff, Z.eqb_neq. cbn [List.length]. lia.
Qed.

(** X16: [add] keeps the bucket invariant of a library whose buckets all
    hold an entry: if every type sits in the bucket of its size before the
    call, so it does afterwards, and again no bucket is empty, whether the
    call returns or raises.  (A bucket object kept under two keys cannot
    hold an entry without breaking the invariant, so in such a library the
    buckets are separate objects.) *)
Theorem add_keeps_sizes_match_keys (lib : TypeLibABC.t) (typ : obj) :
  sizes_match_keys (TypeLibABC._data lib) = true ->
  buckets_nonempty (TypeLibABC._data lib) = true ->
  sizes_match_keys (TypeLibABC._data (fst (TypeLibABC.add lib typ))) = true /\
  buckets_nonempty (TypeLibABC._data (fst (TypeLibABC.add lib typ))) = true.
Proof.
  rewrite !sizes_match_keys_spec. unfold buckets_nonempty.
  rewrite !forallb_forall. intros Hinv Hne.
  assert (Hbuckets :
            forall k b,
              In (k, b) (TypeLibABC._data (fst (TypeLibABC.add lib typ))) ->
              In (k, b) (TypeLibABC._data lib) \/
              (k = size_of typ /\
               ValueSortedDict.contains (EntryList._data b) typ = true /\
               forall e, In e (EntryList._data b) ->
                         typeinfo e = typ \/
                         exists b0 e', In (k, b0) (TypeLibABC._data lib) /\
                                       In e' (EntryList._data b0) /\
                                       typeinfo e = typeinfo e')).
  { intros k b Hkb. rewrite add_as_add_entry_list in Hkb.
    unfold TypeLibABC.add_entry_list in Hkb.
    destruct (TypeLibABC.contains lib (size_of typ)).
    - pose proof (dict_call_buckets
                    (TypeLibABC._data lib) (size_of typ)
                    (fun bucket =>
                       EntryList.add_all bucket
                                         (EntryList.mk [mkEntry 1 typ])) k b)
        as Hd.
      destruct (TypeLibABC.dict_call _ _ _) as [d r]. cbn [fst] in *.
      destruct (Hd Hkb) as [Hin | (-> & b0 & -> & Hb0)]; [now left|].
      right. split; [reflexivity|]. split.
      + unfold EntryList.add_all, EntryList.iter.
        cbn [EntryList._data EntryList.add_all_loop].
        unfold EntryList.add_entry. cbn [typeinfo frequency].
        pose proof (add_n_contains b0 typ 1) as Hc.
        destruct (EntryList.add_n b0 typ 1) as [v' [ok|e]]; exact Hc.
      + intros e He. unfold EntryList.add_all, EntryList.iter in He.
        apply add_all_loop_types in He as [(x & Hx & ->) | (e' & He' & ->)].
        * destruct Hx as [<- | []]. now left.
        * destruct Hb0 as [Hb0 | ->]; [|destruct He'].
          right. exists b0, e'. auto.
    - cbn [fst TypeLibABC.setitem TypeLibABC._data] in Hkb.
      apply dict_set_buckets in Hkb as [Hin | [-> ->]]; [now left|].
      right. split; [reflexivity|]. split.
      + cbn. now rewrite py_eq_refl.
      + intros e [<- | []]. now left. }
  split.
  - intros k b e Hkb He.
    destruct (Hbuckets k b Hkb) as [Hin | (-> & _ & Htypes)].
    + now apply (Hinv k b e).
    + destruct (Htypes e He) as [-> | (b0 & e' & Hb0 & He' & ->)];
        [reflexivity|].
      now apply (Hinv _ b0 e').
  - intros [k b] Hkb. cbn [snd].
    destruct (Hbuckets k b Hkb) as [Hin | (_ & Hc & _)].
    + exact (Hne (k, b) Hin).
    + exact (contains_nonempty b typ Hc).
Qed.

Lemma add_keeps_sizes_match_keys_witness :
  sizes_match_keys (TypeLibABC._data sample_library) = true /\
  buckets_nonempty (TypeLibABC._data sample_library) = true /\
  sizes_match_keys
    (TypeLibABC._data
       (fst (TypeLibABC.add sample_library (TypeInfo (Some "uint") 4))))
  = true /\
  buckets_nonempty
    (TypeLibABC._data
       (fst (TypeLibABC.add sample_library (TypeInfo (Some "uint") 4))))
  = true.
Proof.
  split; [reflexivity|]. split; [reflexivity|].
  apply (add_keeps_sizes_match_keys
           sample_library (TypeInfo (Some "uint") 4)); reflexivity.
Defined.

Lemma find_dict_call {A : Type} (d : list (Z * EntryList.t)) (key : Z)
      (f : EntryList.t -> EntryList.t * result A) :
  exists v,
    find (fun kb => fst kb =? key) (fst (TypeLibABC.dict_call d key f))
    = Some (key, fst (f v)).
Proof.
  induction d as [|[k0 v] d IH]; cbn [TypeLibABC.dict_call].
  - exists (EntryList.init []).
    destruct (f (EntryList.init [])) as [b r]. cbn [fst find].
    now rewrite Z.eqb_refl.
  - destruct (Z.eqb_spec k0 key) as [->|Hne].
    + exists v. destruct (f v) as [b r]. cbn [fst find].
      now rewrite Z.eqb_refl.
    + destruct IH as [v0 Hv0]. exists v0.
      destruct (TypeLibABC.dict_call d key f) as [d' r].
      cbn [fst find] in *.
      destruct (Z.eqb_spec k0 key); [contradiction | exact Hv0].
Qed.

Lemma find_dict_set_absent (d : list (Z * EntryList.t)) (key : Z)
      (item : EntryList.t) :
  existsb (Z.eqb key) (map fst d) = false ->
  find (fun kb => fst kb =? key) (TypeLibABC.dict_set d key item)
  = Some (key, item).
Proof.
  induction d as [|[k0 v] d IH]; simpl; intros H.
  - now rewrite Z.eqb_refl.
  - apply orb_false_iff in H as [Hk Hd]. rewrite Z.eqb_sym in Hk.
    rewrite Hk. cbn [find fst]. rewrite Hk. now apply IH.
Qed.

(** X17: after [add(typ)], whether it returned or raised, the library has
    a bucket under the size of [typ] and that bucket holds [typ]. *)
Theorem add_then_contained (lib : TypeLibABC.t) (typ : obj) :
  exists bucket,
    find (fun kb => fst kb =? size_of typ)
         (TypeLibABC._data (fst (TypeLibABC.add lib typ)))
    = Some (size_of typ, bucket) /\
    ValueSortedDict.contains (EntryList._data bucket) typ = true.
Proof.
  rewrite add_as_add_entry_list. unfold TypeLibABC.add_entry_list.
  destruct (TypeLibABC.contains lib (size_of typ)) eqn:Ec.
  - destruct (find_dict_call
                (TypeLibABC._data lib) (size_of typ)
                (fun bucket =>
                   EntryList.add_all bucket (EntryList.mk [mkEntry 1 typ])))
      as [v Hv].
    destruct (TypeLibABC.dict_call _ _ _) as [d r]. cbn [fst] in *.
    eexists. split; [exact Hv|].
    unfold EntryList.add_all, EntryList.iter.
    cbn [EntryList._data EntryList.add_all_loop].
    unfold EntryList.add_entry. cbn [typeinfo frequency].
    pose proof (add_n_contains v typ 1) as Hc.
    destruct (EntryList.add_n v typ 1) as [v' [b|e]]; exact Hc.
  - cbn [fst TypeLibABC.setitem TypeLibABC._data].
    eexists. split; [now apply find_dict_set_absent|].
    simpl. now rewrite py_eq_refl.
Qed.

(** * Converting bits to bytes *)

Lemma fix_bit_unaligned_field_fails_witness :
  In (Field "b" "char" 33) [Field "a" "int" 32; Field "b" "char" 33] /\
  33 mod 8 <> 0 /\
  exists typ,
    TypeLibABC.fix_bit
      (Struct (Some "S") [Field "a" "int" 32; Field "b" "char" 33] 65)
    = Ok (false, typ).
Proof.
  split; [right; left; reflexivity|].
  split; [discriminate|].
  apply (fix_bit_unaligned_field_fails
           (Some "S") [Field "a" "int" 32; Field "b" "char" 33] 65
           "b" "char" 33); [right; left; reflexivity | discriminate].
Defined.

(** X20: [fix_bit] returns on every Struct, and the object it leaves is
    still equal ([==]) to the one it was given: the conversion touches only
    sizes that take no part in equality, so the keys of the dicts that hold it
    stay valid. *)
Theorem fix_bit_keeps_equality (name : option string) (layout : list obj)
        (size : Z) :
  exists succeed typ,
    TypeLibABC.fix_bit (Struct name layout size) = Ok (succeed, typ) /\
    py_eq typ (Struct name layout size) = true /\
    isinstance_Struct typ = true.
Proof.
  destruct (fix_bit_total (Struct name layout size) eq_refl) as [[ok typ] H].
  exists ok, typ. split; [exact H|]. split.
  - apply py_eq_erase. exact (fix_bit_erase _ _ H).
  - cbn [TypeLibABC.fix_bit] in H.
    destruct (TypeLibABC.fix_bit_layout _ _ _); [|discriminate H].
    cbn [bind] in H. now injection H as _ <-.
Qed.

(** * The replacement search *)

(** What every candidate of [get_next_replacements] satisfies *)
Lemma replacements_loop_aligned (sizes accessible start_offsets : list Z)
      (start : Z) :
  forall c reps,
    Forall (fun r : TypeLibABC.replacement =>
              incl (snd (fst r)) accessible /\ incl (snd r) start_offsets /\
              hd_error (snd r) = hd_error (snd (fst r))) reps ->
    Forall (fun r : TypeLibABC.replacement =>
              incl (snd (fst r)) accessible /\ incl (snd r) start_offsets /\
              hd_error (snd r) = hd_error (snd (fst r)))
           (snd (TypeLibABC.replacements_loop sizes accessible start_offsets
                                              start c reps)).
Proof.
  induction sizes as [|size sizes IH]; intros c reps Hreps; [exact Hreps|].
  cbn [TypeLibABC.replacements_loop]. cbv zeta.
  set (ra := filter (fun s => s >=? size + start) accessible).
  set (rs := filter (fun s => s >=? size + start) start_offsets).
  destruct (match rs, ra with
            | [], _ => false
            | _ :: _, [] => true
            | s0 :: _, a0 :: _ => negb (s0 =? a0)
            end) eqn:Emis; [now apply IH|].
  destruct (match rs, ra with
            | [], _ :: _ => true
            | _, _ => false
            end) eqn:Eun; [now apply IH|].
  destruct (TypeLibABC.cache_getitem c _) as [typs c'].
  apply IH. apply Forall_app. split; [exact Hreps|].
  constructor; [|constructor]. cbn [fst snd].
  split; [apply incl_filter|]. split; [apply incl_filter|].
  destruct rs as [|s0 rs'], ra as [|a0 ra']; try discriminate;
    try reflexivity.
  apply negb_false_iff, Z.eqb_eq in Emis. now subst.
Qed.

(** X21: every candidate [(types, rest_accessible, rest_start)] that
    [get_next_replacements] returns has remainders taken from the query and
    aligned again: both are empty, or they begin with the same offset.  So
    a remainder is a query the next call does not turn down. *)
Theorem get_next_replacements_aligned (lib lib' : TypeLibABC.t)
        (accessible start_offsets : list Z)
        (reps : list TypeLibABC.replacement) :
  TypeLibABC.get_next_replacements lib accessible start_offsets
    = (lib', Ok reps) ->
  forall types rest_accessible rest_start,
    In (types, rest_accessible, rest_start) reps ->
    incl rest_accessible accessible /\ incl rest_start start_offsets /\
    hd_error rest_start = hd_error rest_accessible.
Proof.
  unfold TypeLibABC.get_next_replacements. intros H types ra rs Hin.
  destruct (match TypeLibABC.cached_replacement_dict lib with
            | Some _ => (lib, Ok tt)
            | None => TypeLibABC.make_cached_replacement_dict lib
            end) as [l1 [[]|e]]; [|discriminate H].
  destruct (TypeLibABC.cached_replacement_dict l1) as [c|]; [|discriminate H].
  destruct accessible as [|start acc]; [discriminate H|].
  destruct start_offsets as [|s0 st]; [discriminate H|].
  destruct (negb (start =? s0)).
  - injection H as _ <-. destruct Hin.
  - destruct (py_last (start :: acc)) as [lst|e]; [|discriminate H].
    pose proof (replacements_loop_aligned
                  (filter (fun s => (s <=? lst - start + 1) && negb (s =? 0))
                          (TypeLibABC.keys l1))
                  (start :: acc) (s0 :: st) start c [] (Forall_nil _)) as HF.
    destruct (TypeLibABC.replacements_loop _ _ _ _ _ _) as [c' reps'].
    injection H as _ <-. cbn [snd] in HF.
    rewrite Forall_forall in HF. exact (HF _ Hin).
Qed.

Lemma get_next_replacements_aligned_witness :
  TypeLibABC.get_next_replacements
    (fst (TypeLibABC.add TypeLibABC.init (TypeInfo (Some "int") 4)))
    [0; 1; 2; 3; 4; 5; 6; 7] [0; 4]
  = (TypeLibABC.mk
       [(4, EntryList.mk [mkEntry 1 (TypeInfo (Some "int") 4)])]
       (Some [([0; 1; 2; 3], [0], [TypeInfo (Some "int") 4])]),
     Ok [([TypeInfo (Some "int") 4], [4; 5; 6; 7], [4])]) /\
  forall types rest_accessible rest_start,
    In (types, rest_accessible, rest_start)
       [([TypeInfo (Some "int") 4], [4; 5; 6; 7], [4])] ->
    incl rest_accessible [0; 1; 2; 3; 4; 5; 6; 7] /\
    incl rest_start [0; 4] /\
    hd_error rest_start = hd_error rest_accessible.
Proof.
  split; [reflexivity|].
  apply (get_next_replacements_aligned
           (fst (TypeLibABC.add TypeLibABC.init (TypeInfo (Some "int") 4)))
           (TypeLibABC.mk
              [(4, EntryList.mk [mkEntry 1 (TypeInfo (Some "int") 4)])]
              (Some [([0; 1; 2; 3], [0], [TypeInfo (Some "int") 4])]))
           [0; 1; 2; 3; 4; 5; 6; 7] [0; 4]).
  reflexivity.
Defined.

(** * Writing and reading back *)

Lemma union_free_round_trips_witness :
  union_free (Struct (Some "S")
                     [Field "a" "int" 4;
                      Struct None [Field "b" "char" 1; Padding 3] 4] 8) = true
  /\ TypeLibCodec.round_trips
       (TypeLibCodec.CObj
          (Struct (Some "S")
                  [Field "a" "int" 4;
                   Struct None [Field "b" "char" 1; Padding 3] 4] 8)) = true.
Proof.
  split; [reflexivity|].
  apply (union_free_round_trips
           (Struct (Some "S")
                   [Field "a" "int" 4;
                    Struct None [Field "b" "char" 1; Padding 3] 4] 8)).
  reflexivity.
Defined.

Lemma Union_decodes_Void_witness :
  forallb union_free [Field "i" "int" 4; Field "c" "char" 1] = true /\
  union_free (Padding 3) = true /\
  TypeLibCodec.decode
    (TypeLibCodec.obj_to_json
       (Union (Some "U") [Field "i" "int" 4; Field "c" "char" 1]
              (Some (Padding 3)) 7))
  = Ok (TypeLibCodec.PObj Void).
Proof.
  split; [reflexivity|]. split; [reflexivity|].
  apply (Union_decodes_Void
           (Some "U") [Field "i" "int" 4; Field "c" "char" 1]
           (Some (Padding 3)) 7); reflexivity.
Defined.

Lemma buckets_to_json_raises (data : list (Z * EntryList.t)) :
  existsb (fun kb => negb (EntryList.len (snd kb) =? 0)) data = true ->
  TypeLibCodec.TypeLib_buckets_to_json data = Raise TypeError.
Proof.
  induction data as [|[k b] data IH]; [discriminate|].
  cbn [existsb TypeLibCodec.TypeLib_buckets_to_json snd].
  unfold TypeLibCodec.EntryList_to_json, EntryList.len.
  destruct (EntryList._data b) as [|e es]; [|reflexivity].
  cbn [List.length Z.of_nat Z.eqb negb orb bind]. intros H.
  now rewrite (IH H).
Qed.

Lemma buckets_to_json_empty (data : list (Z * EntryList.t)) :
  existsb (fun kb => negb (EntryList.len (snd kb) =? 0)) data = false ->
  TypeLibCodec.TypeLib_buckets_to_json data
  = Ok (map (fun kb => (TypeLibCodec.str (fst kb), TypeLibCodec.JObj []))
            data).
Proof.
  induction data as [|[k b] data IH]; [reflexivity|].
  cbn [existsb TypeLibCodec.TypeLib_buckets_to_json snd fst map].
  unfold TypeLibCodec.EntryList_to_json, EntryList.len.
  destruct (EntryList._data b) as [|e es].
  - cbn [List.length Z.of_nat Z.eqb negb orb bind]. intros H.
    now rewrite (IH H).
  - intros H. apply orb_false_iff in H as [H _].
    apply negb_false_iff, Z.eqb_eq in H. cbn [List.length] in H. lia.
Qed.

(** X25: a library in which some bucket holds an entry cannot be written:
    [encode] raises [TypeError], because the bucket is handed to the JSON
    encoder as a dict keyed by type objects. *)
Theorem encode_library_with_entries_raises (lib : TypeLibABC.t) :
  existsb (fun kb => negb (EntryList.len (snd kb) =? 0))
          (TypeLibABC._data lib) = true ->
  TypeLibCodec.encode (TypeLibCodec.CTypeLib lib) = Raise TypeError.
Proof.
  intros H. cbn [TypeLibCodec.encode]. unfold TypeLibCodec.TypeLib_to_json.
  now rewrite (buckets_to_json_raises _ H).
Qed.

Lemma encode_library_with_entries_raises_witness :
  existsb (fun kb => negb (EntryList.len (snd kb) =? 0))
          (TypeLibABC._data sample_library) = true /\
  TypeLibCodec.encode (TypeLibCodec.CTypeLib sample_library)
  = Raise TypeError.
Proof.
  split; [reflexivity|].
  apply (encode_library_with_entries_raises sample_library). reflexivity.
Defined.

(** X26: no library that has a bucket survives [decode(encode(lib))]:
    with an entry in some bucket [encode] raises, and with empty buckets only
    the written document has objects without a tag, on which [decode]
    raises. *)
Theorem library_with_a_bucket_never_round_trips (lib : TypeLibABC.t) :
  TypeLibABC._data lib <> [] ->
  TypeLibCodec.round_trips (TypeLibCodec.CTypeLib lib) = false.
Proof.
  intros Hne. unfold TypeLibCodec.round_trips.
  cbn [TypeLibCodec.encode]. unfold TypeLibCodec.TypeLib_to_json.
  destruct (existsb (fun kb => negb (EntryList.len (snd kb) =? 0))
                    (TypeLibABC._data lib)) eqn:E.
  - now rewrite (buckets_to_json_raises _ E).
  - rewrite (buckets_to_json_empty _ E). cbn [bind].
    destruct (TypeLibABC._data lib) as [|[k b] rest]; [contradiction|].
    reflexivity.
Qed.

Lemma library_with_a_bucket_never_round_trips_witness :
  TypeLibABC._data (TypeLibABC.mk [(4, EntryList.init [])] None) <> [] /\
  TypeLibCodec.round_trips
    (TypeLibCodec.CTypeLib (TypeLibABC.mk [(4, EntryList.init [])] None))
  = false.
Proof.
  split; [discriminate|].
  apply (library_with_a_bucket_never_round_trips
           (TypeLibABC.mk [(4, EntryList.init [])] None)).
  discriminate.
Defined.

(** * Tokens and strings *)

Lemma detokenize_loop_plain (l rest ret cur : list string) :
  forallb (fun s => negb (String.eqb s "<eot>")) l = true ->
  Tokens.detokenize_loop (l ++ rest) ret cur
  = Tokens.detokenize_loop rest ret (cur ++ l).
Proof.
  revert cur. induction l as [|s l IH]; intros cur H.
  - now rewrite app_nil_r.
  - cbn [forallb] in H. apply andb_true_iff in H as [Hs Hl].
    apply negb_true_iff in Hs.
    cbn [app Tokens.detokenize_loop]. rewrite Hs, (IH _ Hl).
    now rewrite <- app_assoc.
Qed.

(** One group of tokens and its end mark *)
Lemma detokenize_group (l rest ret : list string) :
  forallb (fun s => negb (String.eqb s "<eot>")) l = true ->
  Tokens.detokenize_loop (l ++ "<eot>" :: rest) ret []
  = Tokens.detokenize_loop rest (ret ++ [Tokens.parse_subtype l]) [].
Proof.
  intros H. rewrite (detokenize_loop_plain _ _ _ _ H). reflexivity.
Qed.








Lemma string_append_cancel (a x y : string) :
  (a ++ x)%string = (a ++ y)%string -> x = y.
Proof.
  induction a as [|c a IH]; cbn [String.append]; intros H; [exact H|].
  injection H as H. exact (IH H).
Qed.

(** X28: an Array of no elements is not read back: its tokens carry the
    count as [[0]], so [detokenize] gives the element type followed by [[0]],
    while the string of the Array ends in [[]]. *)
Theorem Array_of_no_elements_reads_back_differently
        (element_size : Z) (element_type : string) :
  String.eqb element_type "<eot>" = false ->
  exists toks,
    Tokens.tokenize (Array 0 element_size element_type) = inl toks /\
    Tokens.detokenize toks = [(element_type ++ "[0]")%string] /\
    Tokens.detokenize toks
    <> [Tokens.to_str (Array 0 element_size element_type)].
Proof.
  intros H.
  exists (["<array>"; element_type; "[0]"] ++ ["<eot>"]).
  split; [reflexivity|].
  assert (Hd : Tokens.detokenize (["<array>"; element_type; "[0]"]
                                    ++ ["<eot>"])
               = [(element_type ++ "[0]")%string]).
  { unfold Tokens.detokenize. rewrite detokenize_group; [reflexivity|].
    cbn [forallb]. rewrite H. reflexivity. }
  split; [exact Hd|]. rewrite Hd. cbn [Tokens.to_str Z.eqb].
  intros E. injection E as E. apply string_append_cancel in E.
  discriminate E.
Qed.

Lemma Array_of_no_elements_reads_back_differently_witness :
  String.eqb "int" "<eot>" = false /\
  exists toks,
    Tokens.tokenize (Array 0 4 "int") = inl toks /\
    Tokens.detokenize toks = [("int" ++ "[0]")%string] /\
    Tokens.detokenize toks <> [Tokens.to_str (Array 0 4 "int")].
Proof.
  split; [reflexivity|].
  apply (Array_of_no_elements_reads_back_differently 4 "int"). reflexivity.
Defined.

(** * The cache of the replacement search *)

Lemma find_app_some {A : Type} (f : A -> bool) (l l' : list A) (x : A) :
  find f l = Some x -> find f (l ++ l') = Some x.
Proof.
  induction l as [|y l IH]; cbn [find app]; [discriminate|].
  destruct (f y); [trivial | exact IH].
Qed.

Lemma shape_eqb_refl (k : TypeLibABC.shape) : TypeLibABC.shape_eqb k k = true.
Proof. unfold TypeLibABC.shape_eqb. now rewrite !tuple_eqb_refl. Qed.

Lemma set_add_keeps (s : list obj) (typ t : obj) :
  existsb (fun x => py_eq x t) s = true ->
  existsb (fun x => py_eq x t) (TypeLibABC.set_add s typ) = true.
Proof.
  unfold TypeLibABC.set_add. intros H.
  destruct (existsb (py_eq typ) s); [exact H|].
  rewrite existsb_app, H. reflexivity.
Qed.

Lemma set_add_holds (s : list obj) (typ : obj) :
  existsb (fun x => py_eq x typ) (TypeLibABC.set_add s typ) = true.
Proof.
  unfold TypeLibABC.set_add.
  destruct (existsb (py_eq typ) s) eqn:E.
  - apply existsb_exists in E as (x & Hx & E). apply existsb_exists.
    exists x. split; [exact Hx | now rewrite py_eq_sym].
  - rewrite existsb_app. cbn [existsb]. rewrite py_eq_refl.
    now rewrite orb_true_r.
Qed.

Lemma cache_add_holds_new (c : TypeLibABC.cache) (key : TypeLibABC.shape)
      (typ : obj) :
  cache_holds (TypeLibABC.cache_add c key typ) key typ = true.
Proof.
  unfold cache_holds.
  induction c as [|[k s] c IH]; cbn [TypeLibABC.cache_add].
  - cbn [find fst]. rewrite shape_eqb_refl. cbn [snd existsb].
    now rewrite py_eq_refl.
  - destruct (TypeLibABC.shape_eqb k key) eqn:E; cbn [find fst]; rewrite E.
    + cbn [snd]. apply set_add_holds.
    + exact IH.
Qed.

Lemma cache_add_holds_old (c : TypeLibABC.cache) (key k : TypeLibABC.shape)
      (typ t : obj) :
  cache_holds c k t = true ->
  cache_holds (TypeLibABC.cache_add c key typ) k t = true.
Proof.
  unfold cache_holds.
  induction c as [|[k0 s] c IH]; cbn [TypeLibABC.cache_add find fst];
    [discriminate|].
  destruct (TypeLibABC.shape_eqb k0 key) eqn:E; cbn [find fst];
    destruct (TypeLibABC.shape_eqb k0 k) eqn:Ek; cbn [snd]; trivial.
  apply set_add_keeps.
Qed.

Lemma cache_getitem_holds (c : TypeLibABC.cache) (key k : TypeLibABC.shape)
      (t : obj) :
  cache_holds c k t = true ->
  cache_holds (snd (TypeLibABC.cache_getitem c key)) k t = true.
Proof.
  unfold TypeLibABC.cache_getitem.
  destruct (find _ c) as [ks|]; cbn [snd]; [trivial|].
  unfold cache_holds.
  destruct (find (fun ks => TypeLibABC.shape_eqb (fst ks) k) c) as [ks|] eqn:E;
    [|discriminate].
  now rewrite (find_app_some _ _ _ _ E).
Qed.

Lemma cache_getitem_held (c : TypeLibABC.cache) (key : TypeLibABC.shape)
      (t : obj) :
  cache_holds c key t = true ->
  existsb (fun x => py_eq x t) (fst (TypeLibABC.cache_getitem c key)) = true.
Proof.
  unfold cache_holds, TypeLibABC.cache_getitem.
  destruct (find _ c) as [ks|]; [trivial | discriminate].
Qed.

(** What [make_cached_replacement_dict] enters is found again *)
Lemma cache_bucket_holds (entries : list Entry) :
  forall c c',
    TypeLibABC.cache_bucket entries c = (c', Ok tt) ->
    (forall k t, cache_holds c k t = true -> cache_holds c' k t = true) /\
    (forall e a st,
        In e entries ->
        accessible_offsets (typeinfo e) = Ok a ->
        start_offsets (typeinfo e) = Ok st ->
        cache_holds c' (a, st) (typeinfo e) = true).
Proof.
  induction entries as [|entry rest IH]; intros c c' H;
    cbn [TypeLibABC.cache_bucket] in H.
  - injection H as <-. split; [trivial | intros e a st []].
  - destruct (accessible_offsets (typeinfo entry)) as [a0|] eqn:Ea;
      [|discriminate H].
    destruct (start_offsets (typeinfo entry)) as [s0|] eqn:Es;
      [|discriminate H].
    destruct (IH _ _ H) as [Hold Hnew]. split.
    + intros k t Hk. apply Hold. now apply cache_add_holds_old.
    + intros e a st [<-|Hin] Ha Hs.
      * rewrite Ea in Ha. rewrite Es in Hs.
        injection Ha as <-. injection Hs as <-.
        apply Hold. apply cache_add_holds_new.
      * now apply (Hnew e).
Qed.

Lemma cache_buckets_holds (data : list (Z * EntryList.t)) :
  forall c c',
    TypeLibABC.cache_buckets data c = (c', Ok tt) ->
    (forall k t, cache_holds c k t = true -> cache_holds c' k t = true) /\
    (forall size bucket e a st,
        In (size, bucket) data -> size <= 1024 ->
        In e (EntryList.iter bucket) ->
        accessible_offsets (typeinfo e) = Ok a ->
        start_offsets (typeinfo e) = Ok st ->
        cache_holds c' (a, st) (typeinfo e) = true).
Proof.
  induction data as [|[size0 bucket0] data IH]; intros c c' H;
    cbn [TypeLibABC.cache_buckets] in H.
  - injection H as <-. split; [trivial | intros ? ? ? ? ? []].
  - destruct (size0 >? 1024) eqn:Eb.
    + destruct (IH _ _ H) as [Hold Hnew]. split; [exact Hold|].
      intros size bucket e a st [Heq|Hin] Hle; [|now apply (Hnew size bucket)].
      injection Heq as <- <-. apply Z.gtb_lt in Eb. lia.
    + destruct (TypeLibABC.cache_bucket (EntryList.iter bucket0) c)
        as [c1 [[]|err]] eqn:Ec; [|discriminate H].
      destruct (cache_bucket_holds _ _ _ Ec) as [Hold1 Hnew1].
      destruct (IH _ _ H) as [Hold Hnew]. split.
      * intros k t Hk. apply Hold, Hold1, Hk.
      * intros size bucket e a st [Heq|Hin] Hle Hin_e Ha Hs;
          [|now apply (Hnew size bucket)].
        injection Heq as <- <-. apply Hold. now apply Hnew1.
Qed.

Lemma filter_all_false {A : Type} (f : A -> bool) (l : list A) :
  (forall x, In x l -> f x = false) -> filter f l = [].
Proof.
  induction l as [|x l IH]; cbn [filter]; intros H; [reflexivity|].
  rewrite (H x (or_introl eq_refl)). apply IH. intros y Hy. apply H. now right.
Qed.

Lemma filter_all_true {A : Type} (f : A -> bool) (l : list A) :
  (forall x, In x l -> f x = true) -> filter f l = l.
Proof.
  induction l as [|x l IH]; cbn [filter]; intros H; [reflexivity|].
  rewrite (H x (or_introl eq_refl)). f_equal. apply IH. intros y Hy.
  apply H. now right.
Qed.

Lemma map_sub_zero (l : list Z) : map (fun s => s - 0) l = l.
Proof.
  induction l as [|x l IH]; cbn [map]; [reflexivity|].
  now rewrite IH, Z.sub_0_r.
Qed.

Lemma py_range_hd (s : Z) : 0 < s -> exists rest, py_range 0 s = 0 :: rest.
Proof.
  intros Hs. unfold py_range.
  destruct (Z.to_nat (s - 0)) as [|n] eqn:E; [lia|].
  cbn [seq map]. eexists. reflexivity.
Qed.

Lemma py_last_range (s : Z) : 0 < s -> py_last (py_range 0 s) = Ok (s - 1).
Proof.
  intros Hs. rewrite (py_range_split 0 (s - 1) s) by lia.
  unfold py_last. rewrite rev_app_distr.
  unfold py_range at 1. replace (Z.to_nat (s - (s - 1))) with 1%nat by lia.
  cbn [seq map rev app Z.of_nat]. now rewrite Z.add_0_r.
Qed.

Lemma existsb_find {A : Type} (f : A -> bool) (l : list A) :
  existsb f l = true -> exists x, find f l = Some x.
Proof.
  induction l as [|y l IH]; cbn [existsb find]; [discriminate|].
  destruct (f y); [eauto | exact IH].
Qed.

(** Over the layout of a scalar of [s] bytes, the loop of
    [get_next_replacements] reaches the set the scalar was entered in. *)
Lemma replacements_loop_finds (s : Z) (typ : obj) :
  0 < s ->
  forall sizes c reps,
    cache_holds c (py_range 0 s, [0]) typ = true ->
    In s sizes \/
    existsb (fun r : TypeLibABC.replacement =>
               existsb (fun x => py_eq x typ) (fst (fst r))) reps = true ->
    existsb (fun r : TypeLibABC.replacement =>
               existsb (fun x => py_eq x typ) (fst (fst r)))
            (snd (TypeLibABC.replacements_loop sizes (py_range 0 s) [0] 0
                                               c reps)) = true.
Proof.
  intros Hs. induction sizes as [|k sizes IH]; intros c reps Hc Hin.
  - destruct Hin as [[]|H]. exact H.
  - cbn [TypeLibABC.replacements_loop]. cbv zeta.
    destruct (Z.eq_dec k s) as [->|Hne].
    + rewrite (filter_all_false (fun x => x >=? s + 0) (py_range 0 s)).
      2:{ intros x Hx. apply In_py_range in Hx.
          rewrite Z.geb_leb. apply Z.leb_gt. lia. }
      rewrite (filter_all_false (fun x => x >=? s + 0) [0]).
      2:{ intros x [<-|[]]. rewrite Z.geb_leb. apply Z.leb_gt. lia. }
      rewrite (filter_all_true (fun x => x <? s + 0) (py_range 0 s)).
      2:{ intros x Hx. apply In_py_range in Hx. apply Z.ltb_lt. lia. }
      rewrite (filter_all_true (fun x => x <? s + 0) [0]).
      2:{ intros x [<-|[]]. apply Z.ltb_lt. lia. }
      rewrite !map_sub_zero.
      pose proof (cache_getitem_held c (py_range 0 s, [0]) typ Hc) as Hheld.
      pose proof (cache_getitem_holds c (py_range 0 s, [0]) _ typ Hc) as Hkept.
      destruct (TypeLibABC.cache_getitem c (py_range 0 s, [0])) as [typs c1].
      cbn [fst snd] in Hheld, Hkept.
      apply IH; [exact Hkept|]. right.
      rewrite existsb_app. cbn [existsb fst]. rewrite Hheld.
      now rewrite orb_true_r.
    + assert (Hin' : In s sizes \/
                     existsb (fun r : TypeLibABC.replacement =>
                                existsb (fun x => py_eq x typ) (fst (fst r)))
                             reps = true).
      { destruct Hin as [[Heq|H]|H]; [contradiction | now left | now right]. }
      destruct (match filter (fun x => x >=? k + 0) [0],
                      filter (fun x => x >=? k + 0) (py_range 0 s) with
                | [], _ => false
                | _ :: _, [] => true
                | s0 :: _, a0 :: _ => negb (s0 =? a0)
                end); [now apply IH|].
      destruct (match filter (fun x => x >=? k + 0) [0],
                      filter (fun x => x >=? k + 0) (py_range 0 s) with
                | [], _ :: _ => true
                | _, _ => false
                end); [now apply IH|].
      match goal with
      | |- context [TypeLibABC.cache_getitem c ?key] =>
          pose proof (cache_getitem_holds c key _ typ Hc) as Hkept;
          destruct (TypeLibABC.cache_getitem c key) as [typs c1]
      end.
      cbn [snd] in Hkept. apply IH; [exact Hkept|].
      destruct Hin' as [H|H]; [now left|]. right.
      rewrite existsb_app, H. reflexivity.
Qed.

Lemma get_next_replacements_finds (lib : TypeLibABC.t) (s : Z)
      (bucket : EntryList.t) (typ : obj) :
  0 < s <= 1024 ->
  TypeLibABC.cached_replacement_dict lib = None ->
  snd (TypeLibABC.make_cached_replacement_dict lib) = Ok tt ->
  In (s, bucket) (TypeLibABC._data lib) ->
  In typ (map typeinfo (EntryList.iter bucket)) ->
  accessible_offsets typ = Ok (py_range 0 s) ->
  start_offsets typ = Ok [0] ->
  exists lib' reps,
    TypeLibABC.get_next_replacements lib (py_range 0 s) [0]
    = (lib', Ok reps) /\
    existsb (fun r : TypeLibABC.replacement =>
               existsb (fun x => py_eq x typ) (fst (fst r))) reps = true.
Proof.
  intros Hs Hnone Hbuilt Hbucket Htyp Ha Hst.
  apply in_map_iff in Htyp as (e & <- & He).
  unfold TypeLibABC.get_next_replacements. rewrite Hnone.
  unfold TypeLibABC.make_cached_replacement_dict in *.
  destruct (TypeLibABC.cache_buckets (TypeLibABC._data lib) []) as [c r] eqn:Ec.
  cbn [snd] in Hbuilt. subst r.
  cbn [TypeLibABC.cached_replacement_dict TypeLibABC._data].
  destruct (cache_buckets_holds _ _ _ Ec) as [_ Hnew].
  pose proof (Hnew s bucket e _ _ Hbucket (proj2 Hs) He Ha Hst) as Hc.
  destruct (py_range_hd s (proj1 Hs)) as [rest Hr].
  rewrite Hr. cbn [Z.eqb negb]. rewrite <- Hr.
  rewrite (py_last_range s (proj1 Hs)).
  pose proof (replacements_loop_finds s (typeinfo e) (proj1 Hs)
                (filter (fun k => (k <=? s - 1 - 0 + 1) && negb (k =? 0))
                        (TypeLibABC.keys (TypeLibABC.mk (TypeLibABC._data lib)
                                                        (Some c))))
                c [] Hc) as Hloop.
  destruct (TypeLibABC.replacements_loop _ _ _ _ _ _) as [c' reps].
  eexists. exists reps. split; [reflexivity|].
  apply Hloop. left. apply filter_In. split.
  - unfold TypeLibABC.keys. cbn [TypeLibABC._data].
    apply in_map_iff. exists (s, bucket). split; [reflexivity | exact Hbucket].
  - apply andb_true_iff. split; [apply Z.leb_le; lia|].
    apply negb_true_iff, Z.eqb_neq. lia.
Qed.

(** X29: a type of [s] bytes (0 < s <= 1024) whose bytes are all accessible
    and that starts at offset 0 only, stored in the bucket of size [s] of a
    library that has no cache yet and whose cache can be built, is accepted
    by [valid_layout_for_types] for its own layout [(0..s-1), (0,)]. *)
Theorem stored_type_validates_its_layout (lib : TypeLibABC.t) (s : Z)
        (bucket : EntryList.t) (typ : obj) :
  0 < s <= 1024 ->
  TypeLibABC.cached_replacement_dict lib = None ->
  snd (TypeLibABC.make_cached_replacement_dict lib) = Ok tt ->
  In (s, bucket) (TypeLibABC._data lib) ->
  In typ (map typeinfo (EntryList.iter bucket)) ->
  accessible_offsets typ = Ok (py_range 0 s) ->
  start_offsets typ = Ok [0] ->
  snd (TypeLibABC.valid_layout_for_types lib (py_range 0 s) [0] [typ])
  = Ok true.
Proof.
  intros Hs Hnone Hbuilt Hbucket Htyp Ha Hst.
  destruct (get_next_replacements_finds lib s bucket typ Hs Hnone Hbuilt
              Hbucket Htyp Ha Hst) as (lib' & reps & Hg & Hfound).
  cbn [TypeLibABC.valid_layout_for_types]. rewrite Hg.
  destruct (py_range_hd s (proj1 Hs)) as [rest ->].
  destruct (existsb_find _ _ Hfound) as [[[ts a] st] Hf].
  unfold TypeLibABC.replacement in Hf. rewrite Hf. reflexivity.
Qed.

Lemma stored_type_validates_its_layout_witness :
  0 < 4 <= 1024 /\
  TypeLibABC.cached_replacement_dict sample_library = None /\
  snd (TypeLibABC.make_cached_replacement_dict sample_library) = Ok tt /\
  In (4, EntryList.mk [mkEntry 1 (TypeInfo (Some "int") 4)])
     (TypeLibABC._data sample_library) /\
  In (TypeInfo (Some "int") 4)
     (map typeinfo
          (EntryList.iter
             (EntryList.mk [mkEntry 1 (TypeInfo (Some "int") 4)]))) /\
  accessible_offsets (TypeInfo (Some "int") 4) = Ok (py_range 0 4) /\
  start_offsets (TypeInfo (Some "int") 4) = Ok [0] /\
  snd (TypeLibABC.valid_layout_for_types
         sample_library (py_range 0 4) [0] [TypeInfo (Some "int") 4])
  = Ok true.
Proof.
  split; [lia|]. split; [reflexivity|]. split; [reflexivity|].
  split; [right; left; reflexivity|]. split; [left; reflexivity|].
  split; [reflexivity|]. split; [reflexivity|].
  apply (stored_type_validates_its_layout
           sample_library 4
           (EntryList.mk [mkEntry 1 (TypeInfo (Some "int") 4)])
           (TypeInfo (Some "int") 4)).
  - lia.
  - reflexivity.
  - reflexivity.
  - right; left; reflexivity.
  - left; reflexivity.
  - reflexivity.
  - reflexivity.
Defined.

(** * Equality of types *)

(** X30: [==] on the types is an equivalence: reflexive, symmetric and
    transitive, although it leaves the size of a Field and the stored size of
    a Struct or Union out of the comparison. *)
Theorem py_eq_is_equivalence (a b c : obj) :
  (py_eq a a = true) /\
  (py_eq a b = py_eq b a) /\
  (implb (py_eq a b && py_eq b c) (py_eq a c) = true).
Proof.
  split; [apply py_eq_refl|]. split; [apply py_eq_sym|].
  destruct (py_eq a b) eqn:Eab; [|reflexivity].
  destruct (py_eq b c) eqn:Ebc; [|reflexivity].
  cbn [andb implb]. now rewrite (py_eq_trans a b c Eab Ebc).
Qed.

(** * [fix_bit] and [fix] in place *)

(** ** The store *)

Lemma assign_same (s : InPlace.store) (a v : Z) : InPlace.assign s a v a = v.
Proof. unfold InPlace.assign. now rewrite Z.eqb_refl. Qed.

Lemma assign_other (s : InPlace.store) (a v x : Z) :
  x <> a -> InPlace.assign s a v x = s x.
Proof.
  intros H. unfold InPlace.assign.
  destruct (Z.eqb_spec x a); [contradiction | reflexivity].
Qed.

Lemma distinct_NoDup (l : list Z) : distinct l = true <-> NoDup l.
Proof.
  induction l as [|a l IH]; cbn [distinct].
  - split; [constructor | reflexivity].
  - rewrite andb_true_iff, negb_true_iff, IH. split.
    + intros [Ha Hl]. constructor; [|exact Hl].
      intros Hin. assert (existsb (Z.eqb a) l = true); [|congruence].
      apply existsb_exists. exists a. split; [exact Hin | apply Z.eqb_refl].
    + intros H. inversion H as [|? ? Ha Hl]; subst. split; [|exact Hl].
      destruct (existsb (Z.eqb a) l) eqn:E; [|reflexivity].
      apply existsb_exists in E as (x & Hx & E). apply Z.eqb_eq in E.
      now subst.
Qed.

Lemma NoDup_app_parts {A : Type} (l1 l2 : list A) :
  NoDup (l1 ++ l2) ->
  NoDup l1 /\ NoDup l2 /\ forall a, In a l1 -> ~ In a l2.
Proof.
  induction l1 as [|x l1 IH]; cbn [app]; intros H.
  - split; [constructor|]. split; [exact H|]. intros a [].
  - inversion H as [|? ? Hx Hl]; subst.
    destruct (IH Hl) as (H1 & H2 & Hd). split.
    + constructor; [|exact H1]. intros Hin. apply Hx, in_or_app. now left.
    + split; [exact H2|]. intros a [<- | Ha].
      * intros Hin. apply Hx, in_or_app. now right.
      * now apply Hd.
Qed.

(** What a reference stands for depends on the store at its addresses
    only. *)
Lemma values_ext (layout : list obj) (s1 s2 : InPlace.store) :
  Forall (fun m => forall s1 s2,
              (forall a, In a (InPlace.addresses m) -> s1 a = s2 a) ->
              InPlace.value s1 m = InPlace.value s2 m) layout ->
  (forall a, In a (flat_map InPlace.addresses layout) -> s1 a = s2 a) ->
  map (InPlace.value s1) layout = map (InPlace.value s2) layout.
Proof.
  induction 1 as [|m layout Hm _ IH]; cbn [map flat_map]; intros H;
    [reflexivity|].
  f_equal.
  - apply Hm. intros a Ha. apply H, in_or_app. now left.
  - apply IH. intros a Ha. apply H, in_or_app. now right.
Qed.

Lemma value_ext (r : obj) :
  forall s1 s2,
    (forall a, In a (InPlace.addresses r) -> s1 a = s2 a) ->
    InPlace.value s1 r = InPlace.value s2 r.
Proof.
  induction r as [n s|n es et|tn| | |n|s|n tn a|n layout a Hl
                 |n members padding size Hm Hp] using obj_nested_ind;
    intros s1 s2 H; cbn [InPlace.value InPlace.addresses] in *;
    try reflexivity.
  - f_equal. apply H. now left.
  - f_equal.
    + apply values_ext; [exact Hl|]. intros x Hx. apply H. now right.
    + apply H. now left.
  - f_equal.
    + apply values_ext; [exact Hm|]. intros x Hx. apply H, in_or_app.
      now left.
    + destruct padding as [p|]; [|reflexivity]. f_equal.
      apply (Hp p eq_refl). intros x Hx. apply H, in_or_app. now right.
Qed.

Lemma size_in_value (s : InPlace.store) (m : obj) :
  InPlace.size_in s m = size_of (InPlace.value s m).
Proof. destruct m; reflexivity. Qed.

(** ** [fix_bit] in the store *)

(** [fix_bit] returns on every Struct. *)
Lemma fix_bit_layout_returns (layout : list obj) :
  Forall (fun m => isinstance_Struct m = true ->
                   forall s, exists r, InPlace.fix_bit s m = Ok r) layout ->
  forall s succeed,
    exists r, InPlace.fix_bit_layout InPlace.fix_bit s layout succeed = Ok r.
Proof.
  induction 1 as [|m layout Hm _ IH]; intros s succeed.
  - eexists. reflexivity.
  - destruct m; cbn [InPlace.fix_bit_layout]; try apply IH.
    + destruct (negb (succeed && (s size mod 8 =? 0)));
        [eexists; reflexivity | apply IH].
    + destruct (Hm eq_refl s) as [r ->]. cbn [bind]. apply IH.
Qed.

Lemma fix_bit_returns (typ : obj) :
  isinstance_Struct typ = true ->
  forall s, exists r, InPlace.fix_bit s typ = Ok r.
Proof.
  induction typ as [n s|n es et|tn| | |n|s|n tn a|n layout a Hl
                   |n members padding size Hm Hp] using obj_nested_ind;
    intros Hs s0; try discriminate Hs.
  cbn [InPlace.fix_bit].
  destruct (fix_bit_layout_returns layout Hl s0 true) as [r ->].
  eexists. reflexivity.
Qed.

(** [fix_bit] assigns at the addresses of its argument only. *)
Lemma fix_bit_layout_frame (layout : list obj) :
  Forall (fun m => forall s r,
              InPlace.fix_bit s m = Ok r ->
              forall a, ~ In a (InPlace.addresses m) -> snd r a = s a)
         layout ->
  forall s succeed r,
    InPlace.fix_bit_layout InPlace.fix_bit s layout succeed = Ok r ->
    forall a, ~ In a (flat_map InPlace.addresses layout) -> snd r a = s a.
Proof.
  induction 1 as [|m layout Hm _ IH]; intros s succeed r Hr a Ha.
  - cbn in Hr. now injection Hr as <-.
  - cbn [flat_map] in Ha.
    assert (Ha1 : ~ In a (InPlace.addresses m))
      by (intros Hin; apply Ha, in_or_app; now left).
    assert (Ha2 : ~ In a (flat_map InPlace.addresses layout))
      by (intros Hin; apply Ha, in_or_app; now right).
    destruct m; cbn [InPlace.fix_bit_layout] in Hr;
      try exact (IH _ _ _ Hr a Ha2).
    + destruct (negb (succeed && (s size mod 8 =? 0))).
      * now injection Hr as <-.
      * rewrite (IH _ _ _ Hr a Ha2). apply assign_other.
        intros ->. apply Ha1. now left.
    + destruct (InPlace.fix_bit s (Struct name layout0 size)) as [r1|] eqn:E1;
        [|discriminate Hr].
      cbn [bind] in Hr. rewrite (IH _ _ _ Hr a Ha2).
      exact (Hm _ _ E1 a Ha1).
Qed.

Lemma fix_bit_frame (typ : obj) :
  forall s r,
    InPlace.fix_bit s typ = Ok r ->
    forall a, ~ In a (InPlace.addresses typ) -> snd r a = s a.
Proof.
  induction typ as [n s|n es et|tn| | |n|s|n tn a|n layout a Hl
                   |n members padding size Hm Hp] using obj_nested_ind;
    intros s0 r H x Hx; try discriminate H.
  cbn [InPlace.fix_bit] in H.
  destruct (InPlace.fix_bit_layout InPlace.fix_bit s0 layout true)
    as [r0|] eqn:E; [|discriminate H].
  cbn [bind] in H. injection H as <-. cbn [snd InPlace.addresses] in *.
  rewrite assign_other by (intros ->; apply Hx; now left).
  apply (fix_bit_layout_frame layout Hl _ _ _ E).
  intros Hin. apply Hx. now right.
Qed.

Lemma layout_frame (layout : list obj) (s : InPlace.store) (succeed : bool)
      (r : bool * InPlace.store) :
  InPlace.fix_bit_layout InPlace.fix_bit s layout succeed = Ok r ->
  forall a, ~ In a (flat_map InPlace.addresses layout) -> snd r a = s a.
Proof.
  apply fix_bit_layout_frame. apply Forall_forall. intros m _.
  apply fix_bit_frame.
Qed.

Lemma values_agree (layout : list obj) (s1 s2 : InPlace.store) :
  (forall a, In a (flat_map InPlace.addresses layout) -> s1 a = s2 a) ->
  map (InPlace.value s1) layout = map (InPlace.value s2) layout.
Proof.
  apply values_ext. apply Forall_forall. intros m _. apply value_ext.
Qed.

(** On an object none of whose parts occurs twice in it, the assignments of
    [fix_bit] leave what the conversion on values computes. *)
Lemma fix_bit_layout_on_values (layout : list obj) :
  Forall (fun m => forall s r,
              NoDup (InPlace.addresses m) ->
              InPlace.fix_bit s m = Ok r ->
              TypeLibABC.fix_bit (InPlace.value s m)
              = Ok (fst r, InPlace.value (snd r) m)) layout ->
  forall s succeed r,
    NoDup (flat_map InPlace.addresses layout) ->
    InPlace.fix_bit_layout InPlace.fix_bit s layout succeed = Ok r ->
    TypeLibABC.fix_bit_layout TypeLibABC.fix_bit
                              (map (InPlace.value s) layout) succeed
    = Ok (fst r, map (InPlace.value (snd r)) layout).
Proof.
  induction 1 as [|m layout Hm _ IH]; intros s succeed r Hnd Hr.
  - cbn in Hr. injection Hr as <-. reflexivity.
  - cbn [flat_map] in Hnd.
    destruct (NoDup_app_parts _ _ Hnd) as (Hn1 & Hn2 & Hdis).
    assert (Hother :
              forall r0,
                InPlace.fix_bit_layout InPlace.fix_bit s layout succeed
                = Ok r0 ->
                InPlace.value s m = InPlace.value (snd r0) m).
    { intros r0 Hr0. apply value_ext. intros a Ha. symmetry.
      apply (layout_frame _ _ _ _ Hr0). now apply Hdis. }
    destruct m; cbn [InPlace.fix_bit_layout] in Hr;
      try (cbn [map TypeLibABC.fix_bit_layout];
           rewrite (IH _ _ _ Hn2 Hr); cbn [bind fst snd];
           rewrite <- (Hother _ Hr); reflexivity).
    + (* a Field *)
      cbn [map InPlace.value TypeLibABC.fix_bit_layout]. cbv zeta.
      destruct (negb (succeed && (s size mod 8 =? 0))).
      * injection Hr as <-. reflexivity.
      * assert (Hsame : map (InPlace.value s) layout =
                        map (InPlace.value
                               (InPlace.assign s size (s size / 8))) layout).
        { apply values_agree. intros a Ha. symmetry. apply assign_other.
          intros ->. apply (Hdis size); [now left | exact Ha]. }
        rewrite Hsame, (IH _ _ _ Hn2 Hr). cbn [bind fst snd].
        rewrite (layout_frame _ _ _ _ Hr size)
          by (apply Hdis; now left).
        now rewrite assign_same.
    + (* a Struct *)
      destruct (InPlace.fix_bit s (Struct name layout0 size)) as [r1|] eqn:E1;
        [|discriminate Hr].
      cbn [bind] in Hr.
      pose proof (Hm s r1 Hn1 E1) as Hv. cbn [InPlace.value] in Hv.
      cbn [map InPlace.value TypeLibABC.fix_bit_layout]. rewrite Hv.
      cbn [bind fst snd].
      assert (Hsame : map (InPlace.value s) layout =
                      map (InPlace.value (snd r1)) layout).
      { apply values_agree. intros a Ha. symmetry.
        apply (fix_bit_frame _ _ _ E1). intros Hin.
        exact (Hdis a Hin Ha). }
      rewrite Hsame, (IH _ _ _ Hn2 Hr). cbn [bind fst snd].
      assert (Hfin : InPlace.value (snd r1) (Struct name layout0 size) =
                     InPlace.value (snd r) (Struct name layout0 size)).
      { apply value_ext. intros a Ha. symmetry.
        apply (layout_frame _ _ _ _ Hr). now apply Hdis. }
      cbn [InPlace.value] in Hfin. now rewrite Hfin.
Qed.

Lemma fix_bit_on_values (typ : obj) :
  forall s r,
    NoDup (InPlace.addresses typ) ->
    InPlace.fix_bit s typ = Ok r ->
    TypeLibABC.fix_bit (InPlace.value s typ)
    = Ok (fst r, InPlace.value (snd r) typ).
Proof.
  induction typ as [n s|n es et|tn| | |n|s|n tn a|n layout a Hl
                   |n members padding size Hm Hp] using obj_nested_ind;
    intros s0 r Hnd H; try discriminate H.
  cbn [InPlace.fix_bit] in H.
  destruct (InPlace.fix_bit_layout InPlace.fix_bit s0 layout true)
    as [r0|] eqn:E; [|discriminate H].
  cbn [bind] in H. injection H as <-.
  cbn [InPlace.addresses] in Hnd. inversion Hnd as [|? ? Ha Hnl]; subst.
  cbn [InPlace.value TypeLibABC.fix_bit fst snd].
  rewrite (fix_bit_layout_on_values layout Hl _ _ _ Hnl E).
  cbn [bind fst snd]. rewrite assign_same.
  assert (Hsame : map (InPlace.value
                         (InPlace.assign
                            (snd r0) a
                            (py_sum (map (InPlace.size_in (snd r0)) layout))))
                      layout
                  = map (InPlace.value (snd r0)) layout).
  { apply values_agree. intros x Hx. apply assign_other. now intros ->. }
  rewrite Hsame, map_map.
  do 4 f_equal. apply map_ext. intros m. symmetry. apply size_in_value.
Qed.

(** X22: on a Struct none of whose Field and Struct objects occurs twice in
    it, when [fix_bit] returns [True] every Field size, at every depth of
    nested Structs, has been divided by 8 and every Struct size is the sum
    of its members' sizes. *)
Theorem fix_bit_converts_in_place (s s' : InPlace.store) (typ : obj) :
  distinct (InPlace.addresses typ) = true ->
  InPlace.fix_bit s typ = Ok (true, s') ->
  InPlace.value s' typ = to_bytes (InPlace.value s typ).
Proof.
  intros Hd H. apply distinct_NoDup in Hd.
  pose proof (fix_bit_on_values typ s (true, s') Hd H) as Hv.
  cbn [fst snd] in Hv. exact (fix_bit_success _ _ Hv).
Qed.

Lemma fix_bit_converts_in_place_witness :
  distinct (InPlace.addresses
              (Struct (Some "S")
                      [Field "a" "int" 1;
                       Struct None [Field "b" "char" 3; Padding 3] 2] 0))
  = true /\
  InPlace.fix_bit
    (InPlace.store_of [(0, 43); (1, 32); (2, 11); (3, 8)])
    (Struct (Some "S")
            [Field "a" "int" 1;
             Struct None [Field "b" "char" 3; Padding 3] 2] 0)
  = Ok (true,
        InPlace.assign
          (InPlace.assign
             (InPlace.assign
                (InPlace.assign
                   (InPlace.store_of [(0, 43); (1, 32); (2, 11); (3, 8)])
                   1 4)
                3 1)
             2 4)
          0 8) /\
  InPlace.value
    (InPlace.assign
       (InPlace.assign
          (InPlace.assign
             (InPlace.assign
                (InPlace.store_of [(0, 43); (1, 32); (2, 11); (3, 8)])
                1 4)
             3 1)
          2 4)
       0 8)
    (Struct (Some "S")
            [Field "a" "int" 1;
             Struct None [Field "b" "char" 3; Padding 3] 2] 0)
  = to_bytes
      (InPlace.value
         (InPlace.store_of [(0, 43); (1, 32); (2, 11); (3, 8)])
         (Struct (Some "S")
                 [Field "a" "int" 1;
                  Struct None [Field "b" "char" 3; Padding 3] 2] 0)).
Proof.
  split; [reflexivity|]. split; [reflexivity|].
  apply (fix_bit_converts_in_place
           (InPlace.store_of [(0, 43); (1, 32); (2, 11); (3, 8)])).
  - reflexivity.
  - reflexivity.
Defined.

(** An object that occurs twice is divided at every visit: with one Struct
    of a 64-bit Field listed twice, the Field is left with size 1 and the
    outer Struct with size 2. *)
Lemma fix_bit_divides_a_shared_object_twice :
  exists s',
    InPlace.fix_bit
      (InPlace.store_of [(0, 128); (1, 64); (2, 64)])
      (Struct (Some "O")
              [Struct (Some "I") [Field "x" "long" 2] 1;
               Struct (Some "I") [Field "x" "long" 2] 1] 0)
    = Ok (true, s') /\
    InPlace.value s'
      (Struct (Some "O")
              [Struct (Some "I") [Field "x" "long" 2] 1;
               Struct (Some "I") [Field "x" "long" 2] 1] 0)
    = Struct (Some "O")
             [Struct (Some "I") [Field "x" "long" 1] 1;
              Struct (Some "I") [Field "x" "long" 1] 1] 2.
Proof. eexists. split; reflexivity. Qed.

(** ** [fix] in the store *)

Lemma isinstance_Struct_value (s : InPlace.store) (t : obj) :
  isinstance_Struct (InPlace.value s t) = isinstance_Struct t.
Proof. destruct t; reflexivity. Qed.

(** One entry: what [fix] does with it is read off the entry as it was
    before the call, when no earlier step has touched its objects. *)
Lemma fix_entry_kept (s0 s : InPlace.store) (k : Z) (e : Entry)
      (new_lib : TypeLibABC.t) :
  NoDup (InPlace.addresses (typeinfo e)) ->
  (forall a, In a (InPlace.addresses (typeinfo e)) -> s a = s0 a) ->
  exists s1,
    InPlace.fix_entry s k e new_lib =
      (s1, if fix_succeeds (value_entry s0 e)
           then InPlace.fix_keep new_lib (new_size s0 k e) e
           else Ok new_lib) /\
    InPlace.value s1 (typeinfo e) = typeinfo (fixed_entry (value_entry s0 e))
    /\ forall a, ~ In a (InPlace.addresses (typeinfo e)) -> s1 a = s a.
Proof.
  intros Hnd Hs.
  unfold new_size.
  unfold InPlace.fix_entry, fix_succeeds, fixed_entry, value_entry.
  cbn [typeinfo frequency].
  rewrite <- (value_ext (typeinfo e) s s0 Hs).
  destruct (isinstance_Struct (typeinfo e)) eqn:Es.
  - destruct (fix_bit_returns _ Es s) as [[ok s1] E]. rewrite E.
    pose proof (fix_bit_on_values _ _ _ Hnd E) as Hv. cbn [fst snd] in Hv.
    rewrite Hv. cbn [bind fst snd]. exists s1. split.
    + rewrite size_in_value. destruct ok; reflexivity.
    + split; [reflexivity|]. intros a Ha.
      exact (fix_bit_frame _ _ _ E a Ha).
  - rewrite fix_bit_not_Struct
      by (now rewrite isinstance_Struct_value).
    exists s. split; [reflexivity|]. split; [reflexivity | trivial].
Qed.

Lemma fix_bucket_kept (entries : list Entry) :
  forall (s0 s : InPlace.store) (k : Z) (new_lib : TypeLibABC.t),
    NoDup (flat_map (fun e => InPlace.addresses (typeinfo e)) entries) ->
    (forall a, In a (flat_map (fun e => InPlace.addresses (typeinfo e))
                              entries) -> s a = s0 a) ->
    exists s1,
      InPlace.fix_bucket s k entries new_lib =
        (s1, keep_all new_lib
                      (flat_map (fun e => if fix_succeeds (value_entry s0 e)
                                          then [(new_size s0 k e, e)]
                                          else [])
                                entries)) /\
      (forall a, ~ In a (flat_map (fun e => InPlace.addresses (typeinfo e))
                                  entries) -> s1 a = s a) /\
      (forall new_lib',
          snd (InPlace.fix_bucket s k entries new_lib) = Ok new_lib' ->
          forall e, In e entries ->
                    InPlace.value s1 (typeinfo e)
                    = typeinfo (fixed_entry (value_entry s0 e))).
Proof.
  induction entries as [|e entries IH]; intros s0 s k new_lib Hnd Hs.
  - exists s. split; [reflexivity|]. split; [trivial|]. intros _ _ e [].
  - cbn [flat_map] in Hnd, Hs.
    destruct (NoDup_app_parts _ _ Hnd) as (Hn1 & Hn2 & Hdis).
    destruct (fix_entry_kept s0 s k e new_lib Hn1) as (s1 & E1 & Hv1 & Hf1).
    { intros a Ha. apply Hs, in_or_app. now left. }
    cbn [InPlace.fix_bucket flat_map]. rewrite E1.
    destruct (fix_succeeds (value_entry s0 e)); cbn [app keep_all].
    + destruct (InPlace.fix_keep new_lib (new_size s0 k e) e)
        as [lib1|err]; cbn [bind].
      * destruct (IH s0 s1 k lib1 Hn2) as (s2 & E2 & Hf2 & Hv2).
        { intros a Ha. rewrite Hf1; [apply Hs, in_or_app; now right|].
          intros Hin. exact (Hdis a Hin Ha). }
        exists s2. split; [exact E2|]. split.
        -- intros a Ha. rewrite Hf2, Hf1; [reflexivity| |];
             intros Hin; apply Ha, in_or_app; auto.
        -- intros lib' Hok x [<- | Hx].
           ++ rewrite <- Hv1. apply value_ext. intros a Ha. apply Hf2.
              now apply Hdis.
           ++ now apply (Hv2 lib').
      * exists s1. split; [reflexivity|]. split.
        -- intros a Ha. apply Hf1. intros Hin. apply Ha, in_or_app. now left.
        -- intros lib' Hok. discriminate Hok.
    + destruct (IH s0 s1 k new_lib Hn2) as (s2 & E2 & Hf2 & Hv2).
      { intros a Ha. rewrite Hf1; [apply Hs, in_or_app; now right|].
        intros Hin. exact (Hdis a Hin Ha). }
      exists s2. split; [exact E2|]. split.
      * intros a Ha. rewrite Hf2, Hf1; [reflexivity| |];
          intros Hin; apply Ha, in_or_app; auto.
      * intros lib' Hok x [<- | Hx].
        -- rewrite <- Hv1. apply value_ext. intros a Ha. apply Hf2.
           now apply Hdis.
        -- now apply (Hv2 lib').
Qed.

Lemma keep_all_app (l1 l2 : list (Z * Entry)) :
  forall new_lib,
    keep_all new_lib (l1 ++ l2) =
    (lib1 <- keep_all new_lib l1 ;; keep_all lib1 l2).
Proof.
  induction l1 as [|[n e] l1 IH]; intros new_lib; cbn [app keep_all bind];
    [reflexivity|].
  destruct (InPlace.fix_keep new_lib n e) as [lib1|err]; cbn [bind];
    [apply IH | reflexivity].
Qed.

Lemma fix_buckets_kept (data : list (Z * EntryList.t)) :
  forall (s0 s : InPlace.store) (new_lib : TypeLibABC.t),
    NoDup (flat_map (fun e => InPlace.addresses (typeinfo e))
                    (library_entries data)) ->
    (forall a, In a (flat_map (fun e => InPlace.addresses (typeinfo e))
                              (library_entries data)) -> s a = s0 a) ->
    exists s1,
      InPlace.fix_buckets s data new_lib =
        (s1, keep_all new_lib (kept s0 data)) /\
      (forall a, ~ In a (flat_map (fun e => InPlace.addresses (typeinfo e))
                                  (library_entries data)) -> s1 a = s a) /\
      (forall new_lib',
          snd (InPlace.fix_buckets s data new_lib) = Ok new_lib' ->
          forall e, In e (library_entries data) ->
                    InPlace.value s1 (typeinfo e)
                    = typeinfo (fixed_entry (value_entry s0 e))).
Proof.
  induction data as [|[k b] data IH]; intros s0 s new_lib Hnd Hs.
  - exists s. split; [reflexivity|]. split; [trivial|]. intros _ _ e [].
  - unfold library_entries in Hnd, Hs. cbn [flat_map snd] in Hnd, Hs.
    rewrite flat_map_app in Hnd, Hs.
    fold (library_entries data) in Hnd, Hs.
    destruct (NoDup_app_parts _ _ Hnd) as (Hn1 & Hn2 & Hdis).
    destruct (fix_bucket_kept (EntryList._data b) s0 s k new_lib Hn1)
      as (s1 & E1 & Hf1 & Hv1).
    { intros a Ha. apply Hs, in_or_app. now left. }
    unfold kept. cbn [InPlace.fix_buckets flat_map fst snd].
    fold (kept s0 data). unfold EntryList.iter in *.
    rewrite keep_all_app, E1.
    unfold library_entries. cbn [flat_map snd]. rewrite flat_map_app.
    fold (library_entries data).
    destruct (keep_all new_lib _) as [lib1|err] eqn:Ek; cbn [bind].
    + destruct (IH s0 s1 lib1 Hn2) as (s2 & E2 & Hf2 & Hv2).
      { intros a Ha. rewrite Hf1; [apply Hs, in_or_app; now right|].
        intros Hin. exact (Hdis a Hin Ha). }
      exists s2. split; [exact E2|]. split.
      * intros a Ha. rewrite Hf2, Hf1; [reflexivity| |];
          intros Hin; apply Ha, in_or_app; auto.
      * intros lib' Hok x Hx. apply in_app_or in Hx as [Hx | Hx].
        -- rewrite <- (Hv1 lib1); [|now rewrite E1|exact Hx].
           apply value_ext. intros a Ha. apply Hf2.
           apply Hdis. apply in_flat_map. exists x. auto.
        -- now apply (Hv2 lib').
    + exists s1. split; [reflexivity|]. split.
      * intros a Ha. apply Hf1. intros Hin. apply Ha, in_or_app. now left.
      * intros lib' Hok. discriminate Hok.
Qed.

(** [fix] on a library that shares no object: the returned library is
    built from the entries as they were before the call, and the store holds
    every type as its own conversion leaves it. *)
Lemma fix_kept (s : InPlace.store) (lib : TypeLibABC.t) :
  unshared lib = true ->
  exists s',
    InPlace.fix_ s lib =
      (s', keep_all TypeLibABC.init (kept s (TypeLibABC._data lib))) /\
    forall new_lib,
      keep_all TypeLibABC.init (kept s (TypeLibABC._data lib)) = Ok new_lib ->
      forall e, In e (library_entries (TypeLibABC._data lib)) ->
                InPlace.value s' (typeinfo e)
                = typeinfo (fixed_entry (value_entry s e)).
Proof.
  intros Hu. apply distinct_NoDup in Hu.
  destruct (fix_buckets_kept (TypeLibABC._data lib) s s TypeLibABC.init Hu)
    as (s' & E & _ & Hv); [reflexivity|].
  exists s'. split; [exact E|]. intros new_lib Hok.
  apply (Hv new_lib). unfold InPlace.fix_ in E. now rewrite E.
Qed.

(** ** The library [fix] builds *)

Lemma add_n_keeps_contains (self : EntryList.t) (item t : obj) (n : Z) :
  ValueSortedDict.contains (EntryList._data self) t = true ->
  ValueSortedDict.contains
    (EntryList._data (fst (EntryList.add_n self item n))) t = true.
Proof.
  intros Ht. unfold EntryList.add_n, ValueSortedDict.setitem.
  destruct (ValueSortedDict.contains (EntryList._data self) item) eqn:Ec.
  - destruct (contains_get _ _ Ec) as (old & -> & _ & Hold).
    destruct (ValueSortedDict.list_remove _ old item) as [d'|] eqn:Er;
      cbn [bind fst EntryList._data]; [|exact Ht].
    apply list_remove_splits in Er as (l1 & x & l2 & Hd & -> & Hx).
    unfold ValueSortedDict.contains in *.
    apply existsb_exists in Ht as (y & Hy & Hyt). apply existsb_exists.
    rewrite Hd in Hy. apply in_app_or in Hy as [Hy | [<- | Hy]].
    + exists y. split; [|exact Hyt]. apply In_insort_iff. right.
      apply in_or_app. now left.
    + exists (EntryM.inc old n). split; [apply In_insort_iff; now left|].
      cbn [EntryM.inc typeinfo].
      apply (py_eq_trans _ item); [exact Hold|].
      apply (py_eq_trans _ (typeinfo x)); [now rewrite py_eq_sym | exact Hyt].
    + exists y. split; [|exact Hyt]. apply In_insort_iff. right.
      apply in_or_app. now right.
  - rewrite (get_None _ _ Ec). cbn [fst EntryList._data].
    unfold ValueSortedDict.contains in *.
    apply existsb_exists in Ht as (y & Hy & Hyt). apply existsb_exists.
    exists y. split; [apply In_insort_iff; now right | exact Hyt].
Qed.

Lemma find_dict_set_other (d : list (Z * EntryList.t)) (key k : Z)
      (item : EntryList.t) :
  k <> key ->
  find (fun kb => fst kb =? k) (TypeLibABC.dict_set d key item)
  = find (fun kb => fst kb =? k) d.
Proof.
  intros Hne. induction d as [|[k0 v] d IH]; cbn [TypeLibABC.dict_set find fst].
  - destruct (Z.eqb_spec key k); [now subst | reflexivity].
  - destruct (Z.eqb_spec k0 key) as [->|Hk0]; cbn [find fst].
    + destruct (Z.eqb_spec key k); [now subst | reflexivity].
    + destruct (k0 =? k); [reflexivity | exact IH].
Qed.

Lemma find_dict_call_other {A : Type} (d : list (Z * EntryList.t))
      (key k : Z) (f : EntryList.t -> EntryList.t * result A) :
  k <> key ->
  find (fun kb => fst kb =? k) (fst (TypeLibABC.dict_call d key f))
  = find (fun kb => fst kb =? k) d.
Proof.
  intros Hne. induction d as [|[k0 v] d IH]; cbn [TypeLibABC.dict_call].
  - destruct (f (EntryList.init [])) as [b r]. cbn [fst find].
    destruct (Z.eqb_spec key k); [now subst | reflexivity].
  - destruct (Z.eqb_spec k0 key) as [->|Hk0].
    + destruct (f v) as [b r]. cbn [fst find].
      destruct (Z.eqb_spec key k); [now subst | reflexivity].
    + destruct (TypeLibABC.dict_call d key f) as [d' r]. cbn [fst find] in *.
      destruct (k0 =? k); [reflexivity | exact IH].
Qed.

Lemma find_dict_call_same {A : Type} (d : list (Z * EntryList.t)) (key : Z)
      (f : EntryList.t -> EntryList.t * result A) (b : EntryList.t) :
  find (fun kb => fst kb =? key) d = Some (key, b) ->
  find (fun kb => fst kb =? key) (fst (TypeLibABC.dict_call d key f))
  = Some (key, fst (f b)).
Proof.
  induction d as [|[k0 v] d IH]; cbn [TypeLibABC.dict_call find fst];
    [discriminate|].
  destruct (Z.eqb_spec k0 key) as [->|Hk0].
  - intros H. injection H as <-. destruct (f v) as [b1 r]. cbn [fst find].
    now rewrite Z.eqb_refl.
  - intros H. destruct (TypeLibABC.dict_call d key f) as [d' r].
    cbn [fst find] in *.
    destruct (Z.eqb_spec k0 key); [contradiction | now apply IH].
Qed.

Lemma In_library_entries (data : list (Z * EntryList.t)) (x : Entry) :
  In x (library_entries data) <->
  exists k b, In (k, b) data /\ In x (EntryList._data b).
Proof.
  unfold library_entries. rewrite in_flat_map. split.
  - intros ([k b] & Hkb & Hx). exists k, b. auto.
  - intros (k & b & Hkb & Hx). exists (k, b). auto.
Qed.

(** The library before the entry is added: with the bucket of [nsize] made
    if it was missing *)
Lemma fix_keep_steps (new_lib : TypeLibABC.t) (nsize : Z) (entry : Entry) :
  exists lib1,
    InPlace.fix_keep new_lib nsize entry =
      match TypeLibABC.dict_call
              (TypeLibABC._data lib1) nsize
              (fun bucket => EntryList.add_entry bucket entry) with
      | (d, Ok _) =>
          Ok (TypeLibABC.mk d (TypeLibABC.cached_replacement_dict lib1))
      | (_, Raise e) => Raise e
      end /\
    (forall x, In x (library_entries (TypeLibABC._data lib1)) ->
               In x (library_entries (TypeLibABC._data new_lib))) /\
    (forall k, k <> nsize ->
               find (fun kb => fst kb =? k) (TypeLibABC._data lib1)
               = find (fun kb => fst kb =? k) (TypeLibABC._data new_lib)) /\
    (forall b, find (fun kb => fst kb =? nsize) (TypeLibABC._data new_lib)
               = Some (nsize, b) ->
               find (fun kb => fst kb =? nsize) (TypeLibABC._data lib1)
               = Some (nsize, b)).
Proof.
  unfold InPlace.fix_keep, TypeLibABC.add_entry_list.
  destruct (TypeLibABC.contains new_lib nsize) eqn:Ec; cbn [negb].
  - exists new_lib. repeat split; auto.
  - exists (TypeLibABC.setitem new_lib nsize (EntryList.init [])).
    split; [reflexivity|].
    cbn [TypeLibABC.setitem TypeLibABC._data]. split; [|split].
    + intros x. apply library_entries_dict_set_empty.
    + intros k Hk. now apply find_dict_set_other.
    + intros b Hb. exfalso. apply find_some in Hb as [Hin Hk].
      unfold TypeLibABC.contains, TypeLibABC.keys in Ec.
      assert (existsb (Z.eqb nsize) (map fst (TypeLibABC._data new_lib))
              = true); [|congruence].
      apply existsb_exists. exists nsize. split; [|apply Z.eqb_refl].
      apply in_map_iff. exists (nsize, b). auto.
Qed.

Lemma fix_keep_types (new_lib new_lib' : TypeLibABC.t) (nsize : Z)
      (entry : Entry) :
  InPlace.fix_keep new_lib nsize entry = Ok new_lib' ->
  forall x,
    In x (library_entries (TypeLibABC._data new_lib')) ->
    typeinfo x = typeinfo entry \/
    exists y, In y (library_entries (TypeLibABC._data new_lib)) /\
              typeinfo x = typeinfo y.
Proof.
  destruct (fix_keep_steps new_lib nsize entry) as (lib1 & -> & Hsub & _).
  pose proof (dict_call_buckets
                (TypeLibABC._data lib1) nsize
                (fun bucket => EntryList.add_entry bucket entry)) as Hd.
  destruct (TypeLibABC.dict_call _ _ _) as [d [ok|err]]; [|discriminate].
  intros H x Hx. injection H as <-. cbn [TypeLibABC._data fst] in *.
  apply In_library_entries in Hx as (k & b & Hkb & Hx).
  destruct (Hd k b Hkb) as [Hin | (-> & b0 & -> & Hb0)].
  - right. exists x. split; [|reflexivity]. apply Hsub.
    apply In_library_entries. eauto.
  - apply add_entry_types in Hx as [Hx | (e' & He' & Hx)]; [now left|].
    right. exists e'. split; [|exact Hx].
    destruct Hb0 as [Hb0 | ->]; [|destruct He'].
    apply Hsub. apply In_library_entries. eauto.
Qed.

Lemma fix_keep_contains (new_lib new_lib' : TypeLibABC.t) (nsize : Z)
      (entry : Entry) :
  InPlace.fix_keep new_lib nsize entry = Ok new_lib' ->
  exists b,
    find (fun kb => fst kb =? nsize) (TypeLibABC._data new_lib')
    = Some (nsize, b) /\
    ValueSortedDict.contains (EntryList._data b) (typeinfo entry) = true.
Proof.
  destruct (fix_keep_steps new_lib nsize entry) as (lib1 & -> & _).
  destruct (find_dict_call
              (TypeLibABC._data lib1) nsize
              (fun bucket => EntryList.add_entry bucket entry)) as [v Hv].
  destruct (TypeLibABC.dict_call _ _ _) as [d [ok|err]]; [|discriminate].
  intros H. injection H as <-. cbn [TypeLibABC._data fst] in *.
  eexists. split; [exact Hv|]. apply add_n_contains.
Qed.

Lemma fix_keep_preserves (new_lib new_lib' : TypeLibABC.t) (nsize : Z)
      (entry : Entry) :
  InPlace.fix_keep new_lib nsize entry = Ok new_lib' ->
  forall k b t,
    find (fun kb => fst kb =? k) (TypeLibABC._data new_lib) = Some (k, b) ->
    ValueSortedDict.contains (EntryList._data b) t = true ->
    exists b',
      find (fun kb => fst kb =? k) (TypeLibABC._data new_lib') = Some (k, b')
      /\ ValueSortedDict.contains (EntryList._data b') t = true.
Proof.
  destruct (fix_keep_steps new_lib nsize entry)
    as (lib1 & -> & _ & Hother & Hsame).
  pose proof (fun k =>
                find_dict_call_other
                  (TypeLibABC._data lib1) nsize k
                  (fun bucket => EntryList.add_entry bucket entry)) as Ho.
  pose proof (find_dict_call_same
                (TypeLibABC._data lib1) nsize
                (fun bucket => EntryList.add_entry bucket entry)) as Hs.
  destruct (TypeLibABC.dict_call _ _ _) as [d [ok|err]]; [|discriminate].
  intros H k b t Hk Ht. injection H as <-. cbn [TypeLibABC._data fst] in *.
  destruct (Z.eq_dec k nsize) as [->|Hne].
  - exists (fst (EntryList.add_entry b entry)). split.
    + apply Hs. now apply Hsame.
    + now apply add_n_keeps_contains.
  - exists b. split; [|exact Ht]. rewrite (Ho k Hne), (Hother k Hne).
    exact Hk.
Qed.

Lemma fix_keep_fresh (new_lib : TypeLibABC.t) (nsize : Z) (entry : Entry) :
  (forall x, In x (library_entries (TypeLibABC._data new_lib)) ->
             py_eq (typeinfo x) (typeinfo entry) = false) ->
  exists new_lib', InPlace.fix_keep new_lib nsize entry = Ok new_lib'.
Proof.
  intros Hfresh.
  destruct (fix_keep_steps new_lib nsize entry) as (lib1 & -> & Hsub & _).
  destruct (dict_call_add_entry (TypeLibABC._data lib1) nsize entry)
    as (d' & -> & _).
  - intros x Hx. apply Hfresh, Hsub, Hx.
  - eexists. reflexivity.
Qed.

Lemma keep_all_types (l : list (Z * Entry)) :
  forall new_lib new_lib',
    keep_all new_lib l = Ok new_lib' ->
    forall x,
      In x (library_entries (TypeLibABC._data new_lib')) ->
      (exists p, In p l /\ typeinfo x = typeinfo (snd p)) \/
      exists y, In y (library_entries (TypeLibABC._data new_lib)) /\
                typeinfo x = typeinfo y.
Proof.
  induction l as [|[n e] l IH]; intros new_lib new_lib' H x Hx;
    cbn [keep_all] in H.
  - injection H as <-. right. exists x. auto.
  - destruct (InPlace.fix_keep new_lib n e) as [lib1|err] eqn:E1;
      [|discriminate H].
    cbn [bind] in H.
    destruct (IH _ _ H x Hx) as [(p & Hp & Ht) | (y & Hy & Ht)].
    + left. exists p. split; [now right | exact Ht].
    + destruct (fix_keep_types _ _ _ _ E1 y Hy) as [Hq | (z & Hz & Hq)].
      * left. exists (n, e). split; [now left | cbn [snd]; congruence].
      * right. exists z. split; [exact Hz | congruence].
Qed.

Lemma keep_all_preserves (l : list (Z * Entry)) :
  forall new_lib new_lib',
    keep_all new_lib l = Ok new_lib' ->
    forall k b t,
      find (fun kb => fst kb =? k) (TypeLibABC._data new_lib) = Some (k, b) ->
      ValueSortedDict.contains (EntryList._data b) t = true ->
      exists b',
        find (fun kb => fst kb =? k) (TypeLibABC._data new_lib')
        = Some (k, b') /\
        ValueSortedDict.contains (EntryList._data b') t = true.
Proof.
  induction l as [|[n e] l IH]; intros new_lib new_lib' H k b t Hk Ht;
    cbn [keep_all] in H.
  - injection H as <-. eauto.
  - destruct (InPlace.fix_keep new_lib n e) as [lib1|err] eqn:E1;
      [|discriminate H].
    cbn [bind] in H.
    destruct (fix_keep_preserves _ _ _ _ E1 k b t Hk Ht) as (b1 & Hk1 & Ht1).
    exact (IH _ _ H k b1 t Hk1 Ht1).
Qed.

Lemma keep_all_contains (l : list (Z * Entry)) :
  forall new_lib new_lib',
    keep_all new_lib l = Ok new_lib' ->
    forall n e,
      In (n, e) l ->
      exists b,
        find (fun kb => fst kb =? n) (TypeLibABC._data new_lib')
        = Some (n, b) /\
        ValueSortedDict.contains (EntryList._data b) (typeinfo e) = true.
Proof.
  induction l as [|[n0 e0] l IH]; intros new_lib new_lib' H n e Hin;
    cbn [keep_all] in H; [destruct Hin|].
  destruct (InPlace.fix_keep new_lib n0 e0) as [lib1|err] eqn:E1;
    [|discriminate H].
  cbn [bind] in H. destruct Hin as [Heq | Hin].
  - injection Heq as -> ->.
    destruct (fix_keep_contains _ _ _ _ E1) as (b & Hb & Hc).
    exact (keep_all_preserves _ _ _ H _ _ _ Hb Hc).
  - exact (IH _ _ H n e Hin).
Qed.

Lemma keep_all_returns (l : list (Z * Entry)) :
  forall new_lib,
    unique_keys (map snd l) = true ->
    (forall x p, In x (library_entries (TypeLibABC._data new_lib)) ->
                 In p l -> py_eq (typeinfo x) (typeinfo (snd p)) = false) ->
    exists new_lib', keep_all new_lib l = Ok new_lib'.
Proof.
  induction l as [|[n e] l IH]; intros new_lib Hu Hfresh.
  - eexists. reflexivity.
  - cbn [map snd unique_keys] in Hu. apply andb_true_iff in Hu as [He Hl].
    apply negb_true_iff in He.
    destruct (fix_keep_fresh new_lib n e) as [lib1 E1].
    { intros x Hx. apply (Hfresh x (n, e) Hx). now left. }
    cbn [keep_all]. rewrite E1. cbn [bind]. apply IH; [exact Hl|].
    intros x p Hx Hp.
    destruct (fix_keep_types _ _ _ _ E1 x Hx) as [Hq | (y & Hy & Hq)];
      rewrite Hq.
    + destruct (py_eq (typeinfo e) (typeinfo (snd p))) eqn:E; [|reflexivity].
      assert (existsb (fun y => py_eq (typeinfo e) (typeinfo y)) (map snd l)
              = true); [|congruence].
      apply existsb_exists. exists (snd p). split; [|exact E].
      now apply in_map.
    + apply (Hfresh y p Hy). now right.
Qed.

(** The entries [fix] keeps are those of the library whose conversion
    succeeds. *)
Lemma In_kept (s : InPlace.store) (data : list (Z * EntryList.t)) (n : Z)
      (e : Entry) :
  In (n, e) (kept s data) <->
  exists k b, In (k, b) data /\ In e (EntryList._data b) /\
              fix_succeeds (value_entry s e) = true /\ n = new_size s k e.
Proof.
  unfold kept, EntryList.iter. rewrite in_flat_map. split.
  - intros ([k b] & Hkb & Hin). cbn [fst snd] in Hin.
    apply in_flat_map in Hin as (e' & He' & Hin).
    destruct (fix_succeeds (value_entry s e')) eqn:Eok; [|destruct Hin].
    destruct Hin as [Heq | []]. injection Heq as <- <-.
    exists k, b. auto.
  - intros (k & b & Hkb & He & Hok & ->). exists (k, b).
    split; [exact Hkb|]. cbn [fst snd]. apply in_flat_map. exists e.
    split; [exact He|]. rewrite Hok. now left.
Qed.

Lemma kept_entries (s : InPlace.store) (data : list (Z * EntryList.t)) :
  map snd (kept s data) =
  filter (fun e => fix_succeeds (value_entry s e)) (library_entries data).
Proof.
  unfold kept, library_entries, EntryList.iter.
  induction data as [|[k b] data IH]; cbn [flat_map fst snd]; [reflexivity|].
  rewrite map_app, filter_app, IH. f_equal.
  induction (EntryList._data b) as [|e l IHl]; cbn [flat_map filter];
    [reflexivity|].
  destruct (fix_succeeds (value_entry s e)); cbn [app map snd];
    now rewrite IHl.
Qed.

(** What [fix] does, on a library that shares no object *)
Lemma fix_spec (s : InPlace.store) (lib : TypeLibABC.t) :
  unshared lib = true ->
  (distinct_types lib = true ->
   exists s' new_lib, InPlace.fix_ s lib = (s', Ok new_lib)) /\
  (forall s' new_lib,
      InPlace.fix_ s lib = (s', Ok new_lib) ->
      (forall e,
          In e (library_entries (TypeLibABC._data lib)) ->
          InPlace.value s' (typeinfo e)
          = typeinfo (fixed_entry (value_entry s e))) /\
      (forall k bucket e,
          In (k, bucket) (TypeLibABC._data lib) ->
          In e (EntryList.iter bucket) ->
          fix_succeeds (value_entry s e) = true ->
          exists b,
            find (fun kb => fst kb =? new_size s k e)
                 (TypeLibABC._data new_lib)
            = Some (new_size s k e, b) /\
            ValueSortedDict.contains (EntryList._data b) (typeinfo e)
            = true) /\
      (forall e,
          In e (library_entries (TypeLibABC._data new_lib)) ->
          exists e0,
            In e0 (library_entries (TypeLibABC._data lib)) /\
            fix_succeeds (value_entry s e0) = true /\
            typeinfo e = typeinfo e0)).
Proof.
  intros Hu. destruct (fix_kept s lib Hu) as (s1 & E & Hv). split.
  - intros Hd.
    destruct (keep_all_returns (kept s (TypeLibABC._data lib))
                               TypeLibABC.init) as [new_lib Hk].
    + rewrite kept_entries. now apply unique_keys_filter.
    + intros x p [].
    + exists s1, new_lib. now rewrite E, Hk.
  - intros s' new_lib Hfix. rewrite E in Hfix.
    injection Hfix as <- Hk. split; [exact (Hv new_lib Hk)|]. split.
    + intros k bucket e Hkb He Hok.
      apply (keep_all_contains _ _ _ Hk). apply In_kept.
      exists k, bucket. auto.
    + intros e He.
      destruct (keep_all_types _ _ _ Hk e He) as [([n e0] & Hp & Ht) | (y & [] & _)].
      apply In_kept in Hp as (k & b & Hkb & He0 & Hok & _).
      exists e0. split; [|auto]. apply In_library_entries. eauto.
Qed.

(** With a shared object the store tells what the call leaves: a Struct
    [I] that is an entry and also the member of the entry [O] is converted at
    both visits.  Its Field of 64 bits is left with size 1, and [I] sits in
    the bucket 8 of the returned library with the size 1. *)
Lemma fix_converts_a_shared_entry_twice :
  exists s' new_lib,
    InPlace.fix_
      (InPlace.store_of [(0, 64); (1, 64); (2, 64)])
      (TypeLibABC.mk
         [(64, EntryList.mk
                 [mkEntry 1 (Struct (Some "I") [Field "x" "long" 2] 1);
                  mkEntry 2 (Struct (Some "O")
                                    [Struct (Some "I")
                                            [Field "x" "long" 2] 1] 0)])]
         None)
    = (s', Ok new_lib) /\
    InPlace.value s' (Struct (Some "I") [Field "x" "long" 2] 1)
    = Struct (Some "I") [Field "x" "long" 1] 1 /\
    TypeLibABC._data new_lib
    = [(8, EntryList.mk
             [mkEntry 1 (Struct (Some "I") [Field "x" "long" 2] 1)]);
       (1, EntryList.mk
             [mkEntry 2 (Struct (Some "O")
                                [Struct (Some "I")
                                        [Field "x" "long" 2] 1] 0)])].
Proof. eexists. eexists. split; [reflexivity|]. split; reflexivity. Qed.

(** ** What [fix] leaves of its receiver and what it returns *)

(** C5, as stated, fails: after [fix] the Struct [S] held by the receiver
    has the Field sizes 4 and 1 and the size 5, where it had 32, 8 and 40. *)
Lemma fix_changes_source : ~ fix_leaves_source sample_store sample_references.
Proof.
  intros (s' & new_lib & Hfix & Hsame).
  destruct (fix_spec sample_store sample_references eq_refl) as [_ H].
  destruct (H s' new_lib Hfix) as (Hv & _).
  specialize (Hsame _ (or_introl eq_refl)).
  specialize (Hv _ (or_introl eq_refl)).
  rewrite Hv in Hsame. discriminate Hsame.
Qed.

(** C5, amended: [fix] returns a new library and converts the Structs of
    its receiver in place.  For a library in which no Field or Struct object
    occurs in two places: if it stores no type twice, [fix] returns; and
    whenever [fix] returns, the receiver holds the objects it held, each
    type that is not a Struct as it was and each Struct as its conversion
    leaves it; every entry whose conversion succeeds is found in the
    returned library, in the bucket of its new size (of its old key, if it
    is not a Struct), where an entry has an equal type; and every type in
    the returned library is one of these very objects of the receiver, of
    an entry whose conversion succeeded: a type that fails is dropped. *)
Theorem fix_converts_source_in_place (s : InPlace.store)
        (lib : TypeLibABC.t) :
  unshared lib = true ->
  (distinct_types lib = true ->
   exists s' new_lib, InPlace.fix_ s lib = (s', Ok new_lib)) /\
  (forall s' new_lib,
      InPlace.fix_ s lib = (s', Ok new_lib) ->
      (forall e,
          In e (library_entries (TypeLibABC._data lib)) ->
          InPlace.value s' (typeinfo e)
          = typeinfo (fixed_entry (value_entry s e))) /\
      (forall k bucket e,
          In (k, bucket) (TypeLibABC._data lib) ->
          In e (EntryList.iter bucket) ->
          fix_succeeds (value_entry s e) = true ->
          exists b,
            find (fun kb => fst kb =? new_size s k e)
                 (TypeLibABC._data new_lib)
            = Some (new_size s k e, b) /\
            ValueSortedDict.contains (EntryList._data b) (typeinfo e)
            = true) /\
      (forall e,
          In e (library_entries (TypeLibABC._data new_lib)) ->
          exists e0,
            In e0 (library_entries (TypeLibABC._data lib)) /\
            fix_succeeds (value_entry s e0) = true /\
            typeinfo e = typeinfo e0)).
Proof. exact (fix_spec s lib). Qed.

Lemma fix_converts_source_in_place_witness :
  unshared sample_references = true /\
  distinct_types sample_references = true /\
  exists s' new_lib b,
    InPlace.fix_ sample_store sample_references = (s', Ok new_lib) /\
    (forall e,
        In e (library_entries (TypeLibABC._data sample_references)) ->
        InPlace.value s' (typeinfo e)
        = typeinfo (fixed_entry (value_entry sample_store e))) /\
    find (fun kb => fst kb =? 5) (TypeLibABC._data new_lib) = Some (5, b) /\
    ValueSortedDict.contains
      (EntryList._data b)
      (Struct (Some "S") [Field "a" "int" 1; Field "b" "char" 2] 0) = true /\
    (forall e,
        In e (library_entries (TypeLibABC._data new_lib)) ->
        exists e0,
          In e0 (library_entries (TypeLibABC._data sample_references)) /\
          fix_succeeds (value_entry sample_store e0) = true /\
          typeinfo e = typeinfo e0).
Proof.
  destruct (fix_converts_source_in_place sample_store sample_references
                                         eq_refl) as [Hret H].
  split; [reflexivity|]. split; [reflexivity|].
  destruct (Hret eq_refl) as (s' & new_lib & Hfix).
  destruct (H s' new_lib Hfix) as (Ha & Hb & Hc).
  destruct (Hb 40
               (EntryList.mk
                  [mkEntry 1 (Struct (Some "S")
                                     [Field "a" "int" 1;
                                      Field "b" "char" 2] 0)])
               (mkEntry 1 (Struct (Some "S")
                                  [Field "a" "int" 1;
                                   Field "b" "char" 2] 0)))
    as (b & Hfind & Hcont).
  - left. reflexivity.
  - left. reflexivity.
  - reflexivity.
  - exists s', new_lib, b. repeat split; assumption.
Defined.




